(** * terribleconsolegui: widgets, counters and the key loop

    A shallow embedding of [terribleconsolegui.py].  Python objects live in a
    heap and are named by references, so that the sharing the program relies
    on (the [exclusive_to] lists, the elements of an [ElementList]) is kept.
    Every method is a function in a state-and-exception monad whose state is
    left as the method left it when an exception is raised. *)

From Stdlib Require Import ZArith String Ascii DecimalString Lia.
From stdpp Require Import base option list gmap strings.

Local Open Scope Z_scope.

(** ** Values *)

(** The numbers a counter holds: Python ints, and the two floats
    [math.inf] and [-math.inf] which the default bounds are made of. *)
Inductive xint :=
| NegInf
| Fin (z : Z)
| PosInf.

(** Python [==] on these numbers. *)
Definition xint_eqb (a b : xint) : bool :=
  match a, b with
  | NegInf, NegInf => true
  | Fin p, Fin q => p =? q
  | PosInf, PosInf => true
  | _, _ => false
  end.

(** [n + d]; adding a finite amount to an infinity leaves it unchanged. *)
Definition xint_add (n : xint) (d : Z) : xint :=
  match n with
  | Fin z => Fin (z + d)
  | _ => n
  end.

(** The dynamically typed values that are passed around without being
    inspected: positions, texts and the ignored constructor arguments. *)
Inductive pyval :=
| PNum (n : xint)
| PStr (s : string)
| PBool (b : bool).

Definition str_xint (n : xint) : string :=
  match n with
  | NegInf => "-inf"
  | Fin z => NilZero.string_of_int (Z.to_int z)
  | PosInf => "inf"
  end.

(** Python [str(v)]. *)
Definition str (v : pyval) : string :=
  match v with
  | PNum n => str_xint n
  | PStr s => s
  | PBool true => "True"
  | PBool false => "False"
  end.

(** [len(s)] *)
Definition len (s : string) : Z := Z.of_nat (String.length s).

(** [c * n] for a one-character string [c]. *)
Definition repeat_char (c : ascii) (n : Z) : string :=
  Nat.iter (Z.to_nat n) (String c) EmptyString.

(** [s.zfill(width)]: zeros are inserted after a leading sign. *)
Definition zfill (s : string) (width : Z) : string :=
  if width <=? len s then s
  else
    let zeros := repeat_char "0" (width - len s) in
    match s with
    | String c rest =>
        if (Ascii.eqb c "+" || Ascii.eqb c "-")%bool
        then String c (zeros +:+ rest)
        else zeros +:+ s
    | EmptyString => zeros
    end.

(** [l[i]] on a Python list: negative indices count from the end. *)
Definition py_index {A : Type} (l : list A) (i : Z) : option A :=
  let n := Z.of_nat (length l) in
  if (0 <=? i) && (i <? n) then l !! Z.to_nat i
  else if (- n <=? i) && (i <? 0) then l !! Z.to_nat (n + i)
  else None.

(** The colorama constants the module uses. *)
Definition ESC : string := String (ascii_of_nat 27) EmptyString.
Definition Fore_RESET : string := ESC +:+ "[39m".
Definition Back_GREEN : string := ESC +:+ "[42m".
Definition Back_RESET : string := ESC +:+ "[49m".

(** ** Objects *)

(** A reference is the place of the object in the heap. *)
Abbreviation ref := nat (only parsing).

Record GUIElement := {
  text : pyval;
  x : pyval;
  y : pyval;
  selected : bool;
  sel_fore : string;
  sel_back : string;
  unsel_fore : string;
  unsel_back : string;
  exclusive_to : list ref
}.

Record GUICounter := {
  as_element : GUIElement;
  count : xint;
  aux_count : xint;
  align : string;
  padding : Z;
  bounds : xint * xint;
  aux_bounds : xint * xint;
  wrap_bounds : bool
}.

Record GUIHiddenList := {
  as_counter : GUICounter;
  items : list string;
  wrap : bool;
  max_width : Z
}.

(** An object of the heap, tagged with its class. *)
Inductive widget :=
| WElement (e : GUIElement)
| WCounter (c : GUICounter)
| WHiddenList (h : GUIHiddenList).

(** What is written to the terminal, and which overridable hooks were
    called (the hooks of the base classes do nothing else). *)
Inductive event :=
| Write (s : string)
| CallCleanup (r : ref)
| CallListInit
| CallListCleanup.

Record world := {
  heap : list widget;
  stdout : list event;
  stdin : list N
}.

(** ** Field updates *)

Definition with_selected (b : bool) (e : GUIElement) : GUIElement :=
  {| text := text e; x := x e; y := y e; selected := b;
     sel_fore := sel_fore e; sel_back := sel_back e;
     unsel_fore := unsel_fore e; unsel_back := unsel_back e;
     exclusive_to := exclusive_to e |}.

Definition with_exclusive_to (l : list ref) (e : GUIElement) : GUIElement :=
  {| text := text e; x := x e; y := y e; selected := selected e;
     sel_fore := sel_fore e; sel_back := sel_back e;
     unsel_fore := unsel_fore e; unsel_back := unsel_back e;
     exclusive_to := l |}.

Definition with_sel_fore (c : string) (e : GUIElement) : GUIElement :=
  {| text := text e; x := x e; y := y e; selected := selected e;
     sel_fore := c; sel_back := sel_back e;
     unsel_fore := unsel_fore e; unsel_back := unsel_back e;
     exclusive_to := exclusive_to e |}.

Definition with_sel_back (c : string) (e : GUIElement) : GUIElement :=
  {| text := text e; x := x e; y := y e; selected := selected e;
     sel_fore := sel_fore e; sel_back := c;
     unsel_fore := unsel_fore e; unsel_back := unsel_back e;
     exclusive_to := exclusive_to e |}.

Definition with_unsel_fore (c : string) (e : GUIElement) : GUIElement :=
  {| text := text e; x := x e; y := y e; selected := selected e;
     sel_fore := sel_fore e; sel_back := sel_back e;
     unsel_fore := c; unsel_back := unsel_back e;
     exclusive_to := exclusive_to e |}.

Definition with_unsel_back (c : string) (e : GUIElement) : GUIElement :=
  {| text := text e; x := x e; y := y e; selected := selected e;
     sel_fore := sel_fore e; sel_back := sel_back e;
     unsel_fore := unsel_fore e; unsel_back := c;
     exclusive_to := exclusive_to e |}.

Definition with_element (f : GUIElement -> GUIElement) (c : GUICounter) : GUICounter :=
  {| as_element := f (as_element c); count := count c; aux_count := aux_count c;
     align := align c; padding := padding c; bounds := bounds c;
     aux_bounds := aux_bounds c; wrap_bounds := wrap_bounds c |}.

Definition with_count (n : xint) (c : GUICounter) : GUICounter :=
  {| as_element := as_element c; count := n; aux_count := aux_count c;
     align := align c; padding := padding c; bounds := bounds c;
     aux_bounds := aux_bounds c; wrap_bounds := wrap_bounds c |}.

Definition with_aux_count (n : xint) (c : GUICounter) : GUICounter :=
  {| as_element := as_element c; count := count c; aux_count := n;
     align := align c; padding := padding c; bounds := bounds c;
     aux_bounds := aux_bounds c; wrap_bounds := wrap_bounds c |}.

Definition with_counter (f : GUICounter -> GUICounter) (h : GUIHiddenList) : GUIHiddenList :=
  {| as_counter := f (as_counter h); items := items h; wrap := wrap h;
     max_width := max_width h |}.

(** The [GUIElement] part of any object. *)
Definition element_of (o : widget) : GUIElement :=
  match o with
  | WElement e => e
  | WCounter c => as_element c
  | WHiddenList h => as_element (as_counter h)
  end.

Definition map_element (f : GUIElement -> GUIElement) (o : widget) : widget :=
  match o with
  | WElement e => WElement (f e)
  | WCounter c => WCounter (with_element f c)
  | WHiddenList h => WHiddenList (with_counter (with_element f) h)
  end.

(** The [GUICounter] part of an object, when its class has one. *)
Definition counter_of (o : widget) : option GUICounter :=
  match o with
  | WElement _ => None
  | WCounter c => Some c
  | WHiddenList h => Some (as_counter h)
  end.

Definition map_counter (f : GUICounter -> GUICounter) (o : widget) : widget :=
  match o with
  | WElement e => WElement e
  | WCounter c => WCounter (f c)
  | WHiddenList h => WHiddenList (with_counter f h)
  end.

(** ** The monad *)

Inductive exn :=
| ValueError
| KeyError
| IndexError
| ZeroDivisionError
| AttributeError
| TypeError
| SystemExit
| DanglingRef.   (* a reference outside the heap; no Python program has one *)

(** The result of a call: it returns, raises, or waits for ever for a key
    that does not come. *)
Inductive outcome (A : Type) :=
| Ok (a : A)
| Raise (e : exn)
| Blocked.
Arguments Ok {A} a.
Arguments Raise {A} e.
Arguments Blocked {A}.

Definition M (S A : Type) : Type := S -> S * outcome A.

Definition ret {S A : Type} (a : A) : M S A := fun s => (s, Ok a).

Definition bind {S A B : Type} (m : M S A) (k : A -> M S B) : M S B :=
  fun s =>
    match m s with
    | (s', Ok a) => k a s'
    | (s', Raise e) => (s', Raise e)
    | (s', Blocked) => (s', Blocked)
    end.

Definition raise {S A : Type} (e : exn) : M S A := fun s => (s, Raise e).

Declare Scope py_scope.
Delimit Scope py_scope with py.
Notation "'let*' v ':=' m 'in' k" := (bind m (fun v => k))
  (at level 10, v name, m at level 100, k at level 200) : py_scope.
Notation "m ';;' k" := (bind m (fun _ => k))
  (at level 100, k at level 200, right associativity) : py_scope.
Local Open Scope py_scope.

(** [for a in l: body(a)] *)
Fixpoint for_each {S A : Type} (l : list A) (body : A -> M S unit) : M S unit :=
  match l with
  | [] => ret tt
  | a :: rest => body a ;; for_each rest body
  end.

Definition when {S : Type} (b : bool) (m : M S unit) : M S unit :=
  if b then m else ret tt.

(** ** Heap and terminal access *)

Definition deref (r : ref) : M world widget :=
  fun w =>
    match heap w !! r with
    | Some o => (w, Ok o)
    | None => (w, Raise DanglingRef)
    end.

Definition store (r : ref) (o : widget) : M world unit :=
  fun w => ({| heap := <[r := o]> (heap w); stdout := stdout w; stdin := stdin w |}, Ok tt).

Definition modify (r : ref) (f : widget -> widget) : M world unit :=
  let* o := deref r in store r (f o).

Definition emit (e : event) : M world unit :=
  fun w => ({| heap := heap w; stdout := stdout w ++ [e]; stdin := stdin w |}, Ok tt).

(** [msvcrt.getch()]: one byte of the keyboard, as a [bytes] of length 1. *)
Definition getch : M world (list N) :=
  fun w =>
    match stdin w with
    | [] => (w, Blocked)
    | b :: rest => ({| heap := heap w; stdout := stdout w; stdin := rest |}, Ok [b])
    end.

(** ** The key table *)

(** The literal of [keys], in the order of the source. *)
Definition keys_literal : list (list N * string) :=
  [ ([32%N],          " ");
    ([0x1c%N],        "^\");
    ([0x1b%N],        "esc");
    ([0x1d%N],        "^]");
    ([13%N],          "enter");
    ([10%N],          "^enter");
    ([9%N],           "tab");
    ([0x95%N],        "^tab");
    ([0x08%N],        "back");
    ([0x7f%N],        "^back");
    ([0xe0%N; 83%N],  "del");
    ([0xe0%N; 0x93%N], "^del");
    ([0xe0%N; 71%N],  "home");
    ([0xe0%N; 119%N], "^home");
    ([0xe0%N; 79%N],  "end");
    ([0xe0%N; 117%N], "^end");
    ([0xe0%N; 73%N],  "pgup");
    ([0xe0%N; 0x86%N], "^pgup");
    ([0xe0%N; 81%N],  "pgdn");
    ([0%N; 82%N],     "num0");
    ([0%N; 79%N],     "num1");
    ([0%N; 80%N],     "num2");
    ([0%N; 81%N],     "num3");
    ([0%N; 75%N],     "num4");
    ([0%N; 77%N],     "num6");
    ([0%N; 71%N],     "num7");
    ([0%N; 72%N],     "num8");
    ([0%N; 73%N],     "num9");
    ([0%N; 83%N],     "num.");
    ([0%N; 0x92%N],   "^num0");
    ([0%N; 117%N],    "^num1");
    ([0%N; 0x91%N],   "^num2");
    ([0%N; 118%N],    "^num3");
    ([0%N; 115%N],    "^num4");
    ([0%N; 116%N],    "^num6");
    ([0%N; 119%N],    "^num7");
    ([0%N; 0x8d%N],   "^num8");
    ([0%N; 0x84%N],   "^num9");
    ([0%N; 0x93%N],   "^num.");
    ([0%N; 0x95%N],   "^num/");
    ([0xe0%N; 72%N],  "up");
    ([0xe0%N; 80%N],  "down");
    ([0xe0%N; 75%N],  "left");
    ([0xe0%N; 77%N],  "right") ].

(** [chr(i)] *)
Definition chr (i : N) : string := String (ascii_of_N i) EmptyString.

(** [range(32, 127)] *)
Definition printable : list N := N.of_nat <$> seq 32 95.

(** [d.update({k: v ...})]: later bindings replace earlier ones. *)
Definition dict_update (d : gmap (list N) string) (kvs : list (list N * string))
  : gmap (list N) string :=
  foldl (fun m kv => <[fst kv := snd kv]> m) d kvs.

Definition keys : gmap (list N) string :=
  dict_update (dict_update ∅ keys_literal) ((fun i => ([i], chr i)) <$> printable).

(** [keys[k]] *)
Definition keys_getitem {S : Type} (k : list N) : M S string :=
  match keys !! k with
  | Some token => ret token
  | None => raise KeyError
  end.

(** ** print_pos *)

(** The characters [print_pos(text, x, y, fore, back)] sends to the terminal. *)
Definition print_pos_text (text x y : pyval) (fore back : string) : string :=
  ESC +:+ "[" +:+ str y +:+ ";" +:+ str x +:+ "H"
  +:+ fore +:+ back +:+ str text +:+ Fore_RESET +:+ Back_RESET.

(** [print_pos(text, x, y, fore, back)] *)
Definition print_pos (text x y : pyval) (fore back : string) : M world unit :=
  emit (Write (print_pos_text text x y fore back)).

(** ** GUIElement *)

(** [GUIElement.__init__]; the defaults of the source are
    [sel_fore=Fore.RESET, sel_back=Back.GREEN, unsel_fore=Fore.RESET,
    unsel_back=Back.RESET, selected=False]. *)
Definition GUIElement_init (text x y : pyval)
    (sel_fore sel_back unsel_fore unsel_back : string) (selected : bool) : GUIElement :=
  {| text := text; x := x; y := y; selected := selected;
     sel_fore := sel_fore; sel_back := sel_back;
     unsel_fore := unsel_fore; unsel_back := unsel_back;
     exclusive_to := [] |}.

(** [GUIElement.update(self, text=None)] *)
Definition GUIElement_update (self : ref) (text_arg : option pyval) : M world unit :=
  let* o := deref self in
  let e := element_of o in
  let t := match text_arg with None => text e | Some t => t end in
  let fore := if selected e then sel_fore e else unsel_fore e in
  let back := if selected e then sel_back e else unsel_back e in
  print_pos t (x e) (y e) fore back.

(** The counter part of the object at [self]. *)
Definition counter_at (self : ref) : M world GUICounter :=
  let* o := deref self in
  match counter_of o with
  | Some c => ret c
  | None => raise AttributeError
  end.

(** [GUICounter.update(self)] *)
Definition GUICounter_update (self : ref) : M world unit :=
  let* c := counter_at self in
  if String.eqb (align c) "left" then
    GUIElement_update self (Some (PStr (str_xint (count c))))
  else if String.eqb (align c) "right" then
    GUIElement_update self (Some (PStr (zfill (str_xint (count c)) (padding c))))
  else raise ValueError.

(** The property [GUIHiddenList.current]: [items[count % len(items)]]. *)
Definition GUIHiddenList_current (h : GUIHiddenList) : outcome string :=
  match items h with
  | [] => Raise ZeroDivisionError
  | _ :: _ =>
      match count (as_counter h) with
      | Fin z =>
          match py_index (items h) (z mod Z.of_nat (length (items h))) with
          | Some s => Ok s
          | None => Raise IndexError
          end
      | _ => Raise TypeError   (* inf % n is nan, which is no index *)
      end
  end.

Definition of_outcome {S A : Type} (r : outcome A) : M S A := fun s => (s, r).

(** [GUIHiddenList.update(self)] *)
Definition GUIHiddenList_update (self : ref) : M world unit :=
  let* o := deref self in
  match o with
  | WHiddenList h =>
      let* current := of_outcome (GUIHiddenList_current h) in
      GUIElement_update self (Some (PStr current))
  | _ => raise AttributeError
  end.

(** [self.update()], resolved by the class of [self]. *)
Definition update (self : ref) : M world unit :=
  let* o := deref self in
  match o with
  | WElement _ => GUIElement_update self None
  | WCounter _ => GUICounter_update self
  | WHiddenList _ => GUIHiddenList_update self
  end.

Definition set_sel_fore (self : ref) (color : string) : M world unit :=
  modify self (map_element (with_sel_fore color)) ;; update self.

Definition set_sel_back (self : ref) (color : string) : M world unit :=
  modify self (map_element (with_sel_back color)) ;; update self.

Definition set_unsel_fore (self : ref) (color : string) : M world unit :=
  modify self (map_element (with_unsel_fore color)) ;; update self.

Definition set_unsel_back (self : ref) (color : string) : M world unit :=
  modify self (map_element (with_unsel_back color)) ;; update self.

(** [GUIElement.deselect(self)] *)
Definition deselect (self : ref) : M world unit :=
  modify self (map_element (with_selected false)) ;; update self.

(** [GUIElement.select(self)] *)
Definition select (self : ref) : M world unit :=
  let* o := deref self in
  for_each (exclusive_to (element_of o)) (fun element =>
    let* oe := deref element in
    when (selected (element_of oe) && negb (element =? self)%nat) (deselect element)) ;;
  modify self (map_element (with_selected true)) ;;
  update self.

(** [GUIElement.cleanup(self)]: the hook does nothing; its call is recorded. *)
Definition cleanup (self : ref) : M world unit := emit (CallCleanup self).

(** [GUIElement.clear(self, length=None)] *)
Definition GUIElement_clear (self : ref) (length_arg : option Z) : M world unit :=
  let* o := deref self in
  let e := element_of o in
  let n := match length_arg with None => len (str (text e)) | Some n => n end in
  print_pos (PStr (repeat_char " " n)) (x e) (y e) Fore_RESET Back_RESET ;;
  cleanup self.

(** ** GUICounter *)

(** [GUICounter.__init__]: the five arguments after [y] are accepted and not
    used.  The defaults of the source are [default=0, default_aux=0,
    align='left', padding=0, bounds=(-inf, inf), aux_bounds=(-inf, inf),
    wrap_bounds=True]. *)
Definition GUICounter_init (x y : pyval)
    (sel_fore sel_back unsel_fore unsel_back selected : pyval)
    (default default_aux : xint) (align : string) (padding : Z)
    (bounds aux_bounds : xint * xint) (wrap_bounds : bool) : GUICounter :=
  {| as_element :=
       GUIElement_init (PNum default) x y Fore_RESET Back_GREEN Fore_RESET Back_RESET false;
     count := default;
     aux_count := default_aux;
     align := align;
     padding := padding;
     bounds := bounds;
     aux_bounds := aux_bounds;
     wrap_bounds := wrap_bounds |}.

(** [GUICounter.clear(self, width=0)] *)
Definition GUICounter_clear (self : ref) (width : Z) : M world unit :=
  let* c := counter_at self in
  GUIElement_clear self
    (Some (Z.max (Z.max width (len (str (text (as_element c))))) (padding c))).

Definition set_count (self : ref) (n : xint) : M world unit :=
  modify self (map_counter (with_count n)).

Definition set_aux_count (self : ref) (n : xint) : M world unit :=
  modify self (map_counter (with_aux_count n)).

(** [GUICounter.increase(self)] *)
Definition GUICounter_increase (self : ref) : M world unit :=
  let* c := counter_at self in
  (if negb (xint_eqb (count c) (snd (bounds c))) then
     set_count self (xint_add (count c) 1)
   else if wrap_bounds c then
     set_count self (fst (bounds c))
   else ret tt) ;;
  update self.

(** [GUICounter.decrease(self)] *)
Definition GUICounter_decrease (self : ref) : M world unit :=
  let* c := counter_at self in
  (if negb (xint_eqb (count c) (fst (bounds c))) then
     set_count self (xint_add (count c) (-1))
   else if wrap_bounds c then
     set_count self (snd (bounds c))
   else ret tt) ;;
  update self.

(** [GUICounter.aux_increase(self)] *)
Definition aux_increase (self : ref) : M world unit :=
  let* c := counter_at self in
  (if negb (xint_eqb (count c) (snd (aux_bounds c))) then
     set_aux_count self (xint_add (aux_count c) 1)
   else if wrap_bounds c then
     set_count self (fst (aux_bounds c))
   else ret tt) ;;
  update self.

(** [GUICounter.aux_decrease(self)] *)
Definition aux_decrease (self : ref) : M world unit :=
  let* c := counter_at self in
  (if negb (xint_eqb (count c) (fst (aux_bounds c))) then
     set_aux_count self (xint_add (aux_count c) (-1))
   else if wrap_bounds c then
     set_count self (snd (aux_bounds c))
   else ret tt) ;;
  update self.

(** ** GUIHiddenList *)

(** [GUIHiddenList.__init__]: the call of [GUICounter.__init__] passes
    [items[0], x, y] and four colours by position, so they land on
    [x, y, sel_fore, sel_back, unsel_fore, unsel_back, selected]; the other
    parameters of the counter take their defaults.  The defaults of the
    source are [max_width=None, wrap=False]. *)
Definition GUIHiddenList_init (items : list string) (x y : pyval)
    (sel_fore sel_back unsel_fore unsel_back selected : pyval)
    (max_width : option Z) (wrap : bool) : outcome GUIHiddenList :=
  match items with
  | [] => Raise IndexError
  | first :: _ =>
      Ok {| as_counter :=
              GUICounter_init (PStr first) x y
                (PStr Fore_RESET) (PStr Back_GREEN) (PStr Fore_RESET) (PStr Back_RESET)
                (Fin 0) (Fin 0) "left" 0 (NegInf, PosInf) (NegInf, PosInf) true;
            items := items;
            wrap := wrap;
            max_width :=
              match max_width with
              | None => foldr Z.max (len first) (len <$> items)
              | Some m => m
              end |}
  end.

(** [GUIHiddenList.clear(self)] *)
Definition GUIHiddenList_clear (self : ref) : M world unit :=
  let* o := deref self in
  match o with
  | WHiddenList h => GUICounter_clear self (max_width h)
  | _ => raise AttributeError
  end.

(** [GUIHiddenList.increase(self)] *)
Definition GUIHiddenList_increase (self : ref) : M world unit :=
  let* o := deref self in
  match o with
  | WHiddenList h =>
      let n := count (as_counter h) in
      (if xint_eqb n (Fin (Z.of_nat (length (items h)) - 1)) then
         when (wrap h) (set_count self (xint_add n 1))
       else set_count self (xint_add n 1)) ;;
      update self
  | _ => raise AttributeError
  end.

(** [GUIHiddenList.decrease(self)] *)
Definition GUIHiddenList_decrease (self : ref) : M world unit :=
  let* o := deref self in
  match o with
  | WHiddenList h =>
      let n := count (as_counter h) in
      (if xint_eqb n (Fin 0) then
         when (wrap h) (set_count self (xint_add n (-1)))
       else set_count self (xint_add n (-1))) ;;
      update self
  | _ => raise AttributeError
  end.

(** ** Calls resolved by the class of the receiver *)

(** [element.clear()] *)
Definition clear (self : ref) : M world unit :=
  let* o := deref self in
  match o with
  | WElement _ => GUIElement_clear self None
  | WCounter _ => GUICounter_clear self 0
  | WHiddenList _ => GUIHiddenList_clear self
  end.

(** [element.increase()]; a plain [GUIElement] has no such method. *)
Definition increase (self : ref) : M world unit :=
  let* o := deref self in
  match o with
  | WElement _ => raise AttributeError
  | WCounter _ => GUICounter_increase self
  | WHiddenList _ => GUIHiddenList_increase self
  end.

(** [element.decrease()] *)
Definition decrease (self : ref) : M world unit :=
  let* o := deref self in
  match o with
  | WElement _ => raise AttributeError
  | WCounter _ => GUICounter_decrease self
  | WHiddenList _ => GUIHiddenList_decrease self
  end.

(** ** ElementList *)

(** The list itself (its elements are references), with its two attributes.
    [el_wrap] is the attribute [wrap] of the source. *)
Record ElementList := {
  elems : list ref;
  el_wrap : bool;
  _current_index : Z
}.

Definition with_current_index (i : Z) (l : ElementList) : ElementList :=
  {| elems := elems l; el_wrap := el_wrap l; _current_index := i |}.

(** The state of the methods of an [ElementList]: the list and the world. *)
Definition lstate : Type := ElementList * world.

Definition lift {A : Type} (m : M world A) : M lstate A :=
  fun s => let (w', r) := m (snd s) in ((fst s, w'), r).

Definition get_self : M lstate ElementList := fun s => (s, Ok (fst s)).

Definition set_current_index (i : Z) : M lstate unit :=
  fun s => ((with_current_index i (fst s), snd s), Ok tt).

(** The two ways of calling the constructor: [ElementList(a, b, c)] and
    [ElementList([a, b, c])]. *)
Inductive call_args :=
| Star (args : list ref)
| Packed (arg : list ref).

(** [ElementList.__init__(self, *args, default=0, wrap=True, exclusive=False)] *)
Definition ElementList_init (a : call_args) (default : Z) (wrap exclusive : bool)
  : M world ElementList :=
  let* args :=
    match a with
    | Star [] => raise IndexError
    | Star args => ret args
    | Packed arg => ret arg
    end in
  when exclusive
    (for_each args (fun element => modify element (map_element (with_exclusive_to args)))) ;;
  ret {| elems := args; el_wrap := wrap; _current_index := default |}.

(** The property [ElementList.current] *)
Definition ElementList_current : M lstate ref :=
  let* self := get_self in
  match py_index (elems self) (_current_index self) with
  | Some r => ret r
  | None => raise IndexError
  end.

(** [ElementList.init] and [ElementList.cleanup]: hooks that do nothing;
    their calls are recorded. *)
Definition init : M lstate unit := lift (emit CallListInit).
Definition ElementList_cleanup : M lstate unit := lift (emit CallListCleanup).

(** [ElementList.clear_all(self)] *)
Definition clear_all : M lstate unit :=
  let* self := get_self in
  lift (for_each (elems self) clear) ;;
  ElementList_cleanup.

(** [ElementList.__exit__] *)
Definition ElementList_exit : M lstate unit := clear_all.

(** [a % len(self)] *)
Definition mod_len (a : Z) : M lstate Z :=
  let* self := get_self in
  match elems self with
  | [] => raise ZeroDivisionError
  | _ :: _ => ret (a mod Z.of_nat (length (elems self)))
  end.

(** [ElementList.move_left(self)] *)
Definition move_left : M lstate unit :=
  let* self := get_self in
  let* i := mod_len (_current_index self - 1) in
  set_current_index i ;;
  let* current := ElementList_current in
  lift (select current).

(** [ElementList.move_right(self)] *)
Definition move_right : M lstate unit :=
  let* self := get_self in
  let* i := mod_len (_current_index self + 1) in
  set_current_index i ;;
  let* current := ElementList_current in
  lift (select current).

(** ** The generator key_presses *)

(** Where the body of the generator stands between two calls of [next]. *)
Inductive gen_pc :=
| NotStarted
| AtYield
| Finished.

(** A generator object: the arguments of the call and the program point. *)
Record generator := {
  auto_left_right : bool;
  auto_up_down : bool;
  auto_esc : bool;
  auto_enter : bool;
  clean : bool;
  pc : gen_pc
}.

Definition with_pc (p : gen_pc) (g : generator) : generator :=
  {| auto_left_right := auto_left_right g; auto_up_down := auto_up_down g;
     auto_esc := auto_esc g; auto_enter := auto_enter g; clean := clean g;
     pc := p |}.

(** Calling [key_presses] builds the generator and runs nothing. *)
Definition key_presses (auto_left_right auto_up_down auto_esc auto_enter clean : bool)
  : generator :=
  {| auto_left_right := auto_left_right; auto_up_down := auto_up_down;
     auto_esc := auto_esc; auto_enter := auto_enter; clean := clean;
     pc := NotStarted |}.

(** The statements before the loop. *)
Definition prologue : M lstate unit :=
  init ;;
  (let* current := ElementList_current in lift (select current)) ;;
  let* self := get_self in
  lift (for_each (elems self) update).

(** The decoding of one key: one byte, or two after a prefix byte. *)
Definition read_key : M world string :=
  let* key := getch in
  if decide (key = [0%N]) then
    let* second := getch in keys_getitem (key ++ second)
  else if decide (key = [0xe0%N]) then
    let* second := getch in keys_getitem (key ++ second)
  else keys_getitem key.

(** [key in (a, b)] *)
Definition key_in (key a b : string) : bool := String.eqb key a || String.eqb key b.

(** One pass through the body of [while True], up to [break] ([None]) or
    to [yield key] ([Some key]). *)
Definition loop_body (g : generator) : M lstate (option string) :=
  let* key := lift read_key in
  when (auto_left_right g)
    (if key_in key "left" "a" then move_left
     else if key_in key "right" "d" then move_right
     else ret tt) ;;
  when (auto_up_down g)
    (if key_in key "up" "w" then
       let* current := ElementList_current in lift (increase current)
     else if key_in key "down" "s" then
       let* current := ElementList_current in lift (decrease current)
     else ret tt) ;;
  when (auto_esc g && String.eqb key "esc") (raise SystemExit) ;;
  if auto_enter g && String.eqb key "enter" then ret None
  else ret (Some key).

(** The statement after the loop. *)
Definition epilogue (g : generator) : M lstate unit :=
  when (clean g) clear_all.

(** The body from the point where it stands to the next [yield] ([Some key])
    or to its end ([None]). *)
Definition resume (g : generator) : M lstate (option string) :=
  let iteration :=
    let* r := loop_body g in
    match r with
    | Some key => ret (Some key)
    | None => epilogue g ;; ret None
    end in
  match pc g with
  | NotStarted => prologue ;; iteration
  | AtYield => iteration
  | Finished => ret None
  end.

(** [next(g)]: [Ok (Some key)] is a yielded key, [Ok None] is [StopIteration].
    A generator whose body raised is finished. *)
Definition next (g : generator) (s : lstate) : generator * lstate * outcome (option string) :=
  match resume g s with
  | (s', Ok (Some key)) => (with_pc AtYield g, s', Ok (Some key))
  | (s', Ok None) => (with_pc Finished g, s', Ok None)
  | (s', Raise e) => (with_pc Finished g, s', Raise e)
  | (s', Blocked) => (g, s', Blocked)
  end.

(** [g.close()], which is also what happens to a generator the consumer
    drops: [GeneratorExit] is raised at the [yield] where the body stands,
    no handler or [finally] of the body encloses that [yield], and the
    generator is finished without another statement being run. *)
Definition close (g : generator) (s : lstate) : generator * lstate :=
  (with_pc Finished g, s).

(** [list(g)], with a bound on the number of calls of [next]; [None] when
    the bound is reached. *)
Fixpoint collect (fuel : nat) (g : generator) (s : lstate)
  : option (generator * lstate * outcome (list string)) :=
  match fuel with
  | O => None
  | S fuel' =>
      match next g s with
      | (g', s', Ok (Some key)) =>
          match collect fuel' g' s' with
          | Some (g'', s'', Ok l) => Some (g'', s'', Ok (key :: l))
          | other => other
          end
      | (g', s', Ok None) => Some (g', s', Ok [])
      | (g', s', Raise e) => Some (g', s', Raise e)
      | (g', s', Blocked) => Some (g', s', Blocked)
      end
  end.

(** [list(g)] with one call of [next] more than there are bytes to read. *)
Definition list_of (g : generator) (s : lstate)
  : option (generator * lstate * outcome (list string)) :=
  collect (S (length (stdin (snd s)))) g s.

(** [for key in g: break] after [n] keys: the consumer takes [n] keys and
    drops the generator. *)
Fixpoint take_then_drop (n : nat) (g : generator) (s : lstate)
  : generator * lstate * outcome (list string) :=
  match n with
  | O => let (g', s') := close g s in (g', s', Ok [])
  | S n' =>
      match next g s with
      | (g', s', Ok (Some key)) =>
          match take_then_drop n' g' s' with
          | (g'', s'', Ok l) => (g'', s'', Ok (key :: l))
          | other => other
          end
      | (g', s', Ok None) => (g', s', Ok [])
      | (g', s', Raise e) => (g', s', Raise e)
      | (g', s', Blocked) => (g', s', Blocked)
      end
  end.

(** ** Notions used to state the properties *)

(** The state a call ends in, however it ends, is related by [R] to the
    state it started in. *)
Definition respects {S A : Type} (R : S -> S -> Prop) (m : M S A) : Prop :=
  forall s, R s (fst (m s)).

(** The terminal only grows. *)
Definition grows (w w' : world) : Prop := exists ev, stdout w' = stdout w ++ ev.

(** Only the terminal changes. *)
Definition draws (w w' : world) : Prop :=
  heap w' = heap w /\ stdin w' = stdin w /\ grows w w'.

(** The list itself is as it was. *)
Definition keeps_list (s s' : lstate) : Prop := fst s' = fst s.

(** The objects whose [update()] raises nothing: a counter is aligned left
    or right, a hidden list has items and an integer count. *)
Definition drawable (o : widget) : Prop :=
  match o with
  | WElement _ => True
  | WCounter c => align c = "left" \/ align c = "right"
  | WHiddenList h => items h <> [] /\ exists z, count (as_counter h) = Fin z
  end.

(** The object at [r] exists and can be drawn. *)
Definition drawable_at (w : world) (r : ref) : Prop :=
  exists o, heap w !! r = Some o /\ drawable o.

(** Nothing changed but [selected] flags and the terminal. *)
Definition reselected (w w' : world) : Prop :=
  stdin w' = stdin w /\
  forall r o, heap w !! r = Some o ->
              exists b, heap w' !! r = Some (map_element (with_selected b) o).

(** Among the events [evs], the widget at [r] was cleared: blanks were
    written at its position with the colours reset, and its [cleanup] hook
    was called. *)
Definition cleared (w : world) (r : ref) (evs : list event) : Prop :=
  exists o n,
    heap w !! r = Some o /\
    Write (print_pos_text (PStr (repeat_char " " n))
             (x (element_of o)) (y (element_of o)) Fore_RESET Back_RESET) ∈ evs /\
    CallCleanup r ∈ evs.

(** The bytes of the keys "up", "up", "enter". *)
Definition up_up_enter : list N := [0xe0%N; 72%N; 0xe0%N; 72%N; 13%N].

(** The list has the same elements and the terminal only grew. *)
Definition extends (s s' : lstate) : Prop :=
  elems (fst s') = elems (fst s) /\ grows (snd s) (snd s').

(** A call of [increase] or [decrease]. *)
Inductive counter_call :=
| Increase
| Decrease.

Definition call (self : ref) (op : counter_call) : M world unit :=
  match op with
  | Increase => increase self
  | Decrease => decrease self
  end.

(** The counter part of the object at [r], and its [count]. *)
Definition counter_in (w : world) (r : ref) : option GUICounter :=
  heap w !! r ≫= counter_of.

Definition count_at (w : world) (r : ref) : option xint :=
  count <$> counter_in w r.

(** [h.current] for the hidden list at [r]. *)
Definition current_at (w : world) (r : ref) : outcome string :=
  match heap w !! r with
  | Some (WHiddenList h) => GUIHiddenList_current h
  | Some _ => Raise AttributeError
  | None => Raise DanglingRef
  end.

(** [r.selected] *)
Definition selected_at (w : world) (r : ref) : option bool :=
  (fun o => selected (element_of o)) <$> heap w !! r.


(** The count a hidden list has after one call. *)
Definition hidden_list_step (h : GUIHiddenList) (op : counter_call) (z : Z) : Z :=
  match op with
  | Increase =>
      if z =? Z.of_nat (length (items h)) - 1 then (if wrap h then z + 1 else z) else z + 1
  | Decrease =>
      if z =? 0 then (if wrap h then z + -1 else z) else z + -1
  end.

(** Increases minus decreases. *)
Fixpoint net (ops : list counter_call) : Z :=
  match ops with
  | [] => 0
  | Increase :: rest => 1 + net rest
  | Decrease :: rest => -1 + net rest
  end.

(** The counter a [GUICounter] becomes by one call. *)
Definition counter_after (op : counter_call) (c : GUICounter) : GUICounter :=
  match op with
  | Increase =>
      if negb (xint_eqb (count c) (snd (bounds c))) then with_count (xint_add (count c) 1) c
      else if wrap_bounds c then with_count (fst (bounds c)) c
      else c
  | Decrease =>
      if negb (xint_eqb (count c) (fst (bounds c))) then with_count (xint_add (count c) (-1)) c
      else if wrap_bounds c then with_count (snd (bounds c)) c
      else c
  end.

(** What [clear()] writes for a widget: [n] blanks at its position. *)
Definition blanks_at (o : widget) (n : Z) : event :=
  Write (print_pos_text (PStr (repeat_char " " n))
           (x (element_of o)) (y (element_of o)) Fore_RESET Back_RESET).

(** The single bytes that are keys by themselves. *)
Definition single_key (b : N) : bool :=
  ((8 <=? b) && (b <=? 10) || (b =? 13) || (27 <=? b) && (b <=? 29)
   || (32 <=? b) && (b <=? 127) || (b =? 0x95))%N.

(** [l.index(value)]: the first position of [value] in the list; widgets
    are compared by identity. *)
Fixpoint list_index (value : ref) (l : list ref) : option nat :=
  match l with
  | [] => None
  | a :: rest => if (a =? value)%nat then Some 0%nat else S <$> list_index value rest
  end.

(** The setter of the property [ElementList.current]; [index] raises
    [ValueError] for a value that is not in the list. *)
Definition ElementList_set_current (value : ref) : M lstate unit :=
  let* self := get_self in
  match list_index value (elems self) with
  | Some i => set_current_index (Z.of_nat i)
  | None => raise ValueError
  end.

(** The calls of hooks among some events, in their order. *)
Definition hook_calls (evs : list event) : list event :=
  List.filter (fun e => match e with Write _ => false | _ => true end) evs.

(** The keyboard is as it was. *)
Definition keeps_keyboard (w w' : world) : Prop := stdin w' = stdin w.

Definition keeps_keyboard_of (s s' : lstate) : Prop := stdin (snd s') = stdin (snd s).

(** What follows the decoding in a pass of the loop, with the tests on the
    key taken as arguments. *)
Definition after_key (g : generator)
    (is_left is_right is_up is_down is_esc is_enter : bool) (key : string)
  : M lstate (option string) :=
  when (auto_left_right g)
    (if is_left then move_left
     else if is_right then move_right
     else ret tt) ;;
  when (auto_up_down g)
    (if is_up then
       let* current := ElementList_current in lift (increase current)
     else if is_down then
       let* current := ElementList_current in lift (decrease current)
     else ret tt) ;;
  when (auto_esc g && is_esc) (raise SystemExit) ;;
  if auto_enter g && is_enter then ret None
  else ret (Some key).

(** The result of [next] with the key yielded, if one is, replaced by [t]. *)
Definition yielding (t : string) (r : outcome (option string)) : outcome (option string) :=
  match r with
  | Ok (Some _) => Ok (Some t)
  | other => other
  end.

(** Only writes were added to the terminal, no call of a hook. *)
Definition writes_only (w w' : world) : Prop :=
  exists evs, stdout w' = stdout w ++ evs /\ hook_calls evs = [].

(** The [aux_count] of the counter part of the object at [r]. *)
Definition aux_count_at (w : world) (r : ref) : option xint :=
  aux_count <$> counter_in w r.

(** Among the events [evs] there is no call of a [cleanup] hook, neither of
    a widget nor of the list: no [clear()] and no [clear_all()] was run. *)
Definition nothing_cleaned (evs : list event) : Prop :=
  ~ (CallListCleanup ∈ evs) /\ forall r, ~ (CallCleanup r ∈ evs).

(** No object was lost, and what was added to the terminal holds no call of
    a [cleanup] hook. *)
Definition uncleaned (w w' : world) : Prop :=
  length (heap w') = length (heap w) /\
  exists evs, stdout w' = stdout w ++ evs /\ nothing_cleaned evs.

Definition uncleaned_of (s s' : lstate) : Prop :=
  elems (fst s') = elems (fst s) /\ uncleaned (snd s) (snd s').

(** In the state [w], [update()] of the widget at [r] returns and writes the
    one event [ev]. *)
Definition draws_as (w : world) (r : ref) (ev : event) : Prop :=
  update r w = ({| heap := heap w; stdout := stdout w ++ [ev]; stdin := stdin w |}, Ok tt).

(** ** Worlds used as examples *)

(** A counter at (1, 1) with the given value, bounds and wrapping, drawn
    left-aligned; the other arguments take their defaults. *)
Definition counter_example (value : Z) (b : xint * xint) (wrapping : bool) : GUICounter :=
  GUICounter_init (PNum (Fin 1)) (PNum (Fin 1))
    (PStr Fore_RESET) (PStr Back_GREEN) (PStr Fore_RESET) (PStr Back_RESET) (PBool false)
    (Fin value) (Fin 0) "left" 0 b (NegInf, PosInf) wrapping.

(** A world whose heap holds the given objects, with an empty terminal and
    the given keyboard input. *)
Definition world_of (objects : list widget) (input : list N) : world :=
  {| heap := objects; stdout := []; stdin := input |}.

(** The hidden list built from [items] with the given [wrap]; the other
    arguments are a position and the defaults. *)
Definition hidden_list_example (items : list string) (wrap : bool) : outcome GUIHiddenList :=
  GUIHiddenList_init items (PNum (Fin 1)) (PNum (Fin 1))
    (PStr Fore_RESET) (PStr Back_GREEN) (PStr Fore_RESET) (PStr Back_RESET) (PBool false)
    None wrap.

(** The world in which the object just built is the only one. *)
Definition world_with (r : outcome GUIHiddenList) : world :=
  match r with
  | Ok h => world_of [WHiddenList h] []
  | _ => world_of [] []
  end.

(** The hidden list over ["a", "b", "c"] as its constructor builds it, moved
    to the given count. *)
Definition abc_at (index : Z) (wrap : bool) : GUIHiddenList :=
  {| as_counter :=
       with_count (Fin index)
         (GUICounter_init (PStr "a") (PNum (Fin 1)) (PNum (Fin 1))
            (PStr Fore_RESET) (PStr Back_GREEN) (PStr Fore_RESET) (PStr Back_RESET)
            (Fin 0) (Fin 0) "left" 0 (NegInf, PosInf) (NegInf, PosInf) true);
     items := ["a"; "b"; "c"];
     wrap := wrap;
     max_width := 1 |}.

(** Three plain widgets A, B, C (references 0, 1, 2) put in an exclusive
    [ElementList], B being selected at its construction. *)
Definition three_widgets : world :=
  let widget_at col sel :=
    WElement (GUIElement_init (PStr "item") (PNum (Fin col)) (PNum (Fin 1))
                Fore_RESET Back_GREEN Fore_RESET Back_RESET sel) in
  fst (ElementList_init (Star [0%nat; 1%nat; 2%nat]) 0 true true
         (world_of [widget_at 1 false; widget_at 10 true; widget_at 20 false] [])).

(** The keys a run of [list(g)] collected, when it returned. *)
Definition keys_yielded (r : option (generator * lstate * outcome (list string)))
  : option (list string) :=
  match r with
  | Some (_, _, Ok l) => Some l
  | _ => None
  end.

(** Two counters with the default bounds, valued 0 and 5, in an
    [ElementList] whose current element is the first; the keyboard holds
    the given bytes. *)
Definition two_counters (input : list N) : lstate :=
  ({| elems := [0%nat; 1%nat]; el_wrap := true; _current_index := 0 |},
   world_of [WCounter (counter_example 0 (NegInf, PosInf) true);
             WCounter (counter_example 5 (NegInf, PosInf) true)] input).

(** The consumer [for key in g: break] on the two counters, with
    [auto_up_down], [auto_enter] and [clean] set: one key is taken and the
    generator is dropped. *)
Definition dropped_after_one_key : generator * lstate * outcome (list string) :=
  take_then_drop 1 (key_presses false true false true true) (two_counters up_up_enter).

(** * Properties *)

(** ** Constructors *)

(** C9 — Whatever is passed for [sel_fore], [sel_back], [unsel_fore],
    [unsel_back] and [selected] to the constructor of a [GUICounter] or of a
    [GUIHiddenList], the widget built has [sel_fore = Fore.RESET],
    [sel_back = Back.GREEN], [unsel_fore = Fore.RESET],
    [unsel_back = Back.RESET] and [selected = False].  (The constructor of a
    [GUIHiddenList] raises [IndexError] on an empty [items] and builds a
    widget otherwise.) *)
Theorem constructors_ignore_style_arguments :
  forall (px py sel_fore' sel_back' unsel_fore' unsel_back' selected' : pyval),
    (forall default default_aux align' padding' bounds' aux_bounds' wrap_bounds',
        let e := as_element
                   (GUICounter_init px py sel_fore' sel_back' unsel_fore' unsel_back'
                      selected' default default_aux align' padding' bounds' aux_bounds'
                      wrap_bounds') in
        sel_fore e = Fore_RESET /\ sel_back e = Back_GREEN /\
        unsel_fore e = Fore_RESET /\ unsel_back e = Back_RESET /\
        selected e = false)
    /\
    (forall items' max_width' wrap',
        match GUIHiddenList_init items' px py sel_fore' sel_back' unsel_fore'
                unsel_back' selected' max_width' wrap' with
        | Ok h =>
            let e := as_element (as_counter h) in
            items' <> [] /\
            sel_fore e = Fore_RESET /\ sel_back e = Back_GREEN /\
            unsel_fore e = Fore_RESET /\ unsel_back e = Back_RESET /\
            selected e = false
        | Raise e => items' = [] /\ e = IndexError
        | Blocked => False
        end).
Proof.
  intros px py sf sb uf ub sl. split.
  - intros. subst e. cbn. repeat split.
  - intros [| first rest] mw wr; cbn.
    + split; reflexivity.
    + repeat split. discriminate.
Qed.

(** ** The key decoder *)

Lemma printable_range (b : N) : (32 <= b <= 126)%N -> b ∈ printable.
Proof.
  intros Hb. unfold printable.
  apply list_elem_of_fmap. exists (N.to_nat b). split; [lia |].
  apply elem_of_seq. lia.
Qed.

Lemma keys_printable (b : N) : (32 <= b <= 126)%N -> keys !! [b] = Some (chr b).
Proof.
  intros Hb.
  assert (Hall : Forall (fun i => keys !! [i] = Some (chr i)) printable).
  { unfold printable. vm_compute seq. vm_compute fmap.
    repeat (apply Forall_cons; split; [vm_compute; reflexivity |]).
    apply Forall_nil_2. }
  rewrite Forall_forall in Hall. apply Hall. by apply printable_range.
Qed.

(** C8 — A single input byte [b] of the printable range [32, 126] is decoded,
    without a second byte being read, into the token [chr(b)]; decoding is a
    function of the input. *)
Theorem read_key_printable :
  forall (b : N) (w : world) (rest : list N),
    (32 <= b <= 126)%N ->
    stdin w = b :: rest ->
    read_key w =
      ({| heap := heap w; stdout := stdout w; stdin := rest |}, Ok (chr b)).
Proof.
  intros b w rest Hb Hin.
  unfold read_key, bind, getch. rewrite Hin.
  destruct (decide ([b] = [0%N])) as [E | _]; [inversion E; lia |].
  destruct (decide ([b] = [0xe0%N])) as [E | _]; [inversion E; lia |].
  unfold keys_getitem. rewrite (keys_printable b Hb). reflexivity.
Qed.

Lemma read_key_printable_witness :
  read_key {| heap := []; stdout := []; stdin := [65%N; 13%N] |} =
    ({| heap := []; stdout := []; stdin := [13%N] |}, Ok "A").
Proof.
  apply (read_key_printable 65 {| heap := []; stdout := []; stdin := [65%N; 13%N] |} [13%N]).
  - lia.
  - reflexivity.
Defined.

(** ** What a call may change *)

Section Footprint.
Context {S : Type} (R : S -> S -> Prop).
Hypothesis R_refl : forall s, R s s.
Hypothesis R_trans : forall a b c, R a b -> R b c -> R a c.

Lemma respects_ret {A : Type} (a : A) : respects R (ret a).
Proof using R_refl. intros s. apply R_refl. Qed.

Lemma respects_raise {A : Type} (e : exn) : respects R (@raise S A e).
Proof using R_refl. intros s. apply R_refl. Qed.

Lemma respects_of_outcome {A : Type} (r : outcome A) : respects R (of_outcome r).
Proof using R_refl. intros s. apply R_refl. Qed.

Lemma respects_bind {A B : Type} (m : M S A) (k : A -> M S B) :
  respects R m -> (forall a, respects R (k a)) -> respects R (bind m k).
Proof using R_trans.
  intros Hm Hk s. unfold bind. specialize (Hm s).
  destruct (m s) as [s' [a | e |]]; cbn in *; [| assumption | assumption].
  eapply R_trans; [exact Hm | apply Hk].
Qed.

Lemma respects_when (b : bool) (m : M S unit) : respects R m -> respects R (when b m).
Proof using R_refl. intros Hm. destruct b; [exact Hm | apply respects_ret]. Qed.

Lemma respects_for_each {A : Type} (l : list A) (body : A -> M S unit) :
  (forall a, respects R (body a)) -> respects R (for_each l body).
Proof using R_refl R_trans.
  intros Hb. induction l as [| a l IH]; cbn.
  - apply respects_ret.
  - apply respects_bind; [apply Hb | intros _; exact IH].
Qed.
End Footprint.

Lemma grows_refl w : grows w w.
Proof. exists []. by rewrite app_nil_r. Qed.

Lemma grows_trans a b c : grows a b -> grows b c -> grows a c.
Proof. intros [e1 H1] [e2 H2]. exists (e1 ++ e2). by rewrite H2, H1, app_assoc. Qed.

Lemma draws_refl w : draws w w.
Proof. repeat split. apply grows_refl. Qed.

Lemma draws_trans a b c : draws a b -> draws b c -> draws a c.
Proof.
  intros (H1 & H2 & H3) (H4 & H5 & H6).
  repeat split; [congruence | congruence | by eapply grows_trans].
Qed.

Lemma draws_grows a b : draws a b -> grows a b.
Proof. by intros (_ & _ & H). Qed.

Create HintDb footprint.
#[local] Hint Resolve grows_refl grows_trans draws_refl draws_trans : footprint.

Lemma draws_deref r : respects draws (deref r).
Proof. intros w. unfold deref. destruct (heap w !! r); apply draws_refl. Qed.

Lemma draws_emit e : respects draws (emit e).
Proof. intros w. repeat split. by exists [e]. Qed.

(** Repeated use of the lemmas above on a body built from [bind]; [leaf]
    closes the goals about primitive calls. *)
Ltac footprint_by leaf :=
  repeat first
    [ apply respects_ret; eauto with footprint
    | apply respects_raise; eauto with footprint
    | apply respects_of_outcome; eauto with footprint
    | leaf
    | apply respects_bind; [eauto with footprint | | intros ]
    | apply respects_when; [eauto with footprint | ]
    | apply respects_for_each; [eauto with footprint | eauto with footprint | intros ]
    | match goal with
      | |- respects _ (if ?b then _ else _) => destruct b
      | |- respects _ (match ?o with _ => _ end) => destruct o
      end ].

Ltac footprint := footprint_by ltac:(first [apply draws_deref | apply draws_emit]).

Lemma draws_print_pos t px py fore back : respects draws (print_pos t px py fore back).
Proof. unfold print_pos. footprint. Qed.

Lemma draws_GUIElement_update self t : respects draws (GUIElement_update self t).
Proof. unfold GUIElement_update. footprint. Qed.

Lemma draws_update self : respects draws (update self).
Proof.
  unfold update, GUICounter_update, GUIHiddenList_update, counter_at.
  footprint; try apply draws_GUIElement_update.
Qed.

Lemma draws_clear self : respects draws (clear self).
Proof.
  unfold clear, GUIHiddenList_clear, GUICounter_clear, GUIElement_clear, counter_at, cleanup.
  footprint; try apply draws_print_pos.
Qed.

(** ** Reading and writing the heap *)

Lemma xint_eqb_eq (a b : xint) : xint_eqb a b = true <-> a = b.
Proof.
  destruct a, b; cbn; try (split; [discriminate | discriminate]); try tauto.
  rewrite Z.eqb_eq. split; [intros -> | intros [= ->]]; reflexivity.
Qed.

Lemma xint_eqb_neq (a b : xint) : xint_eqb a b = false <-> a <> b.
Proof.
  rewrite <- xint_eqb_eq. destruct (xint_eqb a b); split; congruence.
Qed.

Lemma deref_Some w r o : heap w !! r = Some o -> deref r w = (w, Ok o).
Proof. intros H. unfold deref. by rewrite H. Qed.

Lemma modify_Some w r f o :
  heap w !! r = Some o ->
  modify r f w =
    ({| heap := <[r := f o]> (heap w); stdout := stdout w; stdin := stdin w |}, Ok tt).
Proof. intros H. unfold modify, bind, store. by rewrite (deref_Some _ _ _ H). Qed.

Lemma lookup_insert_same (l : list widget) (r : ref) (o o' : widget) :
  l !! r = Some o -> <[r := o']> l !! r = Some o'.
Proof. intros H. apply list_lookup_insert_eq. by eapply lookup_lt_Some. Qed.

Lemma update_heap self w : heap (fst (update self w)) = heap w.
Proof. apply (draws_update self w). Qed.

Lemma counter_of_map_counter f o c :
  counter_of o = Some c -> counter_of (map_counter f o) = Some (f c).
Proof. destruct o; cbn; intros [= <-]; reflexivity. Qed.

Lemma map_counter_const f o c :
  counter_of o = Some c -> map_counter f o = map_counter (fun _ => f c) o.
Proof. destruct o; cbn; intros [= <-]; reflexivity. Qed.

Lemma map_counter_id o c : counter_of o = Some c -> map_counter (fun _ => c) o = o.
Proof.
  destruct o as [e | c' | h]; cbn; intros [= <-]; [reflexivity |].
  by destruct h.
Qed.

(** A step of the shape [change ;; self.update()] on the object at [self]. *)
Lemma modify_then_update w self o f :
  heap w !! self = Some o ->
  heap (fst ((modify self f ;; update self) w)) !! self = Some (f o).
Proof.
  intros Ho. unfold bind at 1. rewrite (modify_Some _ _ _ _ Ho).
  rewrite update_heap. cbn. by rewrite (lookup_insert_same _ _ _ _ Ho).
Qed.

Lemma skip_then_update w self : heap (fst ((ret tt ;; update self) w)) = heap w.
Proof. apply update_heap. Qed.

Lemma counter_at_Some w r o c :
  heap w !! r = Some o -> counter_of o = Some c -> counter_at r w = (w, Ok c).
Proof.
  unfold counter_at, bind. intros Ho Hc. by rewrite (deref_Some _ _ _ Ho), Hc.
Qed.

(** Closes the three branches of a counter method, where [c] is the counter
    part of the object [o] found at [self]. *)
Ltac counter_branches Ho Hc :=
  unfold set_count, set_aux_count;
  repeat match goal with
         | |- context [if ?b then _ else _] => destruct b
         end;
  first
    [ rewrite (modify_then_update _ _ _ _ Ho); f_equal;
      rewrite (map_counter_const _ _ _ Hc); reflexivity
    | rewrite skip_then_update, Ho; f_equal;
      symmetry; apply (map_counter_id _ _ Hc) ].

(** ** GUICounter: increase and decrease *)

Lemma GUICounter_increase_object w self o c :
  heap w !! self = Some o -> counter_of o = Some c ->
  heap (fst (GUICounter_increase self w)) !! self =
    Some (map_counter (fun _ =>
            if negb (xint_eqb (count c) (snd (bounds c)))
            then with_count (xint_add (count c) 1) c
            else if wrap_bounds c then with_count (fst (bounds c)) c
            else c) o).
Proof.
  intros Ho Hc. unfold GUICounter_increase, bind at 1.
  rewrite (counter_at_Some _ _ _ _ Ho Hc). counter_branches Ho Hc.
Qed.

Lemma GUICounter_decrease_object w self o c :
  heap w !! self = Some o -> counter_of o = Some c ->
  heap (fst (GUICounter_decrease self w)) !! self =
    Some (map_counter (fun _ =>
            if negb (xint_eqb (count c) (fst (bounds c)))
            then with_count (xint_add (count c) (-1)) c
            else if wrap_bounds c then with_count (snd (bounds c)) c
            else c) o).
Proof.
  intros Ho Hc. unfold GUICounter_decrease, bind at 1.
  rewrite (counter_at_Some _ _ _ _ Ho Hc). counter_branches Ho Hc.
Qed.

Lemma call_on_counter w self c op :
  heap w !! self = Some (WCounter c) ->
  call self op w =
    match op with
    | Increase => GUICounter_increase self w
    | Decrease => GUICounter_decrease self w
    end.
Proof.
  intros H. destruct op; cbn; unfold increase, decrease, bind;
    by rewrite (deref_Some _ _ _ H).
Qed.

(** One call keeps a value that is within finite bounds within them. *)
Lemma call_in_bounds w self c op lo hi v :
  heap w !! self = Some (WCounter c) ->
  bounds c = (Fin lo, Fin hi) -> count c = Fin v -> lo <= v <= hi ->
  exists c' v',
    heap (fst (call self op w)) !! self = Some (WCounter c') /\
    bounds c' = (Fin lo, Fin hi) /\ count c' = Fin v' /\ lo <= v' <= hi.
Proof.
  intros H Hb Hc Hv. rewrite (call_on_counter _ _ _ _ H).
  destruct op.
  - rewrite (GUICounter_increase_object _ _ _ c H eq_refl), Hb, Hc. cbn.
    destruct (Z.eqb_spec v hi); cbn; [destruct (wrap_bounds c) |];
      eexists; eexists; (split; [reflexivity |]); cbn;
      (split; [assumption |]); (split; [first [reflexivity | eassumption] |]); lia.
  - rewrite (GUICounter_decrease_object _ _ _ c H eq_refl), Hb, Hc. cbn.
    destruct (Z.eqb_spec v lo); cbn; [destruct (wrap_bounds c) |];
      eexists; eexists; (split; [reflexivity |]); cbn;
      (split; [assumption |]); (split; [first [reflexivity | eassumption] |]); lia.
Qed.

(** C1 — A [GUICounter] whose value starts within finite bounds
    [[lo, hi]] keeps its value within them through every sequence of
    [increase()] / [decrease()] calls (also when a call ends in an exception
    raised by the drawing).  At the upper bound, [increase()] gives [lo] when
    [wrap_bounds] is true and leaves [hi] when it is false; [decrease()] is
    symmetric at the lower bound. *)
Theorem GUICounter_stays_within_bounds :
  forall (w : world) (self : ref) (c : GUICounter) (lo hi v : Z),
    heap w !! self = Some (WCounter c) ->
    bounds c = (Fin lo, Fin hi) ->
    count c = Fin v ->
    lo <= v <= hi ->
    (forall ops : list counter_call,
        exists v', count_at (fst (for_each ops (call self) w)) self = Some (Fin v')
                   /\ lo <= v' <= hi)
    /\ (v = hi ->
        count_at (fst (increase self w)) self =
          Some (if wrap_bounds c then Fin lo else Fin hi))
    /\ (v = lo ->
        count_at (fst (decrease self w)) self =
          Some (if wrap_bounds c then Fin hi else Fin lo)).
Proof.
  intros w self c lo hi v H Hb Hc Hv.
  split; [| split].
  - intros ops. revert w c v H Hb Hc Hv.
    induction ops as [| op ops IH]; intros w c v H Hb Hc Hv.
    + exists v. cbn. unfold count_at, counter_in. rewrite H. cbn. by rewrite Hc.
    + destruct (call_in_bounds w self c op lo hi v H Hb Hc Hv)
        as (c' & v' & H' & Hb' & Hc' & Hv').
      cbn. unfold bind.
      destruct (call self op w) as [w' [[] | e |]] eqn:E; cbn in H'.
      * by apply (IH w' c' v').
      * exists v'. cbn. unfold count_at, counter_in. rewrite H'. cbn. by rewrite Hc'.
      * exists v'. cbn. unfold count_at, counter_in. rewrite H'. cbn. by rewrite Hc'.
  - intros ->. change (increase self w) with (call self Increase w).
    rewrite (call_on_counter _ _ _ _ H). unfold count_at, counter_in.
    rewrite (GUICounter_increase_object _ _ _ c H eq_refl), Hb, Hc. cbn.
    rewrite Z.eqb_refl. cbn. by destruct (wrap_bounds c); cbn; [| rewrite Hc].
  - intros ->. change (decrease self w) with (call self Decrease w).
    rewrite (call_on_counter _ _ _ _ H). unfold count_at, counter_in.
    rewrite (GUICounter_decrease_object _ _ _ c H eq_refl), Hb, Hc. cbn.
    rewrite Z.eqb_refl. cbn. by destruct (wrap_bounds c); cbn; [| rewrite Hc].
Qed.

Lemma GUICounter_stays_within_bounds_witness :
  let w := world_of [WCounter (counter_example 2 (Fin 0, Fin 2) true)] [] in
  (forall ops : list counter_call,
      exists v', count_at (fst (for_each ops (call 0%nat) w)) 0%nat = Some (Fin v')
                 /\ 0 <= v' <= 2)
  /\ (2 = 2 -> count_at (fst (increase 0%nat w)) 0%nat = Some (Fin 0))
  /\ (2 = 0 -> count_at (fst (decrease 0%nat w)) 0%nat = Some (Fin 2)).
Proof.
  apply (GUICounter_stays_within_bounds
           (world_of [WCounter (counter_example 2 (Fin 0, Fin 2) true)] []) 0%nat
           (counter_example 2 (Fin 0, Fin 2) true) 0 2 2).
  - reflexivity.
  - reflexivity.
  - reflexivity.
  - lia.
Defined.

(** ** GUICounter: the auxiliary counter *)

Lemma aux_increase_object w self o c :
  heap w !! self = Some o -> counter_of o = Some c ->
  heap (fst (aux_increase self w)) !! self =
    Some (map_counter (fun _ =>
            if negb (xint_eqb (count c) (snd (aux_bounds c)))
            then with_aux_count (xint_add (aux_count c) 1) c
            else if wrap_bounds c then with_count (fst (aux_bounds c)) c
            else c) o).
Proof.
  intros Ho Hc. unfold aux_increase, bind at 1.
  rewrite (counter_at_Some _ _ _ _ Ho Hc). counter_branches Ho Hc.
Qed.

Lemma aux_decrease_object w self o c :
  heap w !! self = Some o -> counter_of o = Some c ->
  heap (fst (aux_decrease self w)) !! self =
    Some (map_counter (fun _ =>
            if negb (xint_eqb (count c) (fst (aux_bounds c)))
            then with_aux_count (xint_add (aux_count c) (-1)) c
            else if wrap_bounds c then with_count (snd (aux_bounds c)) c
            else c) o).
Proof.
  intros Ho Hc. unfold aux_decrease, bind at 1.
  rewrite (counter_at_Some _ _ _ _ Ho Hc). counter_branches Ho Hc.
Qed.

Lemma counter_in_inv w r c :
  counter_in w r = Some c -> exists o, heap w !! r = Some o /\ counter_of o = Some c.
Proof.
  unfold counter_in. destruct (heap w !! r) as [o |]; cbn; [| discriminate].
  intros H. by exists o.
Qed.

(** C2 — [aux_increase()] compares the main value [count] (not [aux_count])
    with the upper auxiliary bound.  When they differ, [aux_count] grows by 1
    (an integer [a] becomes [a + 1]) and [count], like every other field, is
    as it was.  When they are equal and [wrap_bounds] is true, the lower
    auxiliary bound is assigned to [count] and [aux_count] is as it was; when
    they are equal and [wrap_bounds] is false, the counter is as it was.
    [aux_decrease()] does the same with the two auxiliary bounds exchanged
    and [aux_count] reduced by 1.  (This is the state the call ends in, also
    when the drawing that follows raises.) *)
Theorem aux_methods_test_and_wrap_count :
  forall (w : world) (self : ref) (c : GUICounter),
    counter_in w self = Some c ->
    let up := fst (aux_increase self w) in
    let down := fst (aux_decrease self w) in
    (count c <> snd (aux_bounds c) ->
       counter_in up self = Some (with_aux_count (xint_add (aux_count c) 1) c)
       /\ aux_count_at up self = Some (xint_add (aux_count c) 1)
       /\ (forall a, aux_count c = Fin a -> aux_count_at up self = Some (Fin (a + 1)))
       /\ count_at up self = Some (count c))
    /\ (count c = snd (aux_bounds c) -> wrap_bounds c = true ->
       counter_in up self = Some (with_count (fst (aux_bounds c)) c)
       /\ count_at up self = Some (fst (aux_bounds c))
       /\ aux_count_at up self = Some (aux_count c))
    /\ (count c = snd (aux_bounds c) -> wrap_bounds c = false ->
       counter_in up self = Some c)
    /\ (count c <> fst (aux_bounds c) ->
       counter_in down self = Some (with_aux_count (xint_add (aux_count c) (-1)) c)
       /\ aux_count_at down self = Some (xint_add (aux_count c) (-1))
       /\ (forall a, aux_count c = Fin a -> aux_count_at down self = Some (Fin (a - 1)))
       /\ count_at down self = Some (count c))
    /\ (count c = fst (aux_bounds c) -> wrap_bounds c = true ->
       counter_in down self = Some (with_count (snd (aux_bounds c)) c)
       /\ count_at down self = Some (snd (aux_bounds c))
       /\ aux_count_at down self = Some (aux_count c))
    /\ (count c = fst (aux_bounds c) -> wrap_bounds c = false ->
       counter_in down self = Some c).
Proof.
  intros w self c Hin up down.
  destruct (counter_in_inv _ _ _ Hin) as (o & Ho & Hc).
  assert (Hup : counter_in up self
                = Some (if negb (xint_eqb (count c) (snd (aux_bounds c)))
                        then with_aux_count (xint_add (aux_count c) 1) c
                        else if wrap_bounds c then with_count (fst (aux_bounds c)) c
                        else c)).
  { unfold counter_in, up. rewrite (aux_increase_object _ _ _ _ Ho Hc). cbn.
    by apply (counter_of_map_counter (fun _ => _) o c Hc). }
  assert (Hdown : counter_in down self
                  = Some (if negb (xint_eqb (count c) (fst (aux_bounds c)))
                          then with_aux_count (xint_add (aux_count c) (-1)) c
                          else if wrap_bounds c then with_count (snd (aux_bounds c)) c
                          else c)).
  { unfold counter_in, down. rewrite (aux_decrease_object _ _ _ _ Ho Hc). cbn.
    by apply (counter_of_map_counter (fun _ => _) o c Hc). }
  unfold count_at, aux_count_at. rewrite Hup, Hdown.
  split; [| split; [| split; [| split; [| split]]]].
  - intros Hne. apply xint_eqb_neq in Hne. rewrite Hne. cbn.
    split; [reflexivity | split; [reflexivity | split; [| reflexivity]]].
    intros a Ha. rewrite Ha. reflexivity.
  - intros Heq Hw. apply xint_eqb_eq in Heq. rewrite Heq, Hw. cbn.
    split; [reflexivity | split; reflexivity].
  - intros Heq Hw. apply xint_eqb_eq in Heq. rewrite Heq, Hw. reflexivity.
  - intros Hne. apply xint_eqb_neq in Hne. rewrite Hne. cbn.
    split; [reflexivity | split; [reflexivity | split; [| reflexivity]]].
    intros a Ha. rewrite Ha. reflexivity.
  - intros Heq Hw. apply xint_eqb_eq in Heq. rewrite Heq, Hw. cbn.
    split; [reflexivity | split; reflexivity].
  - intros Heq Hw. apply xint_eqb_eq in Heq. rewrite Heq, Hw. reflexivity.
Qed.

Lemma aux_methods_test_and_wrap_count_witness :
  let counter_at_value v :=
    GUICounter_init (PNum (Fin 1)) (PNum (Fin 1))
      (PStr Fore_RESET) (PStr Back_GREEN) (PStr Fore_RESET) (PStr Back_RESET)
      (PBool false) (Fin v) (Fin 7) "left" 0 (NegInf, PosInf) (Fin 0, Fin 3) true in
  let at_upper := world_of [WCounter (counter_at_value 3)] [] in
  let at_lower := world_of [WCounter (counter_at_value 0)] [] in
  (count_at at_upper 0%nat = Some (Fin 3) /\ aux_count_at at_upper 0%nat = Some (Fin 7))
  /\ (count_at (fst (aux_increase 0%nat at_upper)) 0%nat = Some (Fin 0)
      /\ aux_count_at (fst (aux_increase 0%nat at_upper)) 0%nat = Some (Fin 7))
  /\ (aux_count_at (fst (aux_decrease 0%nat at_upper)) 0%nat = Some (Fin 6)
      /\ count_at (fst (aux_decrease 0%nat at_upper)) 0%nat = Some (Fin 3))
  /\ (aux_count_at (fst (aux_increase 0%nat at_lower)) 0%nat = Some (Fin 8)
      /\ count_at (fst (aux_increase 0%nat at_lower)) 0%nat = Some (Fin 0))
  /\ (count_at (fst (aux_decrease 0%nat at_lower)) 0%nat = Some (Fin 3)
      /\ aux_count_at (fst (aux_decrease 0%nat at_lower)) 0%nat = Some (Fin 7)).
Proof.
  intros counter_at_value at_upper at_lower.
  destruct (aux_methods_test_and_wrap_count at_upper 0%nat (counter_at_value 3) eq_refl)
    as (_ & Hwrap_up & _ & Hdec & _ & _).
  destruct (aux_methods_test_and_wrap_count at_lower 0%nat (counter_at_value 0) eq_refl)
    as (Hinc & _ & _ & _ & Hwrap_down & _).
  specialize (Hwrap_up eq_refl eq_refl). specialize (Hwrap_down eq_refl eq_refl).
  specialize (Hdec ltac:(discriminate)). specialize (Hinc ltac:(discriminate)).
  destruct Hwrap_up as (_ & Hcount1 & Haux1). destruct Hdec as (_ & _ & Haux2 & Hcount2).
  destruct Hinc as (_ & _ & Haux3 & Hcount3). destruct Hwrap_down as (_ & Hcount4 & Haux4).
  split; [split; reflexivity |]. split; [| split; [| split]].
  - split; [exact Hcount1 | exact Haux1].
  - split; [exact (Haux2 7 eq_refl) | exact Hcount2].
  - split; [exact (Haux3 7 eq_refl) | exact Hcount3].
  - split; [exact Hcount4 | exact Haux4].
Defined.

(** ** GUIHiddenList *)

(** C4 (as the code has it) — For [items = ["a", "b", "c"]] and a list that
    starts at index 0: with [wrap = True], the first [decrease()] reaches
    [current == "c"], the second ["b"], and the third is back at ["a"];
    with [wrap = False], [decrease()] at index 0 leaves [current == "a"]. *)
Theorem hidden_list_abc_decrease :
  forall (px py sf sb uf ub sl : pyval) (mw : option Z),
    let start wr :=
      world_with (GUIHiddenList_init ["a"; "b"; "c"] px py sf sb uf ub sl mw wr) in
    let after k wr :=
      current_at (fst (for_each (replicate k Decrease) (call 0%nat) (start wr))) 0%nat in
    after 0%nat true = Ok "a" /\
    after 1%nat true = Ok "c" /\
    after 2%nat true = Ok "b" /\
    after 3%nat true = Ok "a" /\
    after 0%nat false = Ok "a" /\
    after 1%nat false = Ok "a".
Proof.
  intros. subst start after. repeat split; vm_compute; reflexivity.
Qed.

(** C4 as stated fails: three consecutive [decrease()] calls from index 0
    with [wrap = True] end at ["a"], not at ["c"]. *)
Lemma hidden_list_abc_three_decreases_not_c :
  current_at
    (fst (for_each [Decrease; Decrease; Decrease] (call 0%nat)
            (world_with (hidden_list_example ["a"; "b"; "c"] true)))) 0%nat
  <> Ok "c".
Proof. vm_compute. discriminate. Qed.

Lemma GUIHiddenList_current_defined h z :
  items h <> [] -> count (as_counter h) = Fin z ->
  exists s,
    GUIHiddenList_current h = Ok s /\
    items h !! Z.to_nat (z mod Z.of_nat (length (items h))) = Some s.
Proof.
  intros Hne Hz. unfold GUIHiddenList_current. rewrite Hz.
  destruct (items h) as [| i l] eqn:E; [done |].
  set (n := Z.of_nat (length (i :: l))).
  assert (Hn : 0 < n) by (subst n; cbn [length]; lia).
  pose proof (Z.mod_pos_bound z n Hn) as Hm.
  unfold py_index. fold n.
  destruct (Z.leb_spec 0 (z mod n)); [| lia].
  destruct (Z.ltb_spec (z mod n) n); [| lia]. cbn [andb].
  destruct (lookup_lt_is_Some_2 (i :: l) (Z.to_nat (z mod n))) as [s Hs].
  { subst n. lia. }
  exists s. by rewrite Hs.
Qed.

(** Drawing a hidden list whose [current] is defined returns. *)
Lemma update_hidden_list w self h z :
  heap w !! self = Some (WHiddenList h) ->
  items h <> [] -> count (as_counter h) = Fin z ->
  exists w', update self w = (w', Ok tt) /\ heap w' = heap w.
Proof.
  intros Ho Hne Hz.
  destruct (GUIHiddenList_current_defined h z Hne Hz) as (s & Hs & _).
  unfold update, bind. rewrite (deref_Some _ _ _ Ho).
  unfold GUIHiddenList_update, bind. rewrite (deref_Some _ _ _ Ho).
  unfold of_outcome. rewrite Hs.
  unfold GUIElement_update, bind. rewrite (deref_Some _ _ _ Ho).
  eexists. split; reflexivity.
Qed.

Lemma call_on_hidden_list w self h z op :
  heap w !! self = Some (WHiddenList h) ->
  items h <> [] -> count (as_counter h) = Fin z ->
  exists w' h',
    call self op w = (w', Ok tt) /\
    heap w' !! self = Some (WHiddenList h') /\
    items h' = items h /\ wrap h' = wrap h /\
    count (as_counter h') = Fin (hidden_list_step h op z).
Proof.
  intros Ho Hne Hz.
  assert (Hmod : forall n,
             exists w' h',
               (set_count self (Fin n) ;; update self) w = (w', Ok tt) /\
               heap w' !! self = Some (WHiddenList h') /\
               items h' = items h /\ wrap h' = wrap h /\
               count (as_counter h') = Fin n).
  { intros n. unfold set_count, bind at 1. rewrite (modify_Some _ _ _ _ Ho).
    set (w1 := {| heap := _ |}).
    assert (H1 : heap w1 !! self = Some (WHiddenList (with_counter (with_count (Fin n)) h)))
      by (subst w1; cbn; by rewrite (lookup_insert_same _ _ _ _ Ho)).
    destruct (update_hidden_list w1 self _ n H1 Hne eq_refl) as (w' & Hu & Hh).
    exists w', (with_counter (with_count (Fin n)) h).
    rewrite Hu, Hh. by repeat split. }
  assert (Hskip : exists w' h',
             (ret tt ;; update self) w = (w', Ok tt) /\
             heap w' !! self = Some (WHiddenList h') /\
             items h' = items h /\ wrap h' = wrap h /\
             count (as_counter h') = Fin z).
  { destruct (update_hidden_list w self h z Ho Hne Hz) as (w' & Hu & Hh).
    exists w', h. unfold bind, ret. rewrite Hu, Hh. by repeat split. }
  destruct op; cbn [call hidden_list_step];
    unfold increase, decrease, bind at 1; rewrite (deref_Some _ _ _ Ho);
    unfold GUIHiddenList_increase, GUIHiddenList_decrease, bind at 1;
    rewrite (deref_Some _ _ _ Ho), Hz; cbn [xint_eqb xint_add]; unfold when;
    repeat match goal with |- context [if ?b then _ else _] => destruct b end;
    first [apply Hmod | apply Hskip].
Qed.

(** Through any sequence of calls the hidden list stays a hidden list with
    the same items and an integer count, and every call returns. *)
Lemma calls_on_hidden_list ops : forall w self h z,
  heap w !! self = Some (WHiddenList h) ->
  items h <> [] -> count (as_counter h) = Fin z ->
  exists w' h',
    for_each ops (call self) w = (w', Ok tt) /\
    heap w' !! self = Some (WHiddenList h') /\
    items h' = items h /\ wrap h' = wrap h /\
    count (as_counter h') = Fin (foldl (fun a op => hidden_list_step h op a) z ops).
Proof.
  induction ops as [| op ops IH]; intros w self h z Ho Hne Hz.
  - exists w, h. by repeat split.
  - destruct (call_on_hidden_list w self h z op Ho Hne Hz)
      as (w1 & h1 & Hcall & Ho1 & Hi1 & Hw1 & Hz1).
    destruct (IH w1 self h1 _ Ho1 ltac:(by rewrite Hi1) Hz1)
      as (w2 & h2 & Hrun & Ho2 & Hi2 & Hw2 & Hz2).
    exists w2, h2. cbn [for_each foldl]. unfold bind. rewrite Hcall, Hrun.
    repeat split; [assumption | congruence | congruence |].
    rewrite Hz2. f_equal. clear -Hi1 Hw1.
    generalize (hidden_list_step h op z). induction ops as [| o l IHl]; intros a; [done |].
    cbn [foldl]. rewrite <- IHl. f_equal.
    unfold hidden_list_step. by rewrite Hi1, Hw1.
Qed.

Lemma decreases_with_wrap h (k : nat) z :
  wrap h = true ->
  foldl (fun a op => hidden_list_step h op a) z (replicate k Decrease) = z - Z.of_nat k.
Proof.
  intros Hw. revert z. induction k as [| k IH]; intros z; cbn [replicate foldl].
  - lia.
  - rewrite IH. unfold hidden_list_step. rewrite Hw. destruct (z =? 0); lia.
Qed.

(** C10 — For a [GUIHiddenList] with [wrap = True] the count is not kept in
    [[0, len(items))]: [increase()] at the last index sets it to
    [len(items)], and [k] calls of [decrease()] take it from [z] to [z - k],
    below any bound.  Still, after every sequence of [increase()] /
    [decrease()] calls (each of which returns), [current] is defined and is
    [items[count mod len(items)]]. *)
Theorem hidden_list_count_is_unconfined :
  forall (w : world) (self : ref) (h : GUIHiddenList) (z : Z),
    heap w !! self = Some (WHiddenList h) ->
    items h <> [] ->
    count (as_counter h) = Fin z ->
    wrap h = true ->
    let n := Z.of_nat (length (items h)) in
    (z = n - 1 -> count_at (fst (increase self w)) self = Some (Fin n))
    /\ (forall k : nat,
          count_at (fst (for_each (replicate k Decrease) (call self) w)) self =
            Some (Fin (z - Z.of_nat k)))
    /\ (forall ops : list counter_call,
          exists w' z' s,
            for_each ops (call self) w = (w', Ok tt) /\
            count_at w' self = Some (Fin z') /\
            current_at w' self = Ok s /\
            items h !! Z.to_nat (z' mod n) = Some s).
Proof.
  intros w self h z Ho Hne Hz Hw n.
  split; [| split].
  - intros ->.
    destruct (call_on_hidden_list w self h _ Increase Ho Hne Hz)
      as (w1 & h1 & Hcall & Ho1 & _ & _ & Hz1).
    cbn [call] in Hcall. rewrite Hcall. unfold count_at, counter_in. cbn [fst].
    rewrite Ho1. cbn. rewrite Hz1. unfold hidden_list_step. fold n.
    rewrite Z.eqb_refl, Hw. do 2 f_equal. lia.
  - intros k.
    destruct (calls_on_hidden_list (replicate k Decrease) w self h z Ho Hne Hz)
      as (w1 & h1 & Hrun & Ho1 & _ & _ & Hz1).
    rewrite Hrun. unfold count_at, counter_in. cbn [fst]. rewrite Ho1. cbn.
    by rewrite Hz1, (decreases_with_wrap h k z Hw).
  - intros ops.
    destruct (calls_on_hidden_list ops w self h z Ho Hne Hz)
      as (w1 & h1 & Hrun & Ho1 & Hi1 & _ & Hz1).
    destruct (GUIHiddenList_current_defined h1 _ ltac:(by rewrite Hi1) Hz1)
      as (s & Hs & Hlook).
    exists w1, (foldl (fun a op => hidden_list_step h op a) z ops), s.
    split; [exact Hrun |]. split; [| split].
    + unfold count_at, counter_in. rewrite Ho1. cbn. by rewrite Hz1.
    + unfold current_at. by rewrite Ho1.
    + subst n. by rewrite <- Hi1.
Qed.

Lemma hidden_list_count_is_unconfined_witness :
  let w := world_of [WHiddenList (abc_at 2 true)] [] in
  count_at (fst (increase 0%nat w)) 0%nat = Some (Fin 3)
  /\ count_at (fst (for_each (replicate 5 Decrease) (call 0%nat) w)) 0%nat = Some (Fin (-3))
  /\ (exists w' z' s,
        for_each [Increase; Decrease; Decrease; Decrease] (call 0%nat) w = (w', Ok tt) /\
        count_at w' 0%nat = Some (Fin z') /\
        current_at w' 0%nat = Ok s /\
        ["a"; "b"; "c"] !! Z.to_nat (z' mod 3) = Some s).
Proof.
  intros w.
  destruct (hidden_list_count_is_unconfined w 0%nat (abc_at 2 true) 2)
    as (Hlast & Hdown & Hcurrent).
  - reflexivity.
  - discriminate.
  - reflexivity.
  - reflexivity.
  - split; [apply Hlast; reflexivity | split].
    + apply (Hdown 5%nat).
    + apply (Hcurrent [Increase; Decrease; Decrease; Decrease]).
Defined.

(** ** ElementList: navigation *)

Lemma keeps_list_refl (s : lstate) : keeps_list s s.
Proof. reflexivity. Qed.

Lemma keeps_list_trans (a b c : lstate) : keeps_list a b -> keeps_list b c -> keeps_list a c.
Proof. unfold keeps_list. congruence. Qed.

#[local] Hint Resolve keeps_list_refl keeps_list_trans : footprint.

Lemma keeps_list_lift {A : Type} (m : M world A) : respects keeps_list (lift m).
Proof. intros [l w]. unfold lift, keeps_list. cbn. by destruct (m w). Qed.

Lemma keeps_list_get_self : respects keeps_list get_self.
Proof. intros s. reflexivity. Qed.

Lemma keeps_list_select_current :
  respects keeps_list (let* current := ElementList_current in lift (select current)).
Proof.
  unfold ElementList_current.
  footprint; first [apply keeps_list_get_self | apply keeps_list_lift].
Qed.

(** C6 — On an [ElementList] of length [n >= 1], whatever the current index
    and whatever the flag [wrap], [move_left()] sets the index to
    [(index - 1) mod n] and [move_right()] to [(index + 1) mod n] (also when
    the selection that follows raises). *)
Theorem move_wraps_modulo_length :
  forall (l : ElementList) (w : world),
    elems l <> [] ->
    let n := Z.of_nat (length (elems l)) in
    _current_index (fst (fst (move_left (l, w)))) = (_current_index l - 1) mod n
    /\ _current_index (fst (fst (move_right (l, w)))) = (_current_index l + 1) mod n.
Proof.
  intros l w Hne n. subst n.
  pose proof keeps_list_select_current as Hkeep. unfold respects, keeps_list in Hkeep.
  split.
  - unfold move_left. unfold bind at 1. unfold get_self at 1.
    unfold bind at 1. unfold mod_len at 1. unfold bind at 1. unfold get_self at 1.
    cbn [fst]. destruct (elems l) as [| r rest] eqn:E; [done |].
    unfold ret at 1. unfold bind at 1. unfold set_current_index at 1.
    cbn [fst snd]. rewrite Hkeep. reflexivity.
  - unfold move_right. unfold bind at 1. unfold get_self at 1.
    unfold bind at 1. unfold mod_len at 1. unfold bind at 1. unfold get_self at 1.
    cbn [fst]. destruct (elems l) as [| r rest] eqn:E; [done |].
    unfold ret at 1. unfold bind at 1. unfold set_current_index at 1.
    cbn [fst snd]. rewrite Hkeep. reflexivity.
Qed.

Lemma move_wraps_modulo_length_witness :
  let l := {| elems := [0%nat; 1%nat; 2%nat; 3%nat]; el_wrap := false; _current_index := 0 |} in
  let w := world_of (WCounter <$> [counter_example 0 (NegInf, PosInf) true;
                                   counter_example 1 (NegInf, PosInf) true;
                                   counter_example 2 (NegInf, PosInf) true;
                                   counter_example 3 (NegInf, PosInf) true]) [] in
  _current_index (fst (fst (move_left (l, w)))) = 3
  /\ _current_index (fst (fst (move_right (l, w)))) = 1.
Proof.
  intros l w. apply (move_wraps_modulo_length l w). discriminate.
Defined.

(** ** Exclusive selection *)

Lemma drawable_map_element f o : drawable o -> drawable (map_element f o).
Proof. destruct o; cbn; auto. Qed.

(** Drawing an object that can be drawn returns and changes no object. *)
Lemma update_drawable w self o :
  heap w !! self = Some o -> drawable o ->
  exists w', update self w = (w', Ok tt) /\ heap w' = heap w.
Proof.
  intros Ho Hd. destruct o as [e | c | h].
  - unfold update, bind. rewrite (deref_Some _ _ _ Ho).
    unfold GUIElement_update, bind. rewrite (deref_Some _ _ _ Ho).
    eexists. split; reflexivity.
  - unfold update, bind. rewrite (deref_Some _ _ _ Ho).
    unfold GUICounter_update, bind. rewrite (counter_at_Some _ _ _ c Ho eq_refl).
    destruct Hd as [-> | ->]; cbn [String.eqb Ascii.eqb Bool.eqb andb];
      unfold GUIElement_update, bind; rewrite (deref_Some _ _ _ Ho);
      eexists; split; reflexivity.
  - destruct Hd as (Hne & z & Hz). by apply (update_hidden_list w self h z).
Qed.

Lemma selected_at_insert_ne (w : world) (r m : ref) (o : widget) out inp :
  r <> m ->
  selected_at {| heap := <[r := o]> (heap w); stdout := out; stdin := inp |} m
  = selected_at w m.
Proof. intros Hne. unfold selected_at. cbn. by rewrite list_lookup_insert_ne. Qed.

Lemma drawable_at_insert (w : world) (r m : ref) (o o' : widget) out inp :
  heap w !! r = Some o -> drawable o' ->
  drawable_at w m ->
  drawable_at {| heap := <[r := o']> (heap w); stdout := out; stdin := inp |} m.
Proof.
  intros Ho Hd (om & Hm & Hdm). unfold drawable_at. cbn.
  destruct (decide (r = m)) as [<- | Hne].
  - exists o'. by rewrite (lookup_insert_same _ _ _ _ Ho).
  - exists om. by rewrite list_lookup_insert_ne.
Qed.

Lemma selected_at_same_heap w w' m : heap w' = heap w -> selected_at w' m = selected_at w m.
Proof. unfold selected_at. by intros ->. Qed.

Lemma drawable_at_same_heap w w' m : heap w' = heap w -> drawable_at w m -> drawable_at w' m.
Proof. unfold drawable_at. by intros ->. Qed.

(** [r.selected = b; r.update()] on an object that can be drawn. *)
Lemma set_selected_then_update w r o b :
  heap w !! r = Some o -> drawable o ->
  exists w',
    (modify r (map_element (with_selected b)) ;; update r) w = (w', Ok tt) /\
    selected_at w' r = Some b /\
    (forall m, r <> m -> selected_at w' m = selected_at w m) /\
    (forall m, drawable_at w m -> drawable_at w' m).
Proof.
  intros Ho Hd. unfold bind at 1. rewrite (modify_Some _ _ _ _ Ho).
  set (o' := map_element (with_selected b) o).
  set (w1 := {| heap := _ |}).
  assert (Ho1 : heap w1 !! r = Some o')
    by (subst w1; cbn; by rewrite (lookup_insert_same _ _ _ _ Ho)).
  assert (Hd' : drawable o') by (by apply drawable_map_element).
  destruct (update_drawable w1 r o' Ho1 Hd') as (w' & Hu & Hh).
  exists w'. split; [exact Hu | split; [| split]].
  - unfold selected_at. rewrite Hh, Ho1. subst o'. by destruct o.
  - intros m Hne. rewrite (selected_at_same_heap _ _ _ Hh).
    by apply selected_at_insert_ne.
  - intros m Hm. apply (drawable_at_same_heap _ _ _ Hh).
    by apply (drawable_at_insert w r m o o').
Qed.

(** The loop of [select]: every element of [l] other than [self] is left
    deselected, and nothing becomes selected. *)
Lemma select_loop self l : forall w,
  (forall m, m ∈ l -> drawable_at w m) ->
  exists w',
    for_each l (fun element =>
      let* oe := deref element in
      when (selected (element_of oe) && negb (element =? self)%nat) (deselect element)) w
      = (w', Ok tt) /\
    (forall m, drawable_at w m -> drawable_at w' m) /\
    (forall m, selected_at w m = Some false -> selected_at w' m = Some false) /\
    (forall m, m ∈ l -> m <> self -> selected_at w' m = Some false).
Proof.
  induction l as [| r l IH]; intros w Hall.
  - exists w. repeat split; try done. intros m Hm. by apply elem_of_nil in Hm.
  - destruct (Hall r ltac:(left)) as (o & Ho & Hd).
    assert (Hstep : exists w1,
               (let* oe := deref r in
                when (selected (element_of oe) && negb (r =? self)%nat) (deselect r)) w
               = (w1, Ok tt) /\
               (forall m, drawable_at w m -> drawable_at w1 m) /\
               (forall m, selected_at w m = Some false -> selected_at w1 m = Some false) /\
               (r <> self -> selected_at w1 r = Some false)).
    { unfold bind at 1. rewrite (deref_Some _ _ _ Ho).
      destruct (selected (element_of o)) eqn:Hsel; cbn [andb];
        [destruct (Nat.eqb_spec r self) as [-> | Hne]; cbn [negb when] | cbn [when]].
      - exists w. by repeat split.
      - destruct (set_selected_then_update w r o false Ho Hd) as (w1 & Hrun & Hr & Hother & Hdr).
        exists w1. unfold deselect. split; [exact Hrun | repeat split; try done].
        intros m Hm. destruct (decide (r = m)) as [<- | Hrm]; [done |].
        by rewrite (Hother m Hrm).
      - exists w. repeat split; try done.
        intros _. unfold selected_at. rewrite Ho. cbn. by rewrite Hsel. }
    destruct Hstep as (w1 & Hrun1 & Hd1 & Hs1 & Hr1).
    destruct (IH w1) as (w2 & Hrun2 & Hd2 & Hs2 & Hl2).
    { intros m Hm. apply Hd1, Hall. by right. }
    exists w2. cbn [for_each]. unfold bind at 1. rewrite Hrun1, Hrun2.
    split; [reflexivity | repeat split].
    + intros m Hm. by apply Hd2, Hd1.
    + intros m Hm. by apply Hs2, Hs1.
    + intros m Hm Hne. apply elem_of_cons in Hm as [-> | Hm].
      * by apply Hs2, Hr1.
      * by apply Hl2.
Qed.

(** C5 — When the widgets of a group all have that group as their
    [exclusive_to], a call of [select()] on a member returns with that member
    selected and every other member deselected, so at most one member of the
    group is selected.  (The widgets are such that drawing them raises
    nothing.) *)
Theorem select_is_exclusive :
  forall (w : world) (group : list ref) (a : ref),
    a ∈ group ->
    (forall m, m ∈ group ->
       exists o, heap w !! m = Some o /\
                 exclusive_to (element_of o) = group /\ drawable o) ->
    exists w',
      select a w = (w', Ok tt) /\
      selected_at w' a = Some true /\
      (forall m, m ∈ group -> m <> a -> selected_at w' m = Some false) /\
      (forall m m', m ∈ group -> m' ∈ group ->
         selected_at w' m = Some true -> selected_at w' m' = Some true -> m = m').
Proof.
  intros w group a Ha Hgroup.
  destruct (Hgroup a Ha) as (oa & Hoa & Hex & Hda).
  unfold select, bind at 1. rewrite (deref_Some _ _ _ Hoa), Hex.
  destruct (select_loop a group w) as (w1 & Hrun1 & Hd1 & _ & Hl1).
  { intros m Hm. destruct (Hgroup m Hm) as (o & Ho & _ & Hd). by exists o. }
  unfold bind at 1. rewrite Hrun1.
  destruct (Hd1 a ltac:(by exists oa)) as (oa1 & Hoa1 & Hda1).
  destruct (set_selected_then_update w1 a oa1 true Hoa1 Hda1)
    as (w2 & Hrun2 & Ha2 & Hother & _).
  exists w2. split; [exact Hrun2 | split; [exact Ha2 |]].
  assert (Hrest : forall m, m ∈ group -> m <> a -> selected_at w2 m = Some false).
  { intros m Hm Hne. rewrite (Hother m ltac:(congruence)). by apply Hl1. }
  split; [exact Hrest |].
  intros m m' Hm Hm' Hs Hs'.
  destruct (decide (m = a)) as [-> | Hne]; destruct (decide (m' = a)) as [-> | Hne'];
    try reflexivity.
  - rewrite (Hrest m' Hm' Hne') in Hs'. discriminate.
  - rewrite (Hrest m Hm Hne) in Hs. discriminate.
  - rewrite (Hrest m Hm Hne) in Hs. discriminate.
Qed.

Lemma select_is_exclusive_witness :
  selected_at three_widgets 1%nat = Some true
  /\ exists w',
       select 0%nat three_widgets = (w', Ok tt) /\
       selected_at w' 0%nat = Some true /\
       selected_at w' 1%nat = Some false /\
       selected_at w' 2%nat = Some false.
Proof.
  split; [reflexivity |].
  destruct (select_is_exclusive three_widgets [0; 1; 2]%nat 0%nat)
    as (w' & Hrun & Ha & Hrest & _).
  - apply elem_of_cons. by left.
  - intros m Hm.
    apply elem_of_cons in Hm as [-> | Hm]; [| apply elem_of_cons in Hm as [-> | Hm]];
      [| | apply elem_of_cons in Hm as [-> | Hm]; [| by apply elem_of_nil in Hm]];
      (eexists; split; [reflexivity | split; [reflexivity | exact I]]).
  - exists w'. split; [exact Hrun | split; [exact Ha | split]].
    + apply Hrest; [| discriminate]. apply elem_of_cons. right. apply elem_of_cons. by left.
    + apply Hrest; [| discriminate].
      apply elem_of_cons. right. apply elem_of_cons. right. apply elem_of_cons. by left.
Defined.

(** ** Running a call *)

Lemma bind_run {S A B : Type} (m : M S A) (k : A -> M S B) s s1 a :
  m s = (s1, Ok a) -> bind m k s = k a s1.
Proof. intros H. unfold bind. by rewrite H. Qed.

Lemma bind_Ok_inv {S A B : Type} (m : M S A) (k : A -> M S B) s s' b :
  bind m k s = (s', Ok b) -> exists s1 a, m s = (s1, Ok a) /\ k a s1 = (s', Ok b).
Proof.
  unfold bind. destruct (m s) as [s1 [a | e |]]; intros H; [| discriminate | discriminate].
  by exists s1, a.
Qed.

Lemma lift_run {A : Type} (m : M world A) l w w' r :
  m w = (w', r) -> lift m (l, w) = ((l, w'), r).
Proof. intros H. unfold lift. cbn. by rewrite H. Qed.

Lemma lift_inv {A : Type} (m : M world A) s s' r :
  lift m s = (s', r) -> fst s' = fst s /\ m (snd s) = (snd s', r).
Proof.
  unfold lift. destruct (m (snd s)) as [w' r'] eqn:E. intros [= <- <-]. by split.
Qed.

Lemma respects_weaken {S A : Type} (R R' : S -> S -> Prop) (m : M S A) :
  (forall a b, R a b -> R' a b) -> respects R m -> respects R' m.
Proof. intros Hsub Hm s. apply Hsub, Hm. Qed.

(** ** Changes of the selection *)

Lemma reselect_same o : map_element (with_selected (selected (element_of o))) o = o.
Proof. destruct o as [[] | [[]] | [[[]]]]; reflexivity. Qed.

Lemma reselect_twice b b' o :
  map_element (with_selected b') (map_element (with_selected b) o)
  = map_element (with_selected b') o.
Proof. destruct o; reflexivity. Qed.

Lemma reselected_refl w : reselected w w.
Proof.
  split; [reflexivity |]. intros r o Ho.
  exists (selected (element_of o)). by rewrite reselect_same.
Qed.

Lemma reselected_trans a b c : reselected a b -> reselected b c -> reselected a c.
Proof.
  intros [Hi1 H1] [Hi2 H2]. split; [congruence |].
  intros r o Ho. destruct (H1 r o Ho) as [b1 Hb1].
  destruct (H2 r _ Hb1) as [b2 Hb2]. exists b2. by rewrite Hb2, reselect_twice.
Qed.

#[local] Hint Resolve reselected_refl reselected_trans : footprint.

Lemma draws_reselected a b : draws a b -> reselected a b.
Proof.
  intros (Hh & Hi & _). split; [exact Hi |]. intros r o Ho.
  exists (selected (element_of o)). by rewrite Hh, reselect_same.
Qed.

Lemma reselected_modify r b : respects reselected (modify r (map_element (with_selected b))).
Proof.
  intros w. unfold modify, bind, deref.
  destruct (heap w !! r) as [o |] eqn:Ho; cbn; [| apply reselected_refl].
  split; [reflexivity |]. intros r' o' Ho'. cbn.
  destruct (decide (r = r')) as [<- | Hne].
  - exists b. rewrite (lookup_insert_same _ _ _ _ Ho).
    rewrite Ho in Ho'. by injection Ho' as ->.
  - exists (selected (element_of o')).
    by rewrite list_lookup_insert_ne, reselect_same.
Qed.

Lemma reselected_update r : respects reselected (update r).
Proof. apply (respects_weaken draws); [apply draws_reselected | apply draws_update]. Qed.

Lemma reselected_deref r : respects reselected (deref r).
Proof. apply (respects_weaken draws); [apply draws_reselected | apply draws_deref]. Qed.

Ltac reselection :=
  footprint_by ltac:(first [apply reselected_deref | apply reselected_modify
                           | apply reselected_update]).

Lemma reselected_deselect r : respects reselected (deselect r).
Proof. unfold deselect. reselection. Qed.

Lemma reselected_select r : respects reselected (select r).
Proof. unfold select. reselection; try apply reselected_deselect. Qed.

Lemma drawable_reselect b o : drawable (map_element (with_selected b) o) <-> drawable o.
Proof. by destruct o. Qed.

Lemma reselected_drawable_at w w' m : reselected w w' -> drawable_at w m -> drawable_at w' m.
Proof.
  intros [_ H] (o & Ho & Hd). destruct (H m o Ho) as [b Hb].
  eexists. split; [exact Hb |]. by apply drawable_reselect.
Qed.

(** [select()] returns when the widget and those of its [exclusive_to] can
    be drawn. *)
Lemma select_returns w a oa :
  heap w !! a = Some oa -> drawable oa ->
  (forall m, m ∈ exclusive_to (element_of oa) -> drawable_at w m) ->
  exists w', select a w = (w', Ok tt).
Proof.
  intros Hoa Hda Hex.
  unfold select. rewrite (bind_run _ _ _ _ _ (deref_Some _ _ _ Hoa)).
  destruct (select_loop a _ w Hex) as (w1 & Hrun1 & Hd1 & _).
  rewrite (bind_run _ _ _ _ _ Hrun1).
  destruct (Hd1 a ltac:(by exists oa)) as (oa1 & Hoa1 & Hda1).
  destruct (set_selected_then_update w1 a oa1 true Hoa1 Hda1) as (w2 & Hrun2 & _).
  by exists w2.
Qed.

(** Drawing every element of a list of widgets that can be drawn. *)
Lemma for_each_update_returns l : forall w,
  (forall m, m ∈ l -> drawable_at w m) ->
  exists w', for_each l update w = (w', Ok tt) /\ draws w w'.
Proof.
  induction l as [| r l IH]; intros w Hall.
  - exists w. split; [reflexivity | apply draws_refl].
  - destruct (Hall r ltac:(left)) as (o & Ho & Hd).
    destruct (update_drawable w r o Ho Hd) as (w1 & Hrun1 & Hh1).
    assert (Hdr1 : draws w w1).
    { pose proof (draws_update r w) as H. by rewrite Hrun1 in H. }
    destruct (IH w1) as (w2 & Hrun2 & Hdr2).
    { intros m Hm. apply (drawable_at_same_heap w); [exact Hh1 | apply Hall; by right]. }
    exists w2. cbn [for_each]. rewrite (bind_run _ _ _ _ _ Hrun1).
    split; [exact Hrun2 | by eapply draws_trans].
Qed.

(** ** The pieces of the key loop *)

Lemma current_run l w r :
  py_index (elems l) (_current_index l) = Some r ->
  ElementList_current (l, w) = ((l, w), Ok r).
Proof. intros H. unfold ElementList_current, bind, get_self. cbn. by rewrite H. Qed.

(** The statements before the loop return when the current widget, the
    widgets of its [exclusive_to] and the elements of the list can be drawn. *)
Lemma prologue_returns l w r o :
  py_index (elems l) (_current_index l) = Some r ->
  heap w !! r = Some o -> drawable o ->
  (forall m, m ∈ exclusive_to (element_of o) -> drawable_at w m) ->
  (forall m, m ∈ elems l -> drawable_at w m) ->
  exists w', prologue (l, w) = ((l, w'), Ok tt) /\ reselected w w'.
Proof.
  intros Hidx Ho Hd Hex Hall.
  set (wa := {| heap := heap w; stdout := stdout w ++ [CallListInit]; stdin := stdin w |}).
  assert (Hinit : init (l, w) = ((l, wa), Ok tt)) by reflexivity.
  destruct (select_returns wa r o Ho Hd Hex) as (wb & Hsel).
  assert (Hab : reselected wa wb).
  { pose proof (reselected_select r wa) as H. by rewrite Hsel in H. }
  destruct (for_each_update_returns (elems l) wb) as (wc & Hdraw & Hbc).
  { intros m Hm. apply (reselected_drawable_at wa); [exact Hab |].
    apply (drawable_at_same_heap w); [reflexivity | by apply Hall]. }
  assert (Hselect : (let* current := ElementList_current in lift (select current)) (l, wa)
                    = ((l, wb), Ok tt)).
  { rewrite (bind_run _ _ _ _ _ (current_run l wa r Hidx)). by apply lift_run. }
  exists wc. split.
  - unfold prologue.
    rewrite (bind_run _ _ _ _ _ Hinit), (bind_run _ _ _ _ _ Hselect).
    unfold bind at 1, get_self. by apply lift_run.
  - apply (reselected_trans _ wa); [by apply draws_reselected; repeat split; exists [CallListInit] |].
    apply (reselected_trans _ wb); [exact Hab | by apply draws_reselected].
Qed.

Lemma keys_up : keys !! [0xe0%N; 72%N] = Some "up".
Proof. vm_compute. reflexivity. Qed.

Lemma keys_enter : keys !! [13%N] = Some "enter".
Proof. vm_compute. reflexivity. Qed.

Lemma read_key_up w rest :
  stdin w = 0xe0%N :: 72%N :: rest ->
  read_key w = ({| heap := heap w; stdout := stdout w; stdin := rest |}, Ok "up").
Proof.
  intros Hin. unfold read_key, bind, getch. rewrite Hin. cbn [stdin].
  destruct (decide ([0xe0%N] = [0%N])) as [E | _]; [discriminate E |].
  destruct (decide ([0xe0%N] = [0xe0%N])) as [_ | E]; [| done].
  unfold keys_getitem. cbn -[keys]. by rewrite keys_up.
Qed.

Lemma read_key_enter w rest :
  stdin w = 13%N :: rest ->
  read_key w = ({| heap := heap w; stdout := stdout w; stdin := rest |}, Ok "enter").
Proof.
  intros Hin. unfold read_key, bind, getch. rewrite Hin.
  destruct (decide ([13%N] = [0%N])) as [E | _]; [discriminate E |].
  destruct (decide ([13%N] = [0xe0%N])) as [E | _]; [discriminate E |].
  unfold keys_getitem. by rewrite keys_enter.
Qed.

(** [increase()] on a counter that is not at its upper bound. *)
Lemma increase_below_bound w r c v :
  heap w !! r = Some (WCounter c) -> drawable (WCounter c) ->
  count c = Fin v -> snd (bounds c) <> Fin v ->
  exists w',
    increase r w = (w', Ok tt) /\
    heap w' = <[r := WCounter (with_count (Fin (v + 1)) c)]> (heap w) /\
    stdin w' = stdin w.
Proof.
  intros Ho Hd Hc Hb.
  assert (Hne : xint_eqb (count c) (snd (bounds c)) = false).
  { apply xint_eqb_neq. congruence. }
  unfold increase. rewrite (bind_run _ _ _ _ _ (deref_Some _ _ _ Ho)).
  unfold GUICounter_increase.
  rewrite (bind_run _ _ _ _ _ (counter_at_Some _ _ _ c Ho eq_refl)).
  rewrite Hne, Hc. cbn [negb xint_add]. unfold set_count.
  rewrite (bind_run _ _ _ _ _ (modify_Some _ _ _ _ Ho)).
  set (w1 := {| heap := _ |}).
  assert (Ho1 : heap w1 !! r = Some (WCounter (with_count (Fin (v + 1)) c)))
    by (subst w1; cbn; by rewrite (lookup_insert_same _ _ _ _ Ho)).
  destruct (update_drawable w1 r _ Ho1 Hd) as (w' & Hrun & Hh).
  exists w'. split; [exact Hrun | split; [exact Hh |]].
  pose proof (draws_update r w1) as (_ & Hin & _). by rewrite Hrun in Hin.
Qed.

(** A pass of the loop on the key "up" when [auto_up_down] is set and the
    current widget is a counter below its upper bound. *)
Lemma loop_body_up g l w r c v rest :
  auto_up_down g = true ->
  py_index (elems l) (_current_index l) = Some r ->
  heap w !! r = Some (WCounter c) -> drawable (WCounter c) ->
  count c = Fin v -> snd (bounds c) <> Fin v ->
  stdin w = 0xe0%N :: 72%N :: rest ->
  exists w',
    loop_body g (l, w) = ((l, w'), Ok (Some "up")) /\
    heap w' = <[r := WCounter (with_count (Fin (v + 1)) c)]> (heap w) /\
    stdin w' = rest.
Proof.
  intros Hud Hidx Ho Hd Hc Hb Hin.
  set (w1 := {| heap := heap w; stdout := stdout w; stdin := rest |}).
  destruct (increase_below_bound w1 r c v Ho Hd Hc Hb) as (w' & Hrun & Hh & Hi).
  exists w'. split; [| by split].
  unfold loop_body.
  rewrite (bind_run _ _ _ _ _ (lift_run _ l _ _ _ (read_key_up w rest Hin))).
  fold w1. rewrite Hud.
  assert (Hlr : (when (auto_left_right g)
                   (if key_in "up" "left" "a" then move_left
                    else if key_in "up" "right" "d" then move_right else ret tt)) (l, w1)
                = ((l, w1), Ok tt)) by (by destruct (auto_left_right g)).
  rewrite (bind_run _ _ _ _ _ Hlr).
  assert (Hup : (when true
                   (if key_in "up" "up" "w"
                    then let* current := ElementList_current in lift (increase current)
                    else if key_in "up" "down" "s"
                         then let* current := ElementList_current in lift (decrease current)
                         else ret tt)) (l, w1)
                = ((l, w'), Ok tt)).
  { cbn [when]. change (key_in "up" "up" "w") with true. cbn iota.
    rewrite (bind_run _ _ _ _ _ (current_run l w1 r Hidx)). by apply lift_run. }
  rewrite (bind_run _ _ _ _ _ Hup).
  change (String.eqb "up" "esc") with false. change (String.eqb "up" "enter") with false.
  rewrite !andb_false_r. reflexivity.
Qed.

(** A pass of the loop on the key "enter" when [auto_enter] is set. *)
Lemma loop_body_enter g l w rest :
  auto_enter g = true ->
  stdin w = 13%N :: rest ->
  loop_body g (l, w) =
    ((l, {| heap := heap w; stdout := stdout w; stdin := rest |}), Ok None).
Proof.
  intros Hent Hin. unfold loop_body.
  rewrite (bind_run _ _ _ _ _ (lift_run _ l _ _ _ (read_key_enter w rest Hin))).
  rewrite Hent.
  change (key_in "enter" "left" "a") with false.
  change (key_in "enter" "right" "d") with false.
  change (key_in "enter" "up" "w") with false.
  change (key_in "enter" "down" "s") with false.
  change (String.eqb "enter" "esc") with false.
  change (String.eqb "enter" "enter") with true.
  rewrite andb_false_r. cbn [andb].
  by destruct (auto_left_right g), (auto_up_down g).
Qed.

(** ** Clearing *)

(** [clear()] on an object of the heap writes blanks at its position and
    calls its hook; nothing else changes. *)
Lemma clear_run w r o :
  heap w !! r = Some o ->
  exists n,
    clear r w =
      ({| heap := heap w;
          stdout := stdout w ++
            [Write (print_pos_text (PStr (repeat_char " " n))
                      (x (element_of o)) (y (element_of o)) Fore_RESET Back_RESET);
             CallCleanup r];
          stdin := stdin w |}, Ok tt).
Proof.
  intros Ho. unfold clear. rewrite (bind_run _ _ _ _ _ (deref_Some _ _ _ Ho)).
  destruct o as [e | c | h].
  - eexists. unfold GUIElement_clear.
    rewrite (bind_run _ _ _ _ _ (deref_Some _ _ _ Ho)).
    unfold bind, print_pos, cleanup, emit. cbn. by rewrite <- app_assoc.
  - eexists. unfold GUICounter_clear.
    rewrite (bind_run _ _ _ _ _ (counter_at_Some _ _ _ c Ho eq_refl)).
    unfold GUIElement_clear. rewrite (bind_run _ _ _ _ _ (deref_Some _ _ _ Ho)).
    unfold bind, print_pos, cleanup, emit. cbn. by rewrite <- app_assoc.
  - eexists. unfold GUIHiddenList_clear.
    rewrite (bind_run _ _ _ _ _ (deref_Some _ _ _ Ho)).
    unfold GUICounter_clear.
    rewrite (bind_run _ _ _ _ _ (counter_at_Some _ _ _ (as_counter h) Ho eq_refl)).
    unfold GUIElement_clear. rewrite (bind_run _ _ _ _ _ (deref_Some _ _ _ Ho)).
    unfold bind, print_pos, cleanup, emit. cbn. by rewrite <- app_assoc.
Qed.

Lemma clear_dangling w r : heap w !! r = None -> clear r w = (w, Raise DanglingRef).
Proof. intros Ho. unfold clear, bind, deref. by rewrite Ho. Qed.

Lemma cleared_app_l w r evs evs' : cleared w r evs -> cleared w r (evs ++ evs').
Proof.
  intros (o & n & Ho & Hw & Hc). exists o, n.
  split; [exact Ho | split; apply elem_of_app; by left].
Qed.

Lemma cleared_app_r w r evs evs' : cleared w r evs' -> cleared w r (evs ++ evs').
Proof.
  intros (o & n & Ho & Hw & Hc). exists o, n.
  split; [exact Ho | split; apply elem_of_app; by right].
Qed.

Lemma cleared_same_heap w w' r evs : heap w' = heap w -> cleared w r evs -> cleared w' r evs.
Proof. intros Hh (o & n & Ho & H). exists o, n. by rewrite Hh. Qed.

(** The loop of [clear_all], when it returns: every element was an object
    of the heap and was cleared. *)
Lemma for_each_clear_inv l : forall w w',
  for_each l clear w = (w', Ok tt) ->
  exists evs,
    w' = {| heap := heap w; stdout := stdout w ++ evs; stdin := stdin w |} /\
    forall r, r ∈ l -> cleared w r evs.
Proof.
  induction l as [| r l IH]; intros w w' Hrun.
  - injection Hrun as <-. exists []. split.
    + destruct w. cbn. by rewrite app_nil_r.
    + intros r Hr. by apply elem_of_nil in Hr.
  - cbn [for_each] in Hrun.
    apply bind_Ok_inv in Hrun as (w1 & [] & Hclear & Hrest).
    destruct (heap w !! r) as [o |] eqn:Ho;
      [| rewrite (clear_dangling _ _ Ho) in Hclear; discriminate].
    destruct (clear_run w r o Ho) as (n & Hc). rewrite Hc in Hclear.
    injection Hclear as <-.
    destruct (IH _ _ Hrest) as (evs & -> & Hall). cbn.
    eexists. split; [by rewrite <- app_assoc |].
    intros m Hm. apply elem_of_cons in Hm as [-> | Hm].
    + apply cleared_app_l. exists o, n.
      split; [exact Ho | split; [by left | right; by left]].
    + apply cleared_app_r. by apply (cleared_same_heap _ _ _ _ eq_refl (Hall m Hm)).
Qed.

(** The loop of [clear_all] returns when every element is an object of the
    heap. *)
Lemma for_each_clear_returns l : forall w,
  (forall r, r ∈ l -> is_Some (heap w !! r)) ->
  exists w', for_each l clear w = (w', Ok tt).
Proof.
  induction l as [| r l IH]; intros w Hall.
  - by exists w.
  - destruct (Hall r ltac:(left)) as [o Ho].
    destruct (clear_run w r o Ho) as (n & Hc).
    cbn [for_each]. rewrite (bind_run _ _ _ _ _ Hc).
    apply IH. intros m Hm. cbn. apply Hall. by right.
Qed.

Lemma clear_all_inv l w s' :
  clear_all (l, w) = (s', Ok tt) ->
  exists evs,
    s' = (l, {| heap := heap w; stdout := stdout w ++ evs; stdin := stdin w |}) /\
    (forall r, r ∈ elems l -> cleared w r evs) /\
    CallListCleanup ∈ evs.
Proof.
  unfold clear_all. unfold bind at 1, get_self. cbn [fst].
  intros Hrun. apply bind_Ok_inv in Hrun as (s1 & [] & Hloop & Hhook).
  apply lift_inv in Hloop as [Hl Hloop]. cbn [fst snd] in Hl, Hloop.
  destruct (for_each_clear_inv _ _ _ Hloop) as (evs & Hw1 & Hall).
  destruct s1 as [l1 w1]. cbn [fst snd] in Hl, Hw1. subst l1 w1.
  unfold ElementList_cleanup, lift, emit in Hhook. cbn in Hhook.
  injection Hhook as <-.
  exists (evs ++ [CallListCleanup]). split; [by rewrite app_assoc | split].
  - intros r Hr. by apply cleared_app_l, Hall.
  - apply elem_of_app. right. by left.
Qed.

Lemma clear_all_returns l w :
  (forall r, r ∈ elems l -> is_Some (heap w !! r)) ->
  exists w', clear_all (l, w) = ((l, w'), Ok tt) /\ draws w w'.
Proof.
  intros Hall. destruct (for_each_clear_returns (elems l) w Hall) as (w1 & Hloop).
  assert (Hd : draws w w1).
  { pose proof (respects_for_each draws draws_refl draws_trans (elems l) clear draws_clear w)
      as H. by rewrite Hloop in H. }
  eexists. split.
  - unfold clear_all. unfold bind at 1, get_self. cbn [fst].
    rewrite (bind_run _ _ _ _ _ (lift_run _ l _ _ _ Hloop)). reflexivity.
  - cbn. destruct Hd as (Hh & Hi & ev & Hev).
    repeat split; [exact Hh | exact Hi |].
    exists (ev ++ [CallListCleanup]). cbn. by rewrite Hev, app_assoc.
Qed.

(** ** The key loop from end to end *)

Lemma py_index_elem_of {A : Type} (l : list A) (i : Z) (a : A) :
  py_index l i = Some a -> a ∈ l.
Proof.
  unfold py_index. intros H.
  repeat match type of H with (if ?b then _ else _) = _ => destruct b end;
    try discriminate; by eapply list_elem_of_lookup_2.
Qed.

Lemma lookup_insert_is_Some (h : list widget) (r m : nat) (o : widget) :
  is_Some (h !! m) -> is_Some (<[r := o]> h !! m).
Proof.
  rewrite !lookup_lt_is_Some. by rewrite length_insert.
Qed.

Lemma next_yields g s s' key :
  resume g s = (s', Ok (Some key)) -> next g s = (with_pc AtYield g, s', Ok (Some key)).
Proof. intros H. unfold next. by rewrite H. Qed.

Lemma next_stops g s s' :
  resume g s = (s', Ok None) -> next g s = (with_pc Finished g, s', Ok None).
Proof. intros H. unfold next. by rewrite H. Qed.

Lemma collect_more n : forall m g s r,
  collect n g s = Some r -> (n <= m)%nat -> collect m g s = Some r.
Proof.
  induction n as [| n IH]; intros m g s r Hrun Hle; [discriminate |].
  destruct m as [| m]; [lia |]. cbn [collect] in *.
  destruct (next g s) as [[g1 s1] [[key |] | e |]]; try exact Hrun.
  destruct (collect n g1 s1) as [r1 |] eqn:E; [| discriminate].
  by rewrite (IH m g1 s1 r1 E ltac:(lia)).
Qed.

Lemma counter_in_reselected w w' m cm :
  reselected w w' -> counter_in w m = Some cm ->
  exists b, counter_in w' m = Some (with_element (with_selected b) cm).
Proof.
  intros [_ H] Hin. destruct (counter_in_inv _ _ _ Hin) as (o & Ho & Hc).
  destruct (H m o Ho) as [b Hb]. exists b. unfold counter_in. rewrite Hb. cbn.
  destruct o; cbn in Hc |- *; [discriminate | |]; by injection Hc as <-.
Qed.

(** The run of [list(g)] on the keys "up", "up", "enter" when the current
    widget is a counter that stays below its upper bound. *)
Lemma up_up_enter_run l w r c v alr aesc cl rest :
  py_index (elems l) (_current_index l) = Some r ->
  heap w !! r = Some (WCounter c) ->
  count c = Fin v -> snd (bounds c) <> Fin v -> snd (bounds c) <> Fin (v + 1) ->
  (forall m, m ∈ elems l -> drawable_at w m) ->
  (forall m, m ∈ exclusive_to (as_element c) -> drawable_at w m) ->
  stdin w = up_up_enter ++ rest ->
  exists w',
    collect 3 (key_presses alr true aesc true cl) (l, w)
      = Some (with_pc Finished (key_presses alr true aesc true cl), (l, w'), Ok ["up"; "up"]) /\
    count_at w' r = Some (Fin (v + 2)) /\
    (forall m cm, m <> r -> counter_in w m = Some cm -> count_at w' m = Some (count cm)) /\
    stdin w' = rest.
Proof.
  intros Hidx Ho Hc Hb1 Hb2 Hall Hex Hin.
  set (g0 := key_presses alr true aesc true cl).
  assert (Hd : drawable (WCounter c)).
  { destruct (Hall r (py_index_elem_of _ _ _ Hidx)) as (o & Ho' & Hd).
    rewrite Ho in Ho'. by injection Ho' as <-. }
  (* the statements before the loop *)
  destruct (prologue_returns l w r (WCounter c) Hidx Ho Hd Hex Hall) as (w1 & Hpro & Hre).
  destruct Hre as [Hin1 Hheap1].
  destruct (Hheap1 r _ Ho) as [b Ho1]. cbn [map_element] in Ho1.
  set (c1 := with_element (with_selected b) c) in Ho1.
  (* the first "up" *)
  destruct (loop_body_up g0 l w1 r c1 v (0xe0%N :: 72%N :: 13%N :: rest))
    as (w2 & Hup1 & Hheap2 & Hin2); try done.
  { by rewrite Hin1, Hin. }
  assert (Hnext1 : next g0 (l, w) = (with_pc AtYield g0, (l, w2), Ok (Some "up"))).
  { apply next_yields. unfold resume. cbn [pc g0 key_presses].
    rewrite (bind_run _ _ _ _ _ Hpro), (bind_run _ _ _ _ _ Hup1). reflexivity. }
  (* the second "up" *)
  set (c2 := with_count (Fin (v + 1)) c1) in Hheap2.
  assert (Ho2 : heap w2 !! r = Some (WCounter c2))
    by (rewrite Hheap2; by apply (lookup_insert_same _ _ _ _ Ho1)).
  destruct (loop_body_up (with_pc AtYield g0) l w2 r c2 (v + 1) (13%N :: rest))
    as (w3 & Hup2 & Hheap3 & Hin3); try done.
  assert (Hnext2 : next (with_pc AtYield g0) (l, w2)
                   = (with_pc AtYield g0, (l, w3), Ok (Some "up"))).
  { apply (next_yields (with_pc AtYield g0)). unfold resume. cbn [pc with_pc].
    rewrite (bind_run _ _ _ _ _ Hup2). reflexivity. }
  (* "enter" *)
  set (c3 := with_count (Fin (v + 1 + 1)) c2) in Hheap3.
  set (w4 := {| heap := heap w3; stdout := stdout w3; stdin := rest |}).
  assert (Henter : loop_body (with_pc AtYield g0) (l, w3) = ((l, w4), Ok None))
    by (by apply loop_body_enter).
  assert (Hsome : forall m, m ∈ elems l -> is_Some (heap w4 !! m)).
  { intros m Hm. cbn [heap w4]. rewrite Hheap3, Hheap2.
    do 2 apply lookup_insert_is_Some.
    destruct (Hall m Hm) as (o & Hom & _). destruct (Hheap1 m o Hom) as [bm Hbm].
    by rewrite Hbm. }
  assert (Hepi : exists w5, epilogue (with_pc AtYield g0) (l, w4) = ((l, w5), Ok tt)
                            /\ heap w5 = heap w4 /\ stdin w5 = stdin w4).
  { unfold epilogue. cbn [clean with_pc g0 key_presses]. destruct cl; cbn [when].
    - destruct (clear_all_returns l w4 Hsome) as (w5 & Hclear & Hh & Hi & _).
      by exists w5.
    - by exists w4. }
  destruct Hepi as (w5 & Hepi & Hheap5 & Hin5).
  assert (Hnext3 : next (with_pc AtYield g0) (l, w3)
                   = (with_pc Finished g0, (l, w5), Ok None)).
  { apply (next_stops (with_pc AtYield g0)). unfold resume. cbn [pc with_pc].
    rewrite (bind_run _ _ _ _ _ Henter), (bind_run _ _ _ _ _ Hepi). reflexivity. }
  exists w5. split; [| split; [| split]].
  - cbn [collect]. fold g0. rewrite Hnext1, Hnext2, Hnext3. reflexivity.
  - unfold count_at, counter_in. rewrite Hheap5. cbn [heap w4].
    rewrite Hheap3, (lookup_insert_same _ _ _ _ Ho2). cbn.
    do 2 f_equal. lia.
  - intros m cm Hne Hcm.
    destruct (counter_in_reselected w w1 m cm (conj Hin1 Hheap1) Hcm) as [bm Hbm].
    unfold count_at, counter_in in *. rewrite Hheap5. cbn [heap w4].
    rewrite Hheap3, Hheap2, !list_lookup_insert_ne by congruence.
    by rewrite Hbm.
  - by rewrite Hin5.
Qed.

(** C3 (as the code has it) — For an [ElementList] of two counters whose
    current element is the first, with [auto_up_down] and [auto_enter] set,
    the bytes of "up", "up", "enter" leave the value of the first counter
    incremented by exactly 2 (it stays below its upper bound, as with the
    default bounds) and the second counter as it was; the generator yields
    exactly the two tokens 'up', 'up' and then ends: "enter" ends the
    sequence and is not yielded. *)
Theorem up_up_enter_yields_two_keys :
  forall (w : world) (r0 r1 : ref) (c0 c1 : GUICounter) (v : Z)
         (lwrap alr aesc cl : bool),
    heap w !! r0 = Some (WCounter c0) ->
    heap w !! r1 = Some (WCounter c1) ->
    r0 <> r1 ->
    drawable (WCounter c0) ->
    drawable (WCounter c1) ->
    (forall m, m ∈ exclusive_to (as_element c0) -> m = r0 \/ m = r1) ->
    count c0 = Fin v ->
    snd (bounds c0) <> Fin v ->
    snd (bounds c0) <> Fin (v + 1) ->
    stdin w = up_up_enter ->
    let l := {| elems := [r0; r1]; el_wrap := lwrap; _current_index := 0 |} in
    exists g' w',
      list_of (key_presses alr true aesc true cl) (l, w)
        = Some (g', (l, w'), Ok ["up"; "up"]) /\
      pc g' = Finished /\
      count_at w' r0 = Some (Fin (v + 2)) /\
      count_at w' r1 = Some (count c1) /\
      stdin w' = [].
Proof.
  intros w r0 r1 c0 c1 v lwrap alr aesc cl Ho0 Ho1 Hne Hd0 Hd1 Hex Hc Hb1 Hb2 Hin l.
  assert (Hdr : forall m, m = r0 \/ m = r1 -> drawable_at w m).
  { intros m [-> | ->]; eexists; eauto. }
  assert (Hall : forall m, m ∈ elems l -> drawable_at w m).
  { intros m Hm. apply Hdr. subst l. cbn in Hm.
    apply elem_of_cons in Hm as [-> | Hm]; [by left |].
    apply elem_of_cons in Hm as [-> | Hm]; [by right | by apply elem_of_nil in Hm]. }
  assert (Hgroup : forall m, m ∈ exclusive_to (as_element c0) -> drawable_at w m).
  { intros m Hm. by apply Hdr, Hex. }
  assert (Hin' : stdin w = up_up_enter ++ []) by (by rewrite Hin, app_nil_r).
  destruct (up_up_enter_run l w r0 c0 v alr aesc cl [] eq_refl Ho0 Hc Hb1 Hb2 Hall Hgroup Hin')
    as (w' & Hrun & Hv & Hothers & Hrest).
  - exists (with_pc Finished (key_presses alr true aesc true cl)), w'.
    split; [| split; [reflexivity | split; [exact Hv | split; [| exact Hrest]]]].
    + unfold list_of. apply (collect_more 3); [exact Hrun |].
      cbn [snd]. rewrite Hin. cbn. lia.
    + apply (Hothers r1 c1); [congruence |]. unfold counter_in. by rewrite Ho1.
Qed.

Lemma up_up_enter_yields_two_keys_witness :
  exists g' w',
    list_of (key_presses false true false true false) (two_counters up_up_enter)
      = Some (g', (fst (two_counters up_up_enter), w'), Ok ["up"; "up"]) /\
    pc g' = Finished /\
    count_at w' 0%nat = Some (Fin 2) /\
    count_at w' 1%nat = Some (Fin 5) /\
    stdin w' = [].
Proof.
  apply (up_up_enter_yields_two_keys (snd (two_counters up_up_enter)) 0%nat 1%nat
           (counter_example 0 (NegInf, PosInf) true)
           (counter_example 5 (NegInf, PosInf) true) 0 true false false false).
  - reflexivity.
  - reflexivity.
  - discriminate.
  - left. reflexivity.
  - left. reflexivity.
  - intros m Hm. by apply elem_of_nil in Hm.
  - reflexivity.
  - discriminate.
  - discriminate.
  - reflexivity.
Defined.

(** C3 as stated fails: on the bytes of "up", "up", "enter" the generator
    does not yield the three tokens 'up', 'up', 'enter'. *)
Lemma up_up_enter_does_not_yield_enter :
  keys_yielded (list_of (key_presses false true false true false) (two_counters up_up_enter))
  <> Some ["up"; "up"; "enter"].
Proof. vm_compute. discriminate. Qed.

(** ** The terminal only grows *)

Lemma grows_deref r : respects grows (deref r).
Proof. apply (respects_weaken draws); [apply draws_grows | apply draws_deref]. Qed.

Lemma grows_emit e : respects grows (emit e).
Proof. apply (respects_weaken draws); [apply draws_grows | apply draws_emit]. Qed.

Lemma grows_update r : respects grows (update r).
Proof. apply (respects_weaken draws); [apply draws_grows | apply draws_update]. Qed.

Lemma grows_clear r : respects grows (clear r).
Proof. apply (respects_weaken draws); [apply draws_grows | apply draws_clear]. Qed.

Lemma grows_store r o : respects grows (store r o).
Proof. intros w. exists []. cbn. by rewrite app_nil_r. Qed.

Lemma grows_getch : respects grows getch.
Proof. intros w. unfold getch. destruct (stdin w); exists []; cbn; by rewrite app_nil_r. Qed.

Ltac growth :=
  footprint_by ltac:(first [ apply grows_deref | apply grows_emit | apply grows_update
                           | apply grows_store | apply grows_getch ]).

Lemma grows_modify r f : respects grows (modify r f).
Proof. unfold modify. growth. Qed.

Lemma grows_select r : respects grows (select r).
Proof. unfold select, deselect. growth; apply grows_modify. Qed.

Lemma grows_increase r : respects grows (increase r).
Proof.
  unfold increase, GUICounter_increase, GUIHiddenList_increase, counter_at, set_count.
  growth; apply grows_modify.
Qed.

Lemma grows_decrease r : respects grows (decrease r).
Proof.
  unfold decrease, GUICounter_decrease, GUIHiddenList_decrease, counter_at, set_count.
  growth; apply grows_modify.
Qed.

Lemma grows_read_key : respects grows read_key.
Proof. unfold read_key, keys_getitem. growth. Qed.

Lemma extends_refl s : extends s s.
Proof. split; [reflexivity | apply grows_refl]. Qed.

Lemma extends_trans a b c : extends a b -> extends b c -> extends a c.
Proof.
  intros [H1 H2] [H3 H4]. split; [congruence | by eapply grows_trans].
Qed.

#[local] Hint Resolve extends_refl extends_trans : footprint.

Lemma extends_lift {A : Type} (m : M world A) : respects grows m -> respects extends (lift m).
Proof.
  intros Hm [l w]. unfold lift. cbn [snd fst]. specialize (Hm w).
  destruct (m w) as [w' r]. by split.
Qed.

Lemma extends_get_self : respects extends get_self.
Proof. intros s. apply extends_refl. Qed.

Lemma extends_set_current_index i : respects extends (set_current_index i).
Proof. intros s. split; [reflexivity | apply grows_refl]. Qed.

Ltac extension :=
  footprint_by ltac:(first [ apply extends_get_self | apply extends_set_current_index
                           | apply extends_lift;
                             first [ apply grows_select | apply grows_increase
                                   | apply grows_decrease | apply grows_read_key
                                   | apply grows_emit
                                   | apply respects_for_each;
                                     [apply grows_refl | apply grows_trans | intros;
                                      first [apply grows_update | apply grows_clear]] ] ]).

Lemma extends_move_left : respects extends move_left.
Proof. unfold move_left, mod_len, ElementList_current. extension. Qed.

Lemma extends_move_right : respects extends move_right.
Proof. unfold move_right, mod_len, ElementList_current. extension. Qed.

Lemma extends_prologue : respects extends prologue.
Proof. unfold prologue, init, ElementList_current. extension. Qed.

Lemma extends_loop_body g : respects extends (loop_body g).
Proof.
  unfold loop_body, ElementList_current.
  extension; first [apply extends_move_left | apply extends_move_right].
Qed.

(** ** Cleaning at the end of the loop *)

(** The only way to the end of the loop is [break]. *)
Lemma iteration_stops_inv g sa s' :
  (let* r := loop_body g in
   match r with
   | Some key => ret (Some key)
   | None => epilogue g ;; ret None
   end) sa = (s', Ok None) ->
  exists sb, loop_body g sa = (sb, Ok None) /\ epilogue g sb = (s', Ok tt).
Proof.
  intros H. apply bind_Ok_inv in H as (sb & [key |] & Hbody & Hrest).
  - discriminate Hrest.
  - apply bind_Ok_inv in Hrest as (sc & [] & Hepi & Hret).
    injection Hret as <-. by exists sb.
Qed.

(** * Further properties *)

(** ** Counters: calls that return *)

Lemma modify_update_returns w r o f :
  heap w !! r = Some o -> drawable (f o) ->
  exists w',
    (modify r f ;; update r) w = (w', Ok tt) /\
    heap w' = <[r := f o]> (heap w) /\ stdin w' = stdin w /\ grows w w'.
Proof.
  intros Ho Hd. rewrite (bind_run _ _ _ _ _ (modify_Some _ _ f _ Ho)).
  set (w1 := {| heap := _ |}).
  assert (Ho1 : heap w1 !! r = Some (f o))
    by (subst w1; cbn; by rewrite (lookup_insert_same _ _ _ _ Ho)).
  destruct (update_drawable w1 r (f o) Ho1 Hd) as (w' & Hrun & Hh).
  pose proof (draws_update r w1) as (_ & Hin & Hg). rewrite Hrun in Hin, Hg.
  exists w'. by repeat split.
Qed.

Lemma skip_update_returns w r o :
  heap w !! r = Some o -> drawable o ->
  exists w',
    (ret tt ;; update r) w = (w', Ok tt) /\
    heap w' = heap w /\ stdin w' = stdin w /\ grows w w'.
Proof.
  intros Ho Hd. destruct (update_drawable w r o Ho Hd) as (w' & Hrun & Hh).
  pose proof (draws_update r w) as (_ & Hin & Hg). rewrite Hrun in Hin, Hg.
  exists w'. by repeat split.
Qed.

(** A call of [increase()] or [decrease()] on a counter that can be drawn
    returns, with the counter changed as [counter_after] says. *)
Lemma GUICounter_call_returns w r c op :
  heap w !! r = Some (WCounter c) -> drawable (WCounter c) ->
  exists w',
    call r op w = (w', Ok tt) /\
    heap w' = <[r := WCounter (counter_after op c)]> (heap w) /\
    stdin w' = stdin w /\ grows w w'.
Proof.
  intros Ho Hd. rewrite (call_on_counter _ _ _ _ Ho).
  assert (Hskip : exists w',
             (ret tt ;; update r) w = (w', Ok tt) /\
             heap w' = <[r := WCounter c]> (heap w) /\ stdin w' = stdin w /\ grows w w').
  { destruct (skip_update_returns w r _ Ho Hd) as (w' & Hrun & Hh & Hrest).
    exists w'. split; [exact Hrun | split; [| exact Hrest]].
    by rewrite (list_insert_id _ _ _ Ho). }
  destruct op; cbn [counter_after];
    unfold GUICounter_increase, GUICounter_decrease;
    rewrite (bind_run _ _ _ _ _ (counter_at_Some _ _ _ c Ho eq_refl));
    unfold set_count;
    repeat match goal with |- context [if ?b then _ else _] => destruct b end;
    first [ exact Hskip
          | match goal with
            | |- context [modify r (map_counter (with_count ?n))] =>
                apply (modify_update_returns w r (WCounter c)
                         (map_counter (with_count n)) Ho Hd)
            end ].
Qed.

Lemma with_count_same c n : count c = n -> with_count n c = c.
Proof. intros <-. by destruct c. Qed.

Lemma counter_after_fields op c :
  as_element (counter_after op c) = as_element c /\
  align (counter_after op c) = align c /\
  padding (counter_after op c) = padding c /\
  bounds (counter_after op c) = bounds c /\
  wrap_bounds (counter_after op c) = wrap_bounds c /\
  aux_count (counter_after op c) = aux_count c.
Proof.
  destruct c as [e n a al p b ab wb].
  destruct op; cbn [counter_after count bounds wrap_bounds];
    destruct (negb _); try destruct wb; by repeat split.
Qed.

Lemma drawable_counter_after op c :
  drawable (WCounter c) -> drawable (WCounter (counter_after op c)).
Proof.
  cbn. by destruct (counter_after_fields op c) as (_ & -> & _).
Qed.

(** A sequence of calls on a counter that can be drawn returns. *)
Lemma GUICounter_calls_return ops : forall w r c,
  heap w !! r = Some (WCounter c) -> drawable (WCounter c) ->
  exists w',
    for_each ops (call r) w = (w', Ok tt) /\
    heap w' = <[r := WCounter (foldl (fun a op => counter_after op a) c ops)]> (heap w) /\
    stdin w' = stdin w /\ grows w w'.
Proof.
  induction ops as [| op ops IH]; intros w r c Ho Hd.
  - exists w. cbn. split; [reflexivity | split; [| split; [reflexivity | apply grows_refl]]].
    by rewrite (list_insert_id _ _ _ Ho).
  - destruct (GUICounter_call_returns w r c op Ho Hd) as (w1 & Hrun1 & Hh1 & Hi1 & Hg1).
    assert (Ho1 : heap w1 !! r = Some (WCounter (counter_after op c)))
      by (rewrite Hh1; by apply (lookup_insert_same _ _ _ _ Ho)).
    destruct (IH w1 r _ Ho1 (drawable_counter_after op c Hd)) as (w2 & Hrun2 & Hh2 & Hi2 & Hg2).
    exists w2. cbn [for_each foldl]. rewrite (bind_run _ _ _ _ _ Hrun1).
    split; [exact Hrun2 | split; [| split; [congruence | by eapply grows_trans]]].
    by rewrite Hh2, Hh1, list_insert_insert_eq.
Qed.

(** ** Counters: round trips, unbounded counters, errors *)

(** X1 — On a counter that wraps ([wrap_bounds = True]) and whose value is
    within its finite bounds, [increase()] and [decrease()] undo each other
    in both orders: the two calls return and leave every object of the heap
    as it was. *)
Theorem increase_decrease_round_trip :
  forall (w : world) (r : ref) (c : GUICounter) (lo hi v : Z),
    heap w !! r = Some (WCounter c) ->
    drawable (WCounter c) ->
    bounds c = (Fin lo, Fin hi) ->
    wrap_bounds c = true ->
    count c = Fin v ->
    lo <= v <= hi ->
    (exists w', (increase r ;; decrease r) w = (w', Ok tt) /\ heap w' = heap w)
    /\ (exists w', (decrease r ;; increase r) w = (w', Ok tt) /\ heap w' = heap w).
Proof.
  intros w r c lo hi v Ho Hd Hb Hw Hc Hv.
  assert (Hboth : forall op1 op2,
             counter_after op2 (counter_after op1 c) = c ->
             exists w', (call r op1 ;; call r op2) w = (w', Ok tt) /\ heap w' = heap w).
  { intros op1 op2 Hback.
    destruct (GUICounter_call_returns w r c op1 Ho Hd) as (w1 & Hrun1 & Hh1 & _).
    assert (Ho1 : heap w1 !! r = Some (WCounter (counter_after op1 c)))
      by (rewrite Hh1; by apply (lookup_insert_same _ _ _ _ Ho)).
    destruct (GUICounter_call_returns w1 r _ op2 Ho1 (drawable_counter_after op1 c Hd))
      as (w2 & Hrun2 & Hh2 & _).
    exists w2. rewrite (bind_run _ _ _ _ _ Hrun1). split; [exact Hrun2 |].
    by rewrite Hh2, Hh1, list_insert_insert_eq, Hback, (list_insert_id _ _ _ Ho). }
  split.
  - apply (Hboth Increase Decrease).
    destruct c as [e n a al p b ab wb]. cbn in Hb, Hw, Hc. subst b wb n. cbn.
    destruct (Z.eqb_spec v hi) as [-> | Hne]; cbn.
    + rewrite Z.eqb_refl. reflexivity.
    + destruct (Z.eqb_spec (v + 1) lo); [lia |]. unfold with_count. cbn. do 2 f_equal. lia.
  - apply (Hboth Decrease Increase).
    destruct c as [e n a al p b ab wb]. cbn in Hb, Hw, Hc. subst b wb n. cbn.
    destruct (Z.eqb_spec v lo) as [-> | Hne]; cbn.
    + rewrite Z.eqb_refl. reflexivity.
    + destruct (Z.eqb_spec (v + -1) hi); [lia |]. unfold with_count. cbn. do 2 f_equal. lia.
Qed.

Lemma increase_decrease_round_trip_witness :
  let w := world_of [WCounter (counter_example 2 (Fin 0, Fin 2) true)] [] in
  (exists w', (increase 0%nat ;; decrease 0%nat) w = (w', Ok tt) /\ heap w' = heap w)
  /\ (exists w', (decrease 0%nat ;; increase 0%nat) w = (w', Ok tt) /\ heap w' = heap w).
Proof.
  intros w.
  apply (increase_decrease_round_trip w 0%nat (counter_example 2 (Fin 0, Fin 2) true) 0 2 2).
  - reflexivity.
  - left. reflexivity.
  - reflexivity.
  - reflexivity.
  - reflexivity.
  - lia.
Defined.

Lemma unbounded_counter_after ops : forall c v,
  bounds c = (NegInf, PosInf) -> count c = Fin v ->
  count (foldl (fun a op => counter_after op a) c ops) = Fin (v + net ops).
Proof.
  induction ops as [| op ops IH]; intros c v Hb Hc; cbn [foldl net].
  - rewrite Hc. f_equal. lia.
  - destruct (counter_after_fields op c) as (_ & _ & _ & Hb' & _).
    destruct op.
    + rewrite (IH _ (v + 1)); [f_equal; lia | by rewrite Hb' |].
      cbn. by rewrite Hb, Hc.
    + rewrite (IH _ (v + -1)); [f_equal; lia | by rewrite Hb' |].
      cbn. by rewrite Hb, Hc.
Qed.

(** X2 — A counter with the default bounds [(-inf, inf)] and an integer
    value never wraps or clamps: every sequence of [increase()] /
    [decrease()] calls returns and leaves the value at the start value plus
    the number of increases minus the number of decreases. *)
Theorem unbounded_counter_counts :
  forall (w : world) (r : ref) (c : GUICounter) (v : Z) (ops : list counter_call),
    heap w !! r = Some (WCounter c) ->
    drawable (WCounter c) ->
    bounds c = (NegInf, PosInf) ->
    count c = Fin v ->
    exists w',
      for_each ops (call r) w = (w', Ok tt) /\
      count_at w' r = Some (Fin (v + net ops)).
Proof.
  intros w r c v ops Ho Hd Hb Hc.
  destruct (GUICounter_calls_return ops w r c Ho Hd) as (w' & Hrun & Hh & _).
  exists w'. split; [exact Hrun |].
  unfold count_at, counter_in. rewrite Hh, (lookup_insert_same _ _ _ _ Ho). cbn.
  by rewrite (unbounded_counter_after ops c v Hb Hc).
Qed.

Lemma unbounded_counter_counts_witness :
  exists w',
    for_each [Decrease; Decrease; Increase; Decrease] (call 0%nat)
      (world_of [WCounter (counter_example 0 (NegInf, PosInf) true)] []) = (w', Ok tt) /\
    count_at w' 0%nat = Some (Fin (-2)).
Proof.
  apply (unbounded_counter_counts
           (world_of [WCounter (counter_example 0 (NegInf, PosInf) true)] []) 0%nat
           (counter_example 0 (NegInf, PosInf) true) 0
           [Decrease; Decrease; Increase; Decrease]).
  - reflexivity.
  - left. reflexivity.
  - reflexivity.
  - reflexivity.
Defined.

(** X3 — A counter whose [align] is neither 'left' nor 'right' cannot be
    drawn: [update()] raises [ValueError] and writes nothing, and
    [increase()] raises it as well, but only after it has changed the
    value: [count], which was [v], is [v + 1] in the state the failed call
    leaves, and nothing was written. *)
Theorem bad_align_raises_after_the_change :
  forall (w : world) (r : ref) (c : GUICounter) (v : Z),
    heap w !! r = Some (WCounter c) ->
    align c <> "left" ->
    align c <> "right" ->
    count c = Fin v ->
    snd (bounds c) <> Fin v ->
    update r w = (w, Raise ValueError)
    /\ increase r w =
         ({| heap := <[r := WCounter (with_count (Fin (v + 1)) c)]> (heap w);
             stdout := stdout w; stdin := stdin w |}, Raise ValueError)
    /\ count_at w r = Some (Fin v)
    /\ count_at (fst (increase r w)) r = Some (Fin (v + 1))
    /\ stdout (fst (increase r w)) = stdout w.
Proof.
  intros w r c v Ho Hl Hr Hc Hb.
  assert (Hupd : forall w0 c0, heap w0 !! r = Some (WCounter c0) -> align c0 = align c ->
                               update r w0 = (w0, Raise ValueError)).
  { intros w0 c0 Ho0 Hal. unfold update.
    rewrite (bind_run _ _ _ _ _ (deref_Some _ _ _ Ho0)). unfold GUICounter_update.
    rewrite (bind_run _ _ _ _ _ (counter_at_Some _ _ _ c0 Ho0 eq_refl)). rewrite Hal.
    apply String.eqb_neq in Hl, Hr. by rewrite Hl, Hr. }
  split; [by apply (Hupd w c) |].
  assert (Hne : xint_eqb (count c) (snd (bounds c)) = false).
  { apply xint_eqb_neq. congruence. }
  assert (Hrun : increase r w =
                   ({| heap := <[r := WCounter (with_count (Fin (v + 1)) c)]> (heap w);
                       stdout := stdout w; stdin := stdin w |}, Raise ValueError)).
  { unfold increase. rewrite (bind_run _ _ _ _ _ (deref_Some _ _ _ Ho)).
    unfold GUICounter_increase.
    rewrite (bind_run _ _ _ _ _ (counter_at_Some _ _ _ c Ho eq_refl)).
    rewrite Hne, Hc. cbn [negb xint_add]. unfold set_count.
    rewrite (bind_run _ _ _ _ _ (modify_Some _ _ _ _ Ho)).
    apply (Hupd _ (with_count (Fin (v + 1)) c)); [| reflexivity].
    cbn. by rewrite (lookup_insert_same _ _ _ _ Ho). }
  split; [exact Hrun |]. rewrite Hrun. unfold count_at, counter_in. cbn [fst heap stdout].
  rewrite Ho, (lookup_insert_same _ _ _ _ Ho). cbn. rewrite Hc. by repeat split.
Qed.

Lemma bad_align_raises_after_the_change_witness :
  let c := GUICounter_init (PNum (Fin 1)) (PNum (Fin 1))
             (PStr Fore_RESET) (PStr Back_GREEN) (PStr Fore_RESET) (PStr Back_RESET)
             (PBool false) (Fin 7) (Fin 0) "center" 0 (NegInf, PosInf) (NegInf, PosInf) true in
  let w := world_of [WCounter c] [] in
  update 0%nat w = (w, Raise ValueError)
  /\ snd (increase 0%nat w) = Raise ValueError
  /\ count_at w 0%nat = Some (Fin 7)
  /\ count_at (fst (increase 0%nat w)) 0%nat = Some (Fin 8)
  /\ stdout (fst (increase 0%nat w)) = [].
Proof.
  intros c w.
  destruct (bad_align_raises_after_the_change w 0%nat c 7)
    as (Hupdate & Hrun & Hbefore & Hafter & Hout).
  - reflexivity.
  - discriminate.
  - discriminate.
  - reflexivity.
  - discriminate.
  - split; [exact Hupdate |]. split; [by rewrite Hrun |].
    split; [exact Hbefore |]. split; [exact Hafter | exact Hout].
Defined.

(** X4 — [aux_bounds] do not bound [aux_count]: as long as the main value
    differs from the upper auxiliary bound, every call of [aux_increase()]
    returns and adds 1 to [aux_count], whatever the auxiliary bounds are:
    after [k] calls [aux_count], which was [a], is [a + k], and [count] is
    as it was. *)
Theorem aux_count_is_not_bounded :
  forall (k : nat) (w : world) (r : ref) (c : GUICounter) (a : Z),
    heap w !! r = Some (WCounter c) ->
    drawable (WCounter c) ->
    count c <> snd (aux_bounds c) ->
    aux_count c = Fin a ->
    exists w',
      for_each (replicate k tt) (fun _ => aux_increase r) w = (w', Ok tt) /\
      heap w' !! r = Some (WCounter (with_aux_count (Fin (a + Z.of_nat k)) c)) /\
      aux_count_at w r = Some (Fin a) /\
      aux_count_at w' r = Some (Fin (a + Z.of_nat k)) /\
      count_at w' r = Some (count c).
Proof.
  induction k as [| k IH]; intros w r c a Ho Hd Hne Ha.
  - exists w. split; [reflexivity |].
    unfold aux_count_at, count_at, counter_in. rewrite Ho. cbn. rewrite Ha.
    replace (a + Z.of_nat 0) with a by lia.
    split; [| by repeat split]. do 2 f_equal.
    destruct c. cbn in Ha. subst. reflexivity.
  - apply xint_eqb_neq in Hne as Hne'.
    destruct (modify_update_returns w r (WCounter c)
                (map_counter (with_aux_count (Fin (a + 1)))) Ho Hd)
      as (w1 & Hrun1 & Hh1 & _).
    assert (Hstep : aux_increase r w = (w1, Ok tt)).
    { unfold aux_increase.
      rewrite (bind_run _ _ _ _ _ (counter_at_Some _ _ _ c Ho eq_refl)).
      rewrite Hne', Ha. exact Hrun1. }
    assert (Ho1 : heap w1 !! r = Some (WCounter (with_aux_count (Fin (a + 1)) c)))
      by (rewrite Hh1; by apply (lookup_insert_same _ _ _ _ Ho)).
    destruct (IH w1 r _ (a + 1) Ho1 Hd Hne eq_refl) as (w2 & Hrun2 & Ho2 & _ & Haux2 & Hcount2).
    exists w2. cbn [replicate for_each]. rewrite (bind_run _ _ _ _ _ Hstep).
    split; [exact Hrun2 |].
    replace (a + Z.of_nat (S k)) with (a + 1 + Z.of_nat k) by lia.
    split; [| split; [| split]].
    + rewrite Ho2. reflexivity.
    + unfold aux_count_at, counter_in. rewrite Ho. cbn. by rewrite Ha.
    + exact Haux2.
    + exact Hcount2.
Qed.

Lemma aux_count_is_not_bounded_witness :
  let c := GUICounter_init (PNum (Fin 1)) (PNum (Fin 1))
             (PStr Fore_RESET) (PStr Back_GREEN) (PStr Fore_RESET) (PStr Back_RESET)
             (PBool false) (Fin 0) (Fin 2) "left" 0 (NegInf, PosInf) (Fin 0, Fin 3) true in
  exists w',
    for_each (replicate 4 tt) (fun _ => aux_increase 0%nat) (world_of [WCounter c] [])
      = (w', Ok tt) /\
    aux_count_at (world_of [WCounter c] []) 0%nat = Some (Fin 2) /\
    aux_count_at w' 0%nat = Some (Fin 6) /\
    count_at w' 0%nat = Some (Fin 0).
Proof.
  intros c.
  destruct (aux_count_is_not_bounded 4 (world_of [WCounter c] []) 0%nat c 2)
    as (w' & Hrun & _ & Hbefore & Hafter & Hcount).
  - reflexivity.
  - left. reflexivity.
  - discriminate.
  - reflexivity.
  - exists w'. split; [exact Hrun |]. split; [exact Hbefore |].
    split; [exact Hafter | exact Hcount].
Defined.

Lemma clear_counter_run w r c :
  heap w !! r = Some (WCounter c) ->
  clear r w =
    ({| heap := heap w;
        stdout := stdout w ++
          [blanks_at (WCounter c)
             (Z.max (Z.max 0 (len (str (text (as_element c))))) (padding c));
           CallCleanup r];
        stdin := stdin w |}, Ok tt).
Proof.
  intros Ho. unfold clear. rewrite (bind_run _ _ _ _ _ (deref_Some _ _ _ Ho)).
  unfold GUICounter_clear.
  rewrite (bind_run _ _ _ _ _ (counter_at_Some _ _ _ c Ho eq_refl)).
  unfold GUIElement_clear. rewrite (bind_run _ _ _ _ _ (deref_Some _ _ _ Ho)).
  unfold bind, print_pos, cleanup, emit, blanks_at. cbn. by rewrite <- app_assoc.
Qed.

Lemma counter_after_calls_fields ops : forall c,
  as_element (foldl (fun a op => counter_after op a) c ops) = as_element c /\
  padding (foldl (fun a op => counter_after op a) c ops) = padding c.
Proof.
  induction ops as [| op ops IH]; intros c; [done |].
  cbn [foldl]. destruct (IH (counter_after op c)) as [-> ->].
  by destruct (counter_after_fields op c) as (-> & _ & -> & _).
Qed.

(** X5 — What [clear()] blanks for a counter does not follow its value: the
    [text] it measures is the one stored by the constructor, so after any
    calls of [increase()] / [decrease()] the width blanked is still
    [max(0, len(str(text)), padding)] for the original [text]. *)
Theorem counter_clear_ignores_the_value :
  forall (w : world) (r : ref) (c : GUICounter) (ops : list counter_call),
    heap w !! r = Some (WCounter c) ->
    drawable (WCounter c) ->
    exists w1 w2,
      for_each ops (call r) w = (w1, Ok tt) /\
      clear r w1 = (w2, Ok tt) /\
      stdout w2 = stdout w1 ++
        [blanks_at (WCounter c)
           (Z.max (Z.max 0 (len (str (text (as_element c))))) (padding c));
         CallCleanup r].
Proof.
  intros w r c ops Ho Hd.
  destruct (GUICounter_calls_return ops w r c Ho Hd) as (w1 & Hrun & Hh & _).
  set (c1 := foldl (fun a op => counter_after op a) c ops) in Hh.
  assert (Ho1 : heap w1 !! r = Some (WCounter c1))
    by (rewrite Hh; by apply (lookup_insert_same _ _ _ _ Ho)).
  eexists w1, _. split; [exact Hrun | split; [apply (clear_counter_run _ _ _ Ho1) |]].
  cbn [stdout]. destruct (counter_after_calls_fields ops c) as [He Hp].
  fold c1 in He, Hp. unfold blanks_at. cbn [element_of]. by rewrite He, Hp.
Qed.

Lemma counter_clear_ignores_the_value_witness :
  let c := counter_example 9 (NegInf, PosInf) true in
  exists w1 w2,
    for_each [Increase] (call 0%nat) (world_of [WCounter c] []) = (w1, Ok tt) /\
    count_at w1 0%nat = Some (Fin 10) /\
    clear 0%nat w1 = (w2, Ok tt) /\
    stdout w2 = stdout w1 ++ [blanks_at (WCounter c) 1; CallCleanup 0%nat].
Proof.
  intros c.
  destruct (counter_clear_ignores_the_value (world_of [WCounter c] []) 0%nat c [Increase])
    as (w1 & w2 & Hrun & Hclear & Hout).
  - reflexivity.
  - left. reflexivity.
  - exists w1, w2. split; [exact Hrun | split; [| split; [exact Hclear | exact Hout]]].
    assert (E : w1 = fst (for_each [Increase] (call 0%nat) (world_of [WCounter c] [])))
      by (by rewrite Hrun).
    rewrite E. reflexivity.
Defined.

(** ** Hidden lists *)

Lemma hidden_list_steps_in_range h ops : forall z,
  wrap h = false ->
  0 <= z < Z.of_nat (length (items h)) ->
  0 <= foldl (fun a op => hidden_list_step h op a) z ops < Z.of_nat (length (items h)).
Proof.
  induction ops as [| op ops IH]; intros z Hw Hz; [exact Hz |].
  cbn [foldl]. apply IH; [exact Hw |].
  unfold hidden_list_step. rewrite Hw.
  destruct op; [destruct (Z.eqb_spec z (Z.of_nat (length (items h)) - 1))
               | destruct (Z.eqb_spec z 0)]; lia.
Qed.

(** X6 — A hidden list with [wrap = False] whose count starts at an index
    of [items] keeps it there: every sequence of [increase()] /
    [decrease()] calls returns with the count in [[0, len(items))]. *)
Theorem hidden_list_without_wrap_stays_in_range :
  forall (w : world) (r : ref) (h : GUIHiddenList) (z : Z) (ops : list counter_call),
    heap w !! r = Some (WHiddenList h) ->
    wrap h = false ->
    count (as_counter h) = Fin z ->
    0 <= z < Z.of_nat (length (items h)) ->
    exists w' z',
      for_each ops (call r) w = (w', Ok tt) /\
      count_at w' r = Some (Fin z') /\
      0 <= z' < Z.of_nat (length (items h)).
Proof.
  intros w r h z ops Ho Hw Hz Hrange.
  assert (Hne : items h <> []) by (intros E; rewrite E in Hrange; cbn in Hrange; lia).
  destruct (calls_on_hidden_list ops w r h z Ho Hne Hz) as (w' & h' & Hrun & Ho' & _ & _ & Hz').
  exists w', (foldl (fun a op => hidden_list_step h op a) z ops).
  split; [exact Hrun | split; [| by apply hidden_list_steps_in_range]].
  unfold count_at, counter_in. rewrite Ho'. cbn. by rewrite Hz'.
Qed.

Lemma hidden_list_without_wrap_stays_in_range_witness :
  exists w' z',
    for_each [Increase; Increase; Increase; Decrease] (call 0%nat)
      (world_of [WHiddenList (abc_at 1 false)] []) = (w', Ok tt) /\
    count_at w' 0%nat = Some (Fin z') /\
    0 <= z' < 3.
Proof.
  apply (hidden_list_without_wrap_stays_in_range
           (world_of [WHiddenList (abc_at 1 false)] []) 0%nat (abc_at 1 false) 1
           [Increase; Increase; Increase; Decrease]).
  - reflexivity.
  - reflexivity.
  - reflexivity.
  - cbn. lia.
Defined.

(** Drawing a hidden list writes its current item at its position, in the
    colours of its selection state. *)
Lemma update_hidden_list_run w r h s :
  heap w !! r = Some (WHiddenList h) ->
  GUIHiddenList_current h = Ok s ->
  update r w =
    ({| heap := heap w;
        stdout := stdout w ++
          [Write (print_pos_text (PStr s)
                    (x (as_element (as_counter h))) (y (as_element (as_counter h)))
                    (if selected (as_element (as_counter h))
                     then sel_fore (as_element (as_counter h))
                     else unsel_fore (as_element (as_counter h)))
                    (if selected (as_element (as_counter h))
                     then sel_back (as_element (as_counter h))
                     else unsel_back (as_element (as_counter h))))];
        stdin := stdin w |}, Ok tt).
Proof.
  intros Ho Hs. unfold update. rewrite (bind_run _ _ _ _ _ (deref_Some _ _ _ Ho)).
  unfold GUIHiddenList_update. rewrite (bind_run _ _ _ _ _ (deref_Some _ _ _ Ho)).
  unfold of_outcome, bind at 1. rewrite Hs.
  unfold GUIElement_update. rewrite (bind_run _ _ _ _ _ (deref_Some _ _ _ Ho)).
  reflexivity.
Qed.

(** X7 — A hidden list with [wrap = True] cycles through its items: from
    any integer count [z], [increase()] returns, makes [current] the item
    at [(z + 1) mod len(items)] and writes it as the last thing on the
    terminal; [decrease()] does the same with [(z - 1) mod len(items)]. *)
Theorem hidden_list_with_wrap_cycles :
  forall (w : world) (r : ref) (h : GUIHiddenList) (z : Z),
    heap w !! r = Some (WHiddenList h) ->
    items h <> [] ->
    wrap h = true ->
    count (as_counter h) = Fin z ->
    let n := Z.of_nat (length (items h)) in
    let e := as_element (as_counter h) in
    let drawn s :=
      Write (print_pos_text (PStr s) (x e) (y e)
               (if selected e then sel_fore e else unsel_fore e)
               (if selected e then sel_back e else unsel_back e)) in
    (exists w' s,
        increase r w = (w', Ok tt) /\
        items h !! Z.to_nat ((z + 1) mod n) = Some s /\
        current_at w' r = Ok s /\
        stdout w' = stdout w ++ [drawn s])
    /\ (exists w' s,
        decrease r w = (w', Ok tt) /\
        items h !! Z.to_nat ((z - 1) mod n) = Some s /\
        current_at w' r = Ok s /\
        stdout w' = stdout w ++ [drawn s]).
Proof.
  intros w r h z Ho Hne Hw Hz n e drawn.
  assert (Hstep : forall z1,
             let h1 := with_counter (with_count (Fin z1)) h in
             exists w' s,
               (set_count r (Fin z1) ;; update r) w = (w', Ok tt) /\
               items h !! Z.to_nat (z1 mod n) = Some s /\
               current_at w' r = Ok s /\
               stdout w' = stdout w ++ [drawn s]).
  { intros z1 h1.
    destruct (GUIHiddenList_current_defined h1 z1 Hne eq_refl) as (s & Hs & Hlook).
    unfold set_count. rewrite (bind_run _ _ _ _ _ (modify_Some _ _ _ _ Ho)).
    set (w1 := {| heap := _ |}).
    assert (Ho1 : heap w1 !! r = Some (WHiddenList h1))
      by (subst w1; cbn; by rewrite (lookup_insert_same _ _ _ _ Ho)).
    rewrite (update_hidden_list_run w1 r h1 s Ho1 Hs).
    eexists _, s. split; [reflexivity | split; [exact Hlook | split; [| reflexivity]]].
    unfold current_at. cbn [heap]. by rewrite Ho1. }
  split.
  - destruct (Hstep (z + 1)) as (w' & s & Hrun & Hrest).
    exists w', s. split; [| exact Hrest].
    unfold increase. rewrite (bind_run _ _ _ _ _ (deref_Some _ _ _ Ho)).
    unfold GUIHiddenList_increase. rewrite (bind_run _ _ _ _ _ (deref_Some _ _ _ Ho)).
    rewrite Hz, Hw. cbn [xint_add when]. by destruct (xint_eqb _ _).
  - destruct (Hstep (z + -1)) as (w' & s & Hrun & Hrest).
    exists w', s. split; [| exact Hrest].
    unfold decrease. rewrite (bind_run _ _ _ _ _ (deref_Some _ _ _ Ho)).
    unfold GUIHiddenList_decrease. rewrite (bind_run _ _ _ _ _ (deref_Some _ _ _ Ho)).
    rewrite Hz, Hw. cbn [xint_add when]. by destruct (xint_eqb _ _).
Qed.

Lemma hidden_list_with_wrap_cycles_witness :
  let w := world_of [WHiddenList (abc_at 2 true)] [] in
  (exists w', increase 0%nat w = (w', Ok tt) /\ current_at w' 0%nat = Ok "a")
  /\ (exists w', decrease 0%nat w = (w', Ok tt) /\ current_at w' 0%nat = Ok "b").
Proof.
  intros w.
  destruct (hidden_list_with_wrap_cycles w 0%nat (abc_at 2 true) 2)
    as ((w1 & s1 & Hrun1 & Hlook1 & Hcur1 & _) & (w2 & s2 & Hrun2 & Hlook2 & Hcur2 & _)).
  - reflexivity.
  - discriminate.
  - reflexivity.
  - reflexivity.
  - injection Hlook1 as <-. injection Hlook2 as <-.
    split; [by exists w1 | by exists w2].
Defined.

Lemma max_len_covers (d : Z) (l : list string) :
  forall i, i ∈ l -> len i <= foldr Z.max d (len <$> l).
Proof.
  induction l as [| a l IH]; intros i Hi; [by apply elem_of_nil in Hi |].
  cbn. apply elem_of_cons in Hi as [-> | Hi]; [lia |].
  specialize (IH i Hi). lia.
Qed.

(** X8 — The constructor of a hidden list passes [items[0], x, y] by
    position to the constructor of the counter, so the widget built has
    [x = items[0]] and [y] = the [x] argument (the [y] argument is not
    kept); its count and its [text] are 0.  Without [max_width], the width
    stored is at least the length of every item. *)
Theorem hidden_list_constructor_positions :
  forall (first : string) (rest : list string) (px py sf sb uf ub sl : pyval) (wr : bool),
    exists h,
      GUIHiddenList_init (first :: rest) px py sf sb uf ub sl None wr = Ok h /\
      x (as_element (as_counter h)) = PStr first /\
      y (as_element (as_counter h)) = px /\
      text (as_element (as_counter h)) = PNum (Fin 0) /\
      count (as_counter h) = Fin 0 /\
      items h = first :: rest /\
      wrap h = wr /\
      (forall i, i ∈ first :: rest -> len i <= max_width h).
Proof.
  intros. eexists. split; [reflexivity |]. cbn.
  repeat split. intros i Hi.
  apply (max_len_covers (len first) (first :: rest) i Hi).
Qed.

(** X9 — [clear()] of a hidden list built without [max_width] blanks a
    width that covers every item (and at least one column, for the [text]
    0 the constructor stored), then calls the [cleanup] hook; it changes no
    object. *)
Theorem hidden_list_clear_covers_items :
  forall (w : world) (r : ref) (h : GUIHiddenList) (first : string) (rest : list string)
         (px py sf sb uf ub sl : pyval) (wr : bool),
    GUIHiddenList_init (first :: rest) px py sf sb uf ub sl None wr = Ok h ->
    heap w !! r = Some (WHiddenList h) ->
    exists n,
      clear r w =
        ({| heap := heap w;
            stdout := stdout w ++ [blanks_at (WHiddenList h) n; CallCleanup r];
            stdin := stdin w |}, Ok tt) /\
      1 <= n /\
      (forall i, i ∈ first :: rest -> len i <= n).
Proof.
  intros w r h first rest px py sf sb uf ub sl wr Hinit Ho.
  injection Hinit as <-.
  set (h := {| as_counter := _ |}) in *.
  exists (Z.max (Z.max (max_width h) (len (str (text (as_element (as_counter h))))))
            (padding (as_counter h))).
  split; [| split].
  - unfold clear. rewrite (bind_run _ _ _ _ _ (deref_Some _ _ _ Ho)).
    unfold GUIHiddenList_clear. rewrite (bind_run _ _ _ _ _ (deref_Some _ _ _ Ho)).
    unfold GUICounter_clear.
    rewrite (bind_run _ _ _ _ _ (counter_at_Some _ _ _ (as_counter h) Ho eq_refl)).
    unfold GUIElement_clear. rewrite (bind_run _ _ _ _ _ (deref_Some _ _ _ Ho)).
    unfold bind, print_pos, cleanup, emit, blanks_at. cbn [heap stdout stdin].
    by rewrite <- app_assoc.
  - assert (len (str (text (as_element (as_counter h)))) = 1) as -> by reflexivity. lia.
  - intros i Hi. pose proof (max_len_covers (len first) (first :: rest) i Hi) as Hmax.
    assert (max_width h = foldr Z.max (len first) (len <$> first :: rest)) as -> by reflexivity.
    lia.
Qed.

Lemma hidden_list_clear_covers_items_witness :
  exists h n,
    hidden_list_example ["one"; "three"; "two"] false = Ok h /\
    clear 0%nat (world_of [WHiddenList h] [])
      = ({| heap := [WHiddenList h];
            stdout := [blanks_at (WHiddenList h) n; CallCleanup 0%nat];
            stdin := [] |}, Ok tt) /\
    len "three" <= n.
Proof.
  eexists. 
  destruct (hidden_list_clear_covers_items (world_of [WHiddenList _] []) 0%nat _
              "one" ["three"; "two"] (PNum (Fin 1)) (PNum (Fin 1))
              (PStr Fore_RESET) (PStr Back_GREEN) (PStr Fore_RESET) (PStr Back_RESET)
              (PBool false) false eq_refl eq_refl) as (n & Hrun & _ & Hcover).
  exists n. split; [reflexivity | split; [exact Hrun |]].
  apply Hcover. apply elem_of_cons. right. apply elem_of_cons. by left.
Defined.

(** ** The key decoder *)

Lemma keys_values_differ : NoDup ((map_to_list keys).*2).
Proof. apply (bool_decide_unpack _). vm_compute. exact I. Qed.

Lemma NoDup_snd_inj {A B : Type} (l : list (A * B)) a1 a2 b :
  NoDup (l.*2) -> (a1, b) ∈ l -> (a2, b) ∈ l -> a1 = a2.
Proof.
  induction l as [| [a' b'] l IH]; intros Hnd H1 H2; [by apply elem_of_nil in H1 |].
  cbn in Hnd. apply NoDup_cons in Hnd as [Hnotin Hnd].
  apply elem_of_cons in H1 as [E1 | H1]; apply elem_of_cons in H2 as [E2 | H2].
  - congruence.
  - exfalso. injection E1 as -> ->. apply Hnotin.
    apply list_elem_of_fmap. by exists (a2, b').
  - exfalso. injection E2 as -> ->. apply Hnotin.
    apply list_elem_of_fmap. by exists (a1, b').
  - by apply IH.
Qed.

Lemma keys_injective k1 k2 t : keys !! k1 = Some t -> keys !! k2 = Some t -> k1 = k2.
Proof.
  intros H1 H2. apply (NoDup_snd_inj (map_to_list keys) k1 k2 t keys_values_differ);
    by apply elem_of_map_to_list.
Qed.

(** What a call of [read_key] that does not block has read: the one or two
    bytes [k], looked up in [keys]. *)
Lemma read_key_inv w w' r :
  read_key w = (w', r) -> r <> Blocked ->
  exists k,
    stdin w = k ++ stdin w' /\ heap w' = heap w /\ stdout w' = stdout w /\
    (length k = 1%nat \/ length k = 2%nat) /\
    r = match keys !! k with Some t => Ok t | None => Raise KeyError end.
Proof.
  unfold read_key, bind at 1, getch. intros Hrun Hnb.
  destruct (stdin w) as [| b rest] eqn:Hin; [injection Hrun as <- <-; done |].
  assert (Hone : keys_getitem [b]
                   {| heap := heap w; stdout := stdout w; stdin := rest |} = (w', r) ->
                 exists k, b :: rest = k ++ stdin w' /\ heap w' = heap w /\
                           stdout w' = stdout w /\
                           (length k = 1%nat \/ length k = 2%nat) /\
                           r = match keys !! k with Some t => Ok t | None => Raise KeyError end).
  { unfold keys_getitem. intros H. exists [b].
    destruct (keys !! [b]); injection H as <- <-; cbn; by repeat split; try left. }
  assert (Htwo : (let* second := getch in keys_getitem ([b] ++ second))
                   {| heap := heap w; stdout := stdout w; stdin := rest |} = (w', r) ->
                 exists k, b :: rest = k ++ stdin w' /\ heap w' = heap w /\
                           stdout w' = stdout w /\
                           (length k = 1%nat \/ length k = 2%nat) /\
                           r = match keys !! k with Some t => Ok t | None => Raise KeyError end).
  { unfold bind, getch. cbn [stdin]. intros H.
    destruct rest as [| b2 rest2]; [injection H as <- <-; done |].
    unfold keys_getitem in H. exists [b; b2]. cbn [app] in H.
    destruct (keys !! [b; b2]); injection H as <- <-; cbn; by repeat split; try right. }
  destruct (decide ([b] = [0%N])); [by apply Htwo |].
  destruct (decide ([b] = [0xe0%N])); [by apply Htwo | by apply Hone].
Qed.

(** X10 — Decoding reads exactly the bytes of one key, changes nothing else,
    and can be undone: a token returned by [read_key] stands for one byte
    sequence only, of one or two bytes, so two calls that return the same
    token have read the same bytes. *)
Theorem read_key_token_determines_bytes :
  forall (w1 w1' w2 w2' : world) (t : string),
    read_key w1 = (w1', Ok t) ->
    read_key w2 = (w2', Ok t) ->
    exists k,
      keys !! k = Some t /\
      (length k = 1%nat \/ length k = 2%nat) /\
      stdin w1 = k ++ stdin w1' /\ stdin w2 = k ++ stdin w2' /\
      heap w1' = heap w1 /\ stdout w1' = stdout w1 /\
      heap w2' = heap w2 /\ stdout w2' = stdout w2.
Proof.
  intros w1 w1' w2 w2' t H1 H2.
  destruct (read_key_inv _ _ _ H1 ltac:(discriminate)) as (k1 & Hin1 & Hh1 & Ho1 & Hl1 & Hr1).
  destruct (read_key_inv _ _ _ H2 ltac:(discriminate)) as (k2 & Hin2 & Hh2 & Ho2 & Hl2 & Hr2).
  assert (Hk1 : keys !! k1 = Some t) by (destruct (keys !! k1); congruence).
  assert (Hk2 : keys !! k2 = Some t) by (destruct (keys !! k2); congruence).
  assert (k2 = k1) as -> by (exact (keys_injective _ _ t Hk2 Hk1)).
  exists k1. repeat split; assumption.
Qed.

Lemma read_key_token_determines_bytes_witness :
  exists k,
    keys !! k = Some "up" /\
    (length k = 1%nat \/ length k = 2%nat) /\
    up_up_enter = k ++ [0xe0%N; 72%N; 13%N] /\ [0xe0%N; 72%N] = k ++ [].
Proof.
  destruct (read_key_token_determines_bytes
              (world_of [] up_up_enter) (world_of [] [0xe0%N; 72%N; 13%N])
              (world_of [] [0xe0%N; 72%N]) (world_of [] []) "up")
    as (k & Hk & Hl & Hin1 & Hin2 & _).
  - apply read_key_up. reflexivity.
  - apply read_key_up. reflexivity.
  - exists k. repeat split; assumption.
Defined.

Lemma single_byte_keys_checked :
  Forall (fun b : N => bool_decide (is_Some (keys !! [b])) = single_key b)
         (N.of_nat <$> seq 0 256).
Proof. apply (bool_decide_unpack _). vm_compute. exact I. Qed.

(** X11 — Of the single bytes other than the two prefixes, exactly
    8, 9, 10, 13, 27, 28, 29, 32..127 and 0x95 are keys.  Any other byte,
    such as the codes 1..7 of Ctrl+A .. Ctrl+G, makes [read_key] raise
    [KeyError] after having read that byte. *)
Theorem read_key_single_bytes :
  forall (w : world) (b : N) (rest : list N),
    (b < 256)%N -> b <> 0%N -> b <> 0xe0%N ->
    stdin w = b :: rest ->
    let w' := {| heap := heap w; stdout := stdout w; stdin := rest |} in
    if single_key b
    then exists t, read_key w = (w', Ok t)
    else read_key w = (w', Raise KeyError).
Proof.
  intros w b rest Hb H0 He Hin w'.
  assert (Hcheck : bool_decide (is_Some (keys !! [b])) = single_key b).
  { pose proof single_byte_keys_checked as Hall. rewrite Forall_forall in Hall.
    apply Hall. apply list_elem_of_fmap. exists (N.to_nat b). split; [lia |].
    apply elem_of_seq. lia. }
  assert (Hrun : read_key w =
                 (w', match keys !! [b] with Some t => Ok t | None => Raise KeyError end)).
  { unfold read_key, bind at 1, getch. rewrite Hin.
    destruct (decide ([b] = [0%N])) as [E | _]; [congruence |].
    destruct (decide ([b] = [0xe0%N])) as [E | _]; [congruence |].
    unfold keys_getitem. by destruct (keys !! [b]). }
  rewrite Hrun, <- Hcheck.
  destruct (keys !! [b]) as [t |] eqn:Ek.
  - rewrite bool_decide_eq_true_2 by (by exists t). by exists t.
  - rewrite bool_decide_eq_false_2; [reflexivity |]. by intros [? ?].
Qed.

Lemma read_key_single_bytes_witness :
  read_key (world_of [] [3%N; 65%N]) = (world_of [] [65%N], Raise KeyError)
  /\ exists t, read_key (world_of [] [127%N]) = (world_of [] [], Ok t).
Proof.
  split.
  - apply (read_key_single_bytes (world_of [] [3%N; 65%N]) 3 [65%N]);
      [lia | discriminate | discriminate | reflexivity].
  - apply (read_key_single_bytes (world_of [] [127%N]) 127 []);
      [lia | discriminate | discriminate | reflexivity].
Defined.

(** ** ElementList: construction, navigation, clearing *)

(** [select()] within a group: the helper behind the properties of lists
    built with [exclusive=True]. *)
Lemma select_group_run w group a :
  a ∈ group ->
  (forall m, m ∈ group ->
     exists o, heap w !! m = Some o /\ exclusive_to (element_of o) = group /\ drawable o) ->
  exists w',
    select a w = (w', Ok tt) /\
    selected_at w' a = Some true /\
    (forall m, m ∈ group -> m <> a -> selected_at w' m = Some false) /\
    reselected w w'.
Proof.
  intros Ha Hgroup.
  destruct (Hgroup a Ha) as (oa & Hoa & Hex & Hda).
  assert (Hre : reselected w (fst (select a w))) by apply reselected_select.
  unfold select in *. rewrite (bind_run _ _ _ _ _ (deref_Some _ _ _ Hoa)) in *.
  rewrite Hex in *.
  destruct (select_loop a group w) as (w1 & Hrun1 & Hd1 & _ & Hl1).
  { intros m Hm. destruct (Hgroup m Hm) as (o & Ho & _ & Hd). by exists o. }
  rewrite (bind_run _ _ _ _ _ Hrun1) in *.
  destruct (Hd1 a ltac:(by exists oa)) as (oa1 & Hoa1 & Hda1).
  destruct (set_selected_then_update w1 a oa1 true Hoa1 Hda1)
    as (w2 & Hrun2 & Ha2 & Hother & _).
  rewrite Hrun2 in Hre. exists w2.
  split; [exact Hrun2 | split; [exact Ha2 | split; [| exact Hre]]].
  intros m Hm Hne. rewrite (Hother m ltac:(congruence)). by apply Hl1.
Qed.

Lemma set_group_twice args o :
  map_element (with_exclusive_to args) (map_element (with_exclusive_to args) o)
  = map_element (with_exclusive_to args) o.
Proof. by destruct o. Qed.

(** The loop of the constructor that gives every element its group. *)
Lemma for_each_set_group args l : forall w,
  (forall r, r ∈ l -> is_Some (heap w !! r)) ->
  exists w',
    for_each l (fun element => modify element (map_element (with_exclusive_to args))) w
      = (w', Ok tt) /\
    stdout w' = stdout w /\ stdin w' = stdin w /\
    forall r o, heap w !! r = Some o ->
      heap w' !! r = Some (if bool_decide (r ∈ l)
                           then map_element (with_exclusive_to args) o else o).
Proof.
  induction l as [| a l IH]; intros w Hall.
  - exists w. repeat split; try reflexivity. intros r o Ho.
    rewrite bool_decide_eq_false_2; [exact Ho | by intros H%elem_of_nil].
  - destruct (Hall a ltac:(left)) as [oa Hoa].
    set (w1 := {| heap := <[a := map_element (with_exclusive_to args) oa]> (heap w);
                  stdout := stdout w; stdin := stdin w |}).
    destruct (IH w1) as (w2 & Hrun & Hout & Hin & Hheap).
    { intros r Hr. apply lookup_insert_is_Some, Hall. by right. }
    exists w2. cbn [for_each].
    rewrite (bind_run _ _ _ _ _ (modify_Some _ _ _ _ Hoa)).
    split; [exact Hrun | split; [exact Hout | split; [exact Hin |]]].
    intros r o Ho. destruct (decide (r = a)) as [-> | Hne].
    + rewrite Hoa in Ho. injection Ho as <-.
      rewrite (Hheap a (map_element (with_exclusive_to args) oa))
        by (by apply (lookup_insert_same _ _ _ _ Hoa)).
      rewrite (bool_decide_eq_true_2 (a ∈ a :: l)) by (by left).
      destruct (bool_decide (a ∈ l)); [by rewrite set_group_twice | reflexivity].
    + rewrite (Hheap r o) by (cbn; by rewrite list_lookup_insert_ne).
      f_equal. destruct (decide (r ∈ l)) as [Hr | Hr].
      * rewrite !bool_decide_eq_true_2; [reflexivity | by right | exact Hr].
      * rewrite !bool_decide_eq_false_2; [reflexivity | | exact Hr].
        intros [? | ?]%elem_of_cons; done.
Qed.

(** X12 — [ElementList(a, b, ..., exclusive=True)] on widgets that can be
    drawn builds the list, writes nothing, and makes the widgets one
    exclusive group: every element has the elements as its [exclusive_to],
    so that afterwards [select()] on any element returns with that element
    selected and all the other elements deselected. *)
Theorem exclusive_list_is_a_group :
  forall (args : list ref) (w : world) (d : Z) (wr : bool),
    args <> [] ->
    (forall r, r ∈ args -> drawable_at w r) ->
    exists w',
      ElementList_init (Star args) d wr true w
        = (w', Ok {| elems := args; el_wrap := wr; _current_index := d |}) /\
      stdout w' = stdout w /\
      (forall r, r ∈ args ->
         exists o, heap w' !! r = Some o /\ exclusive_to (element_of o) = args) /\
      (forall a, a ∈ args ->
         exists w'',
           select a w' = (w'', Ok tt) /\
           selected_at w'' a = Some true /\
           (forall m, m ∈ args -> m <> a -> selected_at w'' m = Some false)).
Proof.
  intros args w d wr Hne Hall.
  destruct (for_each_set_group args args w) as (w' & Hrun & Hout & Hin & Hheap).
  { intros r Hr. destruct (Hall r Hr) as (o & Ho & _). by rewrite Ho. }
  assert (Hgroup : forall m, m ∈ args ->
             exists o, heap w' !! m = Some o /\
                       exclusive_to (element_of o) = args /\ drawable o).
  { intros m Hm. destruct (Hall m Hm) as (o & Ho & Hd).
    exists (map_element (with_exclusive_to args) o).
    rewrite (Hheap m o Ho), bool_decide_eq_true_2 by exact Hm.
    split; [reflexivity | split; [by destruct o | by apply drawable_map_element]]. }
  exists w'. split; [| split; [exact Hout | split]].
  - unfold ElementList_init. destruct args as [| a args']; [done |].
    unfold bind at 1, ret at 1. cbn [when].
    rewrite (bind_run _ _ _ _ _ Hrun). reflexivity.
  - intros r Hr. destruct (Hgroup r Hr) as (o & Ho & Hex & _). by exists o.
  - intros a Ha.
    destruct (select_group_run w' args a Ha Hgroup) as (w'' & Hsel & Hsa & Hothers & _).
    by exists w''.
Qed.

Lemma exclusive_list_is_a_group_witness :
  let w := world_of [WCounter (counter_example 0 (NegInf, PosInf) true);
                     WHiddenList (abc_at 0 true)] [] in
  exists w',
    ElementList_init (Star [0%nat; 1%nat]) 0 true true w
      = (w', Ok {| elems := [0%nat; 1%nat]; el_wrap := true; _current_index := 0 |}) /\
    stdout w' = stdout w /\
    (forall r, r ∈ [0%nat; 1%nat] ->
       exists o, heap w' !! r = Some o /\ exclusive_to (element_of o) = [0%nat; 1%nat]) /\
    (forall a, a ∈ [0%nat; 1%nat] ->
       exists w'',
         select a w' = (w'', Ok tt) /\
         selected_at w'' a = Some true /\
         (forall m, m ∈ [0%nat; 1%nat] -> m <> a -> selected_at w'' m = Some false)).
Proof.
  intros w. apply (exclusive_list_is_a_group [0%nat; 1%nat] w 0 true).
  - discriminate.
  - intros r Hr.
    apply elem_of_cons in Hr as [-> | Hr];
      [| apply elem_of_cons in Hr as [-> | Hr]; [| by apply elem_of_nil in Hr]].
    + eexists. split; [reflexivity | left; reflexivity].
    + eexists. split; [reflexivity | split; [discriminate | by exists 0]].
Defined.

Lemma bind_raises {S A B : Type} (m : M S A) (k : A -> M S B) s s1 e :
  m s = (s1, Raise e) -> bind m k s = (s1, Raise e).
Proof. intros H. unfold bind. by rewrite H. Qed.

Lemma py_index_nil {A : Type} (i : Z) : py_index (@nil A) i = None.
Proof. unfold py_index. by repeat destruct (_ && _). Qed.

(** X13 — The empty list: [ElementList()] raises [IndexError];
    [ElementList([])] is built, and on it [current] raises [IndexError],
    [move_left()] and [move_right()] raise [ZeroDivisionError] and leave the
    index as it is, and the first [next] of [key_presses] raises
    [IndexError] after the [init] hook, before any key is read. *)
Theorem empty_list_raises :
  forall (w : world) (d : Z) (wr ex alr aud aesc aent cl : bool),
    let l := {| elems := []; el_wrap := wr; _current_index := d |} in
    let g := key_presses alr aud aesc aent cl in
    ElementList_init (Star []) d wr ex w = (w, Raise IndexError)
    /\ ElementList_init (Packed []) d wr ex w = (w, Ok l)
    /\ ElementList_current (l, w) = ((l, w), Raise IndexError)
    /\ move_left (l, w) = ((l, w), Raise ZeroDivisionError)
    /\ move_right (l, w) = ((l, w), Raise ZeroDivisionError)
    /\ next g (l, w) =
         (with_pc Finished g,
          (l, {| heap := heap w; stdout := stdout w ++ [CallListInit]; stdin := stdin w |}),
          Raise IndexError).
Proof.
  intros w d wr ex alr aud aesc aent cl l g.
  assert (Hcur : forall w0, ElementList_current (l, w0) = ((l, w0), Raise IndexError)).
  { intros w0. unfold ElementList_current, bind, get_self. cbn [fst elems l].
    by rewrite py_index_nil. }
  split; [reflexivity |]. split; [by destruct ex |].
  split; [apply Hcur |]. split; [reflexivity |]. split; [reflexivity |].
  unfold next, resume. cbn [pc g key_presses].
  set (wa := {| heap := heap w; stdout := stdout w ++ [CallListInit]; stdin := stdin w |}).
  assert (Hinit : init (l, w) = ((l, wa), Ok tt)) by reflexivity.
  assert (Hpro : prologue (l, w) = ((l, wa), Raise IndexError)).
  { unfold prologue. rewrite (bind_run _ _ _ _ _ Hinit).
    apply bind_raises, bind_raises, Hcur. }
  by rewrite (bind_raises _ _ _ _ _ Hpro).
Qed.

(** ** Navigation *)

Lemma py_index_in_range {A : Type} (l : list A) (i : Z) :
  0 <= i < Z.of_nat (length l) -> py_index l i = l !! Z.to_nat i.
Proof.
  intros Hi. unfold py_index.
  destruct (Z.leb_spec 0 i); [| lia]. destruct (Z.ltb_spec i (Z.of_nat (length l))); [| lia].
  reflexivity.
Qed.

Lemma mod_len_run l w a :
  elems l <> [] -> mod_len a (l, w) = ((l, w), Ok (a mod Z.of_nat (length (elems l)))).
Proof.
  intros Hne. unfold mod_len, bind, get_self. cbn [fst].
  by destruct (elems l).
Qed.

(** A move by [d] ([-1] for [move_left], [+1] for [move_right]): the index
    is set, then the widget found there is selected. *)
Lemma move_run l w (i' : Z) r w' res (m : M lstate unit) :
  (m = (let* self := get_self in
        let* i := mod_len i' in
        set_current_index i ;;
        let* current := ElementList_current in lift (select current))) ->
  elems l <> [] ->
  elems l !! Z.to_nat (i' mod Z.of_nat (length (elems l))) = Some r ->
  select r w = (w', res) ->
  m (l, w) = ((with_current_index (i' mod Z.of_nat (length (elems l))) l, w'), res).
Proof.
  intros -> Hne Hr Hsel.
  unfold bind at 1, get_self. cbn [fst].
  rewrite (bind_run _ _ _ _ _ (mod_len_run l w i' Hne)).
  unfold bind at 1, set_current_index. cbn [fst snd].
  set (l' := with_current_index _ l).
  assert (Hcur : ElementList_current (l', w) = ((l', w), Ok r)).
  { apply current_run. subst l'. cbn [elems _current_index with_current_index].
    rewrite py_index_in_range; [exact Hr |].
    apply Z.mod_pos_bound. destruct (elems l); [done | cbn [length]; lia]. }
  rewrite (bind_run _ _ _ _ _ Hcur). by apply lift_run.
Qed.

Lemma move_left_run l w r w' res :
  elems l <> [] ->
  elems l !! Z.to_nat ((_current_index l - 1) mod Z.of_nat (length (elems l))) = Some r ->
  select r w = (w', res) ->
  move_left (l, w)
  = ((with_current_index ((_current_index l - 1) mod Z.of_nat (length (elems l))) l, w'), res).
Proof.
  intros Hne Hr Hsel.
  pose proof (move_run l w (_current_index l - 1) r w' res
                (let* self := get_self in
                 let* i := mod_len (_current_index l - 1) in
                 set_current_index i ;;
                 let* current := ElementList_current in lift (select current))
                eq_refl Hne Hr Hsel) as H.
  unfold move_left. unfold bind at 1, get_self. cbn [fst].
  unfold bind at 1, get_self in H. cbn [fst] in H. exact H.
Qed.

Lemma move_right_run l w r w' res :
  elems l <> [] ->
  elems l !! Z.to_nat ((_current_index l + 1) mod Z.of_nat (length (elems l))) = Some r ->
  select r w = (w', res) ->
  move_right (l, w)
  = ((with_current_index ((_current_index l + 1) mod Z.of_nat (length (elems l))) l, w'), res).
Proof.
  intros Hne Hr Hsel.
  pose proof (move_run l w (_current_index l + 1) r w' res
                (let* self := get_self in
                 let* i := mod_len (_current_index l + 1) in
                 set_current_index i ;;
                 let* current := ElementList_current in lift (select current))
                eq_refl Hne Hr Hsel) as H.
  unfold move_right. unfold bind at 1, get_self. cbn [fst].
  unfold bind at 1, get_self in H. cbn [fst] in H. exact H.
Qed.

Lemma lookup_mod {A : Type} (l : list A) (i : Z) :
  l <> [] -> is_Some (l !! Z.to_nat (i mod Z.of_nat (length l))).
Proof.
  intros Hne. apply lookup_lt_is_Some.
  assert (0 < Z.of_nat (length l)) by (destruct l; [done | cbn [length]; lia]).
  pose proof (Z.mod_pos_bound i (Z.of_nat (length l))). lia.
Qed.

Lemma move_left_state l w :
  elems l <> [] ->
  fst (fst (move_left (l, w)))
  = with_current_index ((_current_index l - 1) mod Z.of_nat (length (elems l))) l.
Proof.
  intros Hne. destruct (lookup_mod (elems l) (_current_index l - 1) Hne) as [r Hr].
  destruct (select r w) as [w' res] eqn:Hsel.
  by rewrite (move_left_run l w r w' res Hne Hr Hsel).
Qed.

Lemma move_right_state l w :
  elems l <> [] ->
  fst (fst (move_right (l, w)))
  = with_current_index ((_current_index l + 1) mod Z.of_nat (length (elems l))) l.
Proof.
  intros Hne. destruct (lookup_mod (elems l) (_current_index l + 1) Hne) as [r Hr].
  destruct (select r w) as [w' res] eqn:Hsel.
  by rewrite (move_right_run l w r w' res Hne Hr Hsel).
Qed.

(** X14 — On a list of [n >= 1] elements, a move leaves an index in
    [[0, n)], so that [current] is defined afterwards, and [move_right()]
    after [move_left()] (or the other way round) is back at the index
    [i mod n] it started from, whatever the selections did. *)
Theorem moves_are_inverse :
  forall (l : ElementList) (w w' : world),
    elems l <> [] ->
    let n := Z.of_nat (length (elems l)) in
    let left := fst (fst (move_left (l, w))) in
    let right := fst (fst (move_right (l, w))) in
    0 <= _current_index left < n
    /\ 0 <= _current_index right < n
    /\ (exists r, ElementList_current (left, w') = ((left, w'), Ok r) /\ r ∈ elems l)
    /\ _current_index (fst (fst (move_right (left, w')))) = _current_index l mod n
    /\ _current_index (fst (fst (move_left (right, w')))) = _current_index l mod n.
Proof.
  intros l w w' Hne n left right. subst left right.
  rewrite (move_left_state l w Hne), (move_right_state l w Hne). fold n.
  assert (Hn : 0 < n) by (subst n; destruct (elems l); [done | cbn [length]; lia]).
  cbn [_current_index with_current_index].
  split; [by apply Z.mod_pos_bound |]. split; [by apply Z.mod_pos_bound |].
  split; [| split].
  - destruct (lookup_mod (elems l) (_current_index l - 1) Hne) as [r Hr]. fold n in Hr.
    exists r. split; [| by eapply list_elem_of_lookup_2].
    apply current_run. cbn [elems _current_index with_current_index].
    rewrite py_index_in_range; [exact Hr | by apply Z.mod_pos_bound].
  - rewrite move_right_state by done.
    cbn [_current_index with_current_index elems]. fold n.
    rewrite Zplus_mod_idemp_l. f_equal. lia.
  - rewrite move_left_state by done.
    cbn [_current_index with_current_index elems]. fold n.
    rewrite Zminus_mod_idemp_l. f_equal. lia.
Qed.

Lemma moves_are_inverse_witness :
  let l := fst (two_counters []) in
  let w := snd (two_counters []) in
  _current_index (fst (fst (move_left (l, w)))) = 1
  /\ _current_index (fst (fst (move_right (fst (fst (move_left (l, w))), w)))) = 0.
Proof.
  intros l w.
  destruct (moves_are_inverse l w w) as (_ & _ & _ & Hback & _).
  - discriminate.
  - split; [reflexivity | exact Hback].
Defined.

(** X15 — Navigation moves the selection: on a list built with
    [exclusive=True] (every element has the elements as its [exclusive_to])
    whose widgets can be drawn, [move_left()] returns, the index is
    [(i - 1) mod n], the widget at that index is selected and every other
    element is deselected; [move_right()] likewise with [(i + 1) mod n]. *)
Theorem moves_select_the_current :
  forall (l : ElementList) (w : world),
    elems l <> [] ->
    (forall m, m ∈ elems l ->
       exists o, heap w !! m = Some o /\
                 exclusive_to (element_of o) = elems l /\ drawable o) ->
    let n := Z.of_nat (length (elems l)) in
    (exists r w',
        move_left (l, w)
          = ((with_current_index ((_current_index l - 1) mod n) l, w'), Ok tt) /\
        elems l !! Z.to_nat ((_current_index l - 1) mod n) = Some r /\
        selected_at w' r = Some true /\
        (forall m, m ∈ elems l -> m <> r -> selected_at w' m = Some false))
    /\ (exists r w',
        move_right (l, w)
          = ((with_current_index ((_current_index l + 1) mod n) l, w'), Ok tt) /\
        elems l !! Z.to_nat ((_current_index l + 1) mod n) = Some r /\
        selected_at w' r = Some true /\
        (forall m, m ∈ elems l -> m <> r -> selected_at w' m = Some false)).
Proof.
  intros l w Hne Hgroup n. split.
  - destruct (lookup_mod (elems l) (_current_index l - 1) Hne) as [r Hr].
    destruct (select_group_run w (elems l) r (list_elem_of_lookup_2 _ _ _ Hr) Hgroup)
      as (w' & Hsel & Hsr & Hothers & _).
    exists r, w'. split; [by apply (move_left_run l w r w' (Ok tt)) | by repeat split].
  - destruct (lookup_mod (elems l) (_current_index l + 1) Hne) as [r Hr].
    destruct (select_group_run w (elems l) r (list_elem_of_lookup_2 _ _ _ Hr) Hgroup)
      as (w' & Hsel & Hsr & Hothers & _).
    exists r, w'. split; [by apply (move_right_run l w r w' (Ok tt)) | by repeat split].
Qed.

Lemma moves_select_the_current_witness :
  let l := {| elems := [0%nat; 1%nat; 2%nat]; el_wrap := false; _current_index := 0 |} in
  exists w',
    move_left (l, three_widgets) = ((with_current_index 2 l, w'), Ok tt) /\
    selected_at w' 2%nat = Some true /\
    selected_at w' 0%nat = Some false /\
    selected_at w' 1%nat = Some false.
Proof.
  intros l.
  destruct (moves_select_the_current l three_widgets) as ((r & w' & Hrun & Hr & Hsel & Hrest) & _).
  - discriminate.
  - intros m Hm.
    apply elem_of_cons in Hm as [-> | Hm]; [| apply elem_of_cons in Hm as [-> | Hm]];
      [| | apply elem_of_cons in Hm as [-> | Hm]; [| by apply elem_of_nil in Hm]];
      (eexists; split; [reflexivity | split; [reflexivity | exact I]]).
  - injection Hr as <-. exists w'.
    split; [exact Hrun | split; [exact Hsel | split]].
    + apply Hrest; [| discriminate]. apply elem_of_cons. by left.
    + apply Hrest; [| discriminate]. apply elem_of_cons. right. apply elem_of_cons. by left.
Defined.

(** ** The setter of current *)

Lemma list_index_Some value l i :
  list_index value l = Some i ->
  l !! i = Some value /\ forall j, (j < i)%nat -> l !! j <> Some value.
Proof.
  revert i. induction l as [| a l IH]; intros i H; [discriminate |].
  cbn in H. destruct (Nat.eqb_spec a value) as [-> | Hne].
  - injection H as <-. split; [reflexivity | lia].
  - destruct (list_index value l) as [i' |]; [| discriminate]. injection H as <-.
    destruct (IH i' eq_refl) as [Hl Hfirst]. split; [exact Hl |].
    intros [| j] Hj; cbn; [congruence | apply Hfirst; lia].
Qed.

Lemma list_index_None value l : list_index value l = None -> value ∉ l.
Proof.
  induction l as [| a l IH]; intros H; [by intros ?%elem_of_nil |].
  cbn in H. destruct (Nat.eqb_spec a value) as [-> | Hne]; [discriminate |].
  destruct (list_index value l); [discriminate |].
  intros [? | ?]%elem_of_cons; [congruence | by apply IH].
Qed.

(** X16 — Setting [current] to a widget of the list and reading it back
    gives that widget: the index becomes its first position.  Setting it to
    a widget that is not in the list raises [ValueError] and leaves the
    index as it was. *)
Theorem current_set_then_get :
  forall (l : ElementList) (w : world) (value : ref),
    (value ∈ elems l ->
       exists i : nat,
         ElementList_set_current value (l, w)
           = ((with_current_index (Z.of_nat i) l, w), Ok tt) /\
         elems l !! i = Some value /\
         (forall j, (j < i)%nat -> elems l !! j <> Some value) /\
         (ElementList_set_current value ;; ElementList_current) (l, w)
           = ((with_current_index (Z.of_nat i) l, w), Ok value))
    /\ (value ∉ elems l ->
        ElementList_set_current value (l, w) = ((l, w), Raise ValueError)).
Proof.
  intros l w value.
  destruct (list_index value (elems l)) as [i |] eqn:E.
  - destruct (list_index_Some _ _ _ E) as [Hl Hfirst].
    assert (Hset : ElementList_set_current value (l, w)
                   = ((with_current_index (Z.of_nat i) l, w), Ok tt)).
    { unfold ElementList_set_current, bind, get_self. cbn [fst]. by rewrite E. }
    split; [| intros Hnot; by apply list_elem_of_lookup_2 in Hl].
    intros _. exists i.
    split; [exact Hset | split; [exact Hl | split; [exact Hfirst |]]].
    rewrite (bind_run _ _ _ _ _ Hset).
    apply current_run. cbn [elems _current_index with_current_index].
    rewrite py_index_in_range, Nat2Z.id; [exact Hl |].
    apply lookup_lt_Some in Hl. lia.
  - split; [intros Hin; by apply list_index_None in E |].
    intros _. unfold ElementList_set_current, bind, get_self. cbn [fst]. by rewrite E.
Qed.

Lemma current_set_then_get_witness :
  let l := {| elems := [4%nat; 7%nat; 4%nat]; el_wrap := true; _current_index := 2 |} in
  let w := world_of [] [] in
  (exists i : nat,
      (ElementList_set_current 4%nat ;; ElementList_current) (l, w)
        = ((with_current_index (Z.of_nat i) l, w), Ok 4%nat) /\
      [4%nat; 7%nat; 4%nat] !! i = Some 4%nat /\
      (forall j, (j < i)%nat -> [4%nat; 7%nat; 4%nat] !! j <> Some 4%nat))
  /\ ElementList_set_current 5%nat (l, w) = ((l, w), Raise ValueError).
Proof.
  intros l w.
  destruct (current_set_then_get l w 4%nat) as [Hin _].
  destruct (current_set_then_get l w 5%nat) as [_ Hout].
  split.
  - destruct Hin as (i & _ & Hl & Hfirst & Hget); [by left |].
    exists i. split; [exact Hget | split; [exact Hl | exact Hfirst]].
  - apply Hout. intros H.
    repeat (apply elem_of_cons in H as [H | H]; [discriminate H |]).
    by apply elem_of_nil in H.
Defined.

(** ** Clearing everything *)

Lemma hook_calls_app a b : hook_calls (a ++ b) = hook_calls a ++ hook_calls b.
Proof. unfold hook_calls. apply List.filter_app. Qed.

Lemma for_each_clear_hooks l : forall w,
  (forall r, r ∈ l -> is_Some (heap w !! r)) ->
  exists evs,
    for_each l clear w
      = ({| heap := heap w; stdout := stdout w ++ evs; stdin := stdin w |}, Ok tt) /\
    hook_calls evs = CallCleanup <$> l /\
    length evs = (2 * length l)%nat.
Proof.
  induction l as [| r l IH]; intros w Hall.
  - exists []. split; [| by split]. cbn. destruct w. cbn. by rewrite app_nil_r.
  - destruct (Hall r ltac:(left)) as [o Ho].
    destruct (clear_run w r o Ho) as (n & Hc).
    destruct (IH {| heap := heap w;
                    stdout := stdout w ++
                      [Write (print_pos_text (PStr (repeat_char " " n))
                                (x (element_of o)) (y (element_of o)) Fore_RESET Back_RESET);
                       CallCleanup r];
                    stdin := stdin w |}) as (evs & Hrun & Hhooks & Hlen).
    { intros m Hm. cbn. apply Hall. by right. }
    eexists (_ :: _ :: evs). cbn [for_each]. rewrite (bind_run _ _ _ _ _ Hc), Hrun.
    cbn [heap stdout stdin]. split; [by rewrite <- app_assoc | split].
    + cbn. by rewrite <- Hhooks.
    + cbn [length]. lia.
Qed.



(** ** The key loop: options, errors, keyboard *)

Lemma next_raises g s s' e :
  resume g s = (s', Raise e) -> next g s = (with_pc Finished g, s', Raise e).
Proof. intros H. unfold next. by rewrite H. Qed.

Lemma draws_blocked_read w :
  heap (fst (read_key w)) = heap w /\ stdout (fst (read_key w)) = stdout w.
Proof.
  unfold read_key, bind, getch, keys_getitem.
  destruct (stdin w) as [| b [| b2 rest]]; [done | |];
    repeat (match goal with
            | |- context [if ?c then _ else _] => destruct c
            | |- context [match keys !! ?k with _ => _ end] => destruct (keys !! k)
            end; cbn [stdin heap stdout fst]);
    split; reflexivity.
Qed.

(** X18 — With none of the four [auto_...] options, a resumed generator
    only decodes: [next] changes neither the list, nor a widget, nor the
    terminal, it never ends the sequence (not on "enter", not on "esc"),
    and a key it yields is the token of the one or two bytes it has read. *)
Theorem plain_loop_only_decodes :
  forall (g : generator) (s : lstate),
    pc g = AtYield ->
    auto_left_right g = false -> auto_up_down g = false ->
    auto_esc g = false -> auto_enter g = false ->
    let s' := snd (fst (next g s)) in
    let r := snd (next g s) in
    fst s' = fst s /\ heap (snd s') = heap (snd s) /\ stdout (snd s') = stdout (snd s)
    /\ r <> Ok None
    /\ (forall key, r = Ok (Some key) ->
          exists k, keys !! k = Some key /\ stdin (snd s) = k ++ stdin (snd s')).
Proof.
  intros g [l w] Hpc Hlr Hud Hesc Hent s' r. subst s' r.
  assert (Hbody : loop_body g (l, w)
                  = match read_key w with
                    | (w', Ok key) => ((l, w'), Ok (Some key))
                    | (w', Raise e) => ((l, w'), Raise e)
                    | (w', Blocked) => ((l, w'), Blocked)
                    end).
  { unfold loop_body. rewrite Hlr, Hud, Hesc, Hent. cbn [when andb].
    unfold bind, lift, ret. cbn [snd fst]. by destruct (read_key w) as [w' [key | e |]]. }
  assert (Hnext : next g (l, w)
                  = match read_key w with
                    | (w', Ok key) => (with_pc AtYield g, (l, w'), Ok (Some key))
                    | (w', Raise e) => (with_pc Finished g, (l, w'), Raise e)
                    | (w', Blocked) => (g, (l, w'), Blocked)
                    end).
  { unfold next, resume. rewrite Hpc. unfold bind at 1. rewrite Hbody.
    by destruct (read_key w) as [w' [key | e |]]. }
  rewrite Hnext. clear Hnext Hbody.
  destruct (read_key w) as [w' [key | e |]] eqn:Hread; cbn [fst snd].
  - destruct (read_key_inv _ _ _ Hread ltac:(discriminate)) as (k & Hin & Hh & Ho & _ & Hr).
    split; [reflexivity |]. split; [exact Hh |]. split; [exact Ho |].
    split; [discriminate |].
    intros key' Hkey. injection Hkey as <-. exists k. split; [| exact Hin].
    destruct (keys !! k); congruence.
  - destruct (read_key_inv _ _ _ Hread ltac:(discriminate)) as (k & Hin & Hh & Ho & _).
    split; [reflexivity |]. split; [exact Hh |]. split; [exact Ho |].
    split; discriminate.
  - assert (heap w' = heap w /\ stdout w' = stdout w) as [Hh Ho].
    { pose proof (draws_blocked_read w) as H. rewrite Hread in H. exact H. }
    split; [reflexivity |]. split; [exact Hh |]. split; [exact Ho |].
    split; discriminate.
Qed.

Lemma plain_loop_only_decodes_witness :
  let g := with_pc AtYield (key_presses false false false false true) in
  let s := two_counters [13%N; 27%N] in
  next g s = (g, two_counters [27%N], Ok (Some "enter"))
  /\ exists k, keys !! k = Some "enter" /\ [13%N; 27%N] = k ++ [27%N].
Proof.
  intros g s.
  assert (Hnext : next g s = (g, two_counters [27%N], Ok (Some "enter")))
    by (vm_compute; reflexivity).
  split; [exact Hnext |].
  destruct (plain_loop_only_decodes g s eq_refl eq_refl eq_refl eq_refl eq_refl)
    as (_ & _ & _ & _ & Hkey).
  rewrite Hnext in Hkey. exact (Hkey "enter" eq_refl).
Defined.

Lemma keys_esc : keys !! [27%N] = Some "esc".
Proof. vm_compute. reflexivity. Qed.

Lemma read_key_single w b rest :
  b <> 0%N -> b <> 0xe0%N -> stdin w = b :: rest ->
  read_key w =
    ({| heap := heap w; stdout := stdout w; stdin := rest |},
     match keys !! [b] with Some t => Ok t | None => Raise KeyError end).
Proof.
  intros H0 He Hin. unfold read_key, bind at 1, getch. rewrite Hin.
  destruct (decide ([b] = [0%N])) as [E | _]; [congruence |].
  destruct (decide ([b] = [0xe0%N])) as [E | _]; [congruence |].
  unfold keys_getitem. by destruct (keys !! [b]).
Qed.

(** X19 — With [auto_esc], the key "esc" makes [next] raise [SystemExit]:
    the byte is read, no handler runs, and nothing is cleared even when
    [clean] is set; the generator is finished. *)
Theorem esc_exits_without_cleaning :
  forall (g : generator) (l : ElementList) (w : world) (rest : list N),
    pc g = AtYield ->
    auto_esc g = true ->
    stdin w = 27%N :: rest ->
    next g (l, w) =
      (with_pc Finished g,
       (l, {| heap := heap w; stdout := stdout w; stdin := rest |}),
       Raise SystemExit).
Proof.
  intros g l w rest Hpc Hesc Hin.
  apply next_raises. unfold resume. rewrite Hpc.
  apply bind_raises. unfold loop_body.
  assert (Hread : read_key w
                  = ({| heap := heap w; stdout := stdout w; stdin := rest |}, Ok "esc")).
  { rewrite (read_key_single w 27 rest) by (done || discriminate). by rewrite keys_esc. }
  rewrite (bind_run _ _ _ _ _ (lift_run _ l _ _ _ Hread)), Hesc.
  change (key_in "esc" "left" "a") with false.
  change (key_in "esc" "right" "d") with false.
  change (key_in "esc" "up" "w") with false.
  change (key_in "esc" "down" "s") with false.
  change (String.eqb "esc" "esc") with true. cbn [andb when].
  by destruct (auto_left_right g), (auto_up_down g).
Qed.

Lemma esc_exits_without_cleaning_witness :
  let g := with_pc AtYield (key_presses true true true true true) in
  next g (two_counters [27%N; 13%N])
  = (with_pc Finished g, two_counters [13%N], Raise SystemExit).
Proof.
  intros g.
  apply (esc_exits_without_cleaning g (fst (two_counters [27%N; 13%N]))
           (snd (two_counters [27%N; 13%N])) [13%N]); reflexivity.
Defined.

(** X20 — A byte that is no key (not a prefix and not in [keys]) makes
    [next] raise [KeyError]: the byte is read, no handler runs, nothing is
    cleared even when [clean] is set, and the generator is finished, so
    that the following [next] is [StopIteration] and reads nothing. *)
Theorem unknown_key_ends_the_generator :
  forall (g : generator) (l : ElementList) (w : world) (b : N) (rest : list N),
    pc g = AtYield ->
    b <> 0%N -> b <> 0xe0%N ->
    keys !! [b] = None ->
    stdin w = b :: rest ->
    let s' := (l, {| heap := heap w; stdout := stdout w; stdin := rest |}) in
    next g (l, w) = (with_pc Finished g, s', Raise KeyError)
    /\ next (with_pc Finished g) s' = (with_pc Finished g, s', Ok None).
Proof.
  intros g l w b rest Hpc H0 He Hk Hin s'. split; [| reflexivity].
  apply next_raises. unfold resume. rewrite Hpc.
  apply bind_raises. unfold loop_body. apply bind_raises, lift_run.
  by rewrite (read_key_single w b rest H0 He Hin), Hk.
Qed.

Lemma unknown_key_ends_the_generator_witness :
  let g := with_pc AtYield (key_presses true true true true true) in
  next g (two_counters [3%N; 13%N])
    = (with_pc Finished g, two_counters [13%N], Raise KeyError)
  /\ next (with_pc Finished g) (two_counters [13%N])
    = (with_pc Finished g, two_counters [13%N], Ok None).
Proof.
  intros g.
  apply (unknown_key_ends_the_generator g (fst (two_counters [3%N; 13%N]))
           (snd (two_counters [3%N; 13%N])) 3 [13%N]);
    [reflexivity | discriminate | discriminate | vm_compute; reflexivity | reflexivity].
Defined.

(** ** The keyboard is read by the decoder only *)

Lemma keeps_keyboard_refl w : keeps_keyboard w w.
Proof. reflexivity. Qed.

Lemma keeps_keyboard_trans a b c :
  keeps_keyboard a b -> keeps_keyboard b c -> keeps_keyboard a c.
Proof. unfold keeps_keyboard. congruence. Qed.

Lemma keeps_keyboard_of_refl s : keeps_keyboard_of s s.
Proof. reflexivity. Qed.

Lemma keeps_keyboard_of_trans a b c :
  keeps_keyboard_of a b -> keeps_keyboard_of b c -> keeps_keyboard_of a c.
Proof. unfold keeps_keyboard_of. congruence. Qed.

#[local] Hint Resolve keeps_keyboard_refl keeps_keyboard_trans
  keeps_keyboard_of_refl keeps_keyboard_of_trans : footprint.

Lemma draws_keeps_keyboard a b : draws a b -> keeps_keyboard a b.
Proof. by intros (_ & H & _). Qed.

Lemma keeps_keyboard_deref r : respects keeps_keyboard (deref r).
Proof. apply (respects_weaken draws); [apply draws_keeps_keyboard | apply draws_deref]. Qed.

Lemma keeps_keyboard_update r : respects keeps_keyboard (update r).
Proof. apply (respects_weaken draws); [apply draws_keeps_keyboard | apply draws_update]. Qed.

Lemma keeps_keyboard_clear r : respects keeps_keyboard (clear r).
Proof. apply (respects_weaken draws); [apply draws_keeps_keyboard | apply draws_clear]. Qed.

Lemma keeps_keyboard_emit e : respects keeps_keyboard (emit e).
Proof. intros w. reflexivity. Qed.

Lemma keeps_keyboard_store r o : respects keeps_keyboard (store r o).
Proof. intros w. reflexivity. Qed.

Ltac keyboard :=
  footprint_by ltac:(first [ apply keeps_keyboard_deref | apply keeps_keyboard_emit
                           | apply keeps_keyboard_update | apply keeps_keyboard_store ]).

Lemma keeps_keyboard_modify r f : respects keeps_keyboard (modify r f).
Proof. unfold modify. keyboard. Qed.

Lemma keeps_keyboard_select r : respects keeps_keyboard (select r).
Proof. unfold select, deselect. keyboard; apply keeps_keyboard_modify. Qed.

Lemma keeps_keyboard_increase r : respects keeps_keyboard (increase r).
Proof.
  unfold increase, GUICounter_increase, GUIHiddenList_increase, counter_at, set_count.
  keyboard; apply keeps_keyboard_modify.
Qed.

Lemma keeps_keyboard_decrease r : respects keeps_keyboard (decrease r).
Proof.
  unfold decrease, GUICounter_decrease, GUIHiddenList_decrease, counter_at, set_count.
  keyboard; apply keeps_keyboard_modify.
Qed.

Lemma keeps_keyboard_lift {A : Type} (m : M world A) :
  respects keeps_keyboard m -> respects keeps_keyboard_of (lift m).
Proof.
  intros Hm [l w]. unfold lift, keeps_keyboard_of. cbn [snd fst]. specialize (Hm w).
  by destruct (m w) as [w' r].
Qed.

Lemma keeps_keyboard_get_self : respects keeps_keyboard_of get_self.
Proof. intros s. reflexivity. Qed.

Lemma keeps_keyboard_set_current_index i : respects keeps_keyboard_of (set_current_index i).
Proof. intros s. reflexivity. Qed.

Ltac keyboard_of_list :=
  footprint_by ltac:(first [ apply keeps_keyboard_get_self
                           | apply keeps_keyboard_set_current_index
                           | apply keeps_keyboard_lift;
                             first [ apply keeps_keyboard_select
                                   | apply keeps_keyboard_increase
                                   | apply keeps_keyboard_decrease
                                   | apply keeps_keyboard_emit
                                   | apply respects_for_each;
                                     [ apply keeps_keyboard_refl
                                     | apply keeps_keyboard_trans
                                     | intros;
                                       first [ apply keeps_keyboard_update
                                             | apply keeps_keyboard_clear ] ] ] ]).

Lemma keeps_keyboard_move_left : respects keeps_keyboard_of move_left.
Proof. unfold move_left, mod_len, ElementList_current. keyboard_of_list. Qed.

Lemma keeps_keyboard_move_right : respects keeps_keyboard_of move_right.
Proof. unfold move_right, mod_len, ElementList_current. keyboard_of_list. Qed.

Lemma keeps_keyboard_prologue : respects keeps_keyboard_of prologue.
Proof. unfold prologue, init, ElementList_current. keyboard_of_list. Qed.

Lemma keeps_keyboard_clear_all : respects keeps_keyboard_of clear_all.
Proof. unfold clear_all, ElementList_cleanup. keyboard_of_list. Qed.

(** A pass of the loop that yields has read a key, and what follows the
    decoding has not touched the keyboard. *)
Lemma loop_body_yield_inv g s s' key :
  loop_body g s = (s', Ok (Some key)) ->
  exists w1 key1,
    read_key (snd s) = (w1, Ok key1) /\ stdin (snd s') = stdin w1.
Proof.
  unfold loop_body. intros H.
  apply bind_Ok_inv in H as (s1 & key1 & Hread & Hrest).
  apply lift_inv in Hread as [_ Hread].
  exists (snd s1), key1. split; [exact Hread |].
  match type of Hrest with
  | ?m s1 = _ =>
      assert (Hkeep : respects keeps_keyboard_of m);
      [| specialize (Hkeep s1); by rewrite Hrest in Hkeep]
  end.
  unfold ElementList_current.
  keyboard_of_list; first [apply keeps_keyboard_move_left | apply keeps_keyboard_move_right].
Qed.

Lemma read_key_shortens w w' key :
  read_key w = (w', Ok key) -> (length (stdin w') < length (stdin w))%nat.
Proof.
  intros H. destruct (read_key_inv _ _ _ H ltac:(discriminate)) as (k & Hin & _ & _ & Hl & _).
  rewrite Hin, length_app. lia.
Qed.

Lemma next_yield_shortens g s g' s' key :
  next g s = (g', s', Ok (Some key)) ->
  (length (stdin (snd s')) < length (stdin (snd s)))%nat.
Proof.
  unfold next. destruct (resume g s) as [s1 [[k |] | e |]] eqn:Hres; try discriminate.
  intros [= <- <- <-]. unfold resume in Hres.
  assert (Hiter : forall sa,
             (let* r := loop_body g in
              match r with
              | Some key => ret (Some key)
              | None => epilogue g ;; ret None
              end) sa = (s1, Ok (Some k)) ->
             (length (stdin (snd s1)) < length (stdin (snd sa)))%nat).
  { intros sa H. apply bind_Ok_inv in H as (sb & [kb |] & Hbody & Hret).
    - injection Hret as <- <-.
      destruct (loop_body_yield_inv _ _ _ _ Hbody) as (w1 & key1 & Hread & ->).
      by apply (read_key_shortens _ _ key1).
    - apply bind_Ok_inv in Hret as (sc & [] & _ & Hret). discriminate Hret. }
  destruct (pc g).
  - apply bind_Ok_inv in Hres as (sa & [] & Hpro & Hres).
    pose proof (keeps_keyboard_prologue s) as Hk. rewrite Hpro in Hk.
    unfold keeps_keyboard_of in Hk. cbn [fst] in Hk. rewrite <- Hk. by apply Hiter.
  - by apply Hiter.
  - discriminate Hres.
Qed.

Lemma collect_within fuel : forall g s,
  (length (stdin (snd s)) < fuel)%nat ->
  exists g' s' r,
    collect fuel g s = Some (g', s', r) /\
    forall ks, r = Ok ks -> (length ks <= length (stdin (snd s)))%nat.
Proof.
  induction fuel as [| fuel IH]; intros g s Hlt; [lia |].
  cbn [collect]. destruct (next g s) as [[g1 s1] [[key |] | e |]] eqn:Hnext.
  - pose proof (next_yield_shortens _ _ _ _ _ Hnext) as Hshort.
    destruct (IH g1 s1 ltac:(lia)) as (g2 & s2 & r & Hrun & Hlen).
    rewrite Hrun. destruct r as [ks | e |].
    + eexists _, _, _. split; [reflexivity |].
      intros ks' [= <-]. specialize (Hlen ks eq_refl). cbn [length]. lia.
    + eexists _, _, _. split; [reflexivity | discriminate].
    + eexists _, _, _. split; [reflexivity | discriminate].
  - eexists _, _, _. split; [reflexivity |]. intros ks [= <-]. cbn. lia.
  - eexists _, _, _. split; [reflexivity | discriminate].
  - eexists _, _, _. split; [reflexivity | discriminate].
Qed.


(** ** The key loop: arrows and letters *)

Lemma loop_body_after_key g l w w1 key :
  read_key w = (w1, Ok key) ->
  loop_body g (l, w)
  = after_key g (key_in key "left" "a") (key_in key "right" "d")
      (key_in key "up" "w") (key_in key "down" "s")
      (String.eqb key "esc") (String.eqb key "enter") key (l, w1).
Proof.
  intros Hread. unfold loop_body.
  by rewrite (bind_run _ _ _ _ _ (lift_run _ l _ _ _ Hread)).
Qed.

(** The key itself is used for the value yielded only. *)
Lemma after_key_token g b1 b2 b3 b4 b5 k1 k2 s :
  fst (after_key g b1 b2 b3 b4 b5 false k2 s) = fst (after_key g b1 b2 b3 b4 b5 false k1 s)
  /\ snd (after_key g b1 b2 b3 b4 b5 false k2 s)
     = yielding k2 (snd (after_key g b1 b2 b3 b4 b5 false k1 s))
  /\ snd (after_key g b1 b2 b3 b4 b5 false k1 s) <> Ok None.
Proof.
  unfold after_key. rewrite andb_false_r. unfold bind.
  destruct (when (auto_left_right g) _ s) as [s1 [[] | e |]].
  2, 3: cbn; repeat split; discriminate.
  destruct (when (auto_up_down g) _ s1) as [s2 [[] | e |]].
  2, 3: cbn; repeat split; discriminate.
  destruct (when (auto_esc g && b5) _ s2) as [s3 [[] | e |]];
    cbn; repeat split; discriminate.
Qed.

Lemma keys_arrows :
  keys !! [0xe0%N; 75%N] = Some "left" /\ keys !! [0xe0%N; 77%N] = Some "right" /\
  keys !! [0xe0%N; 80%N] = Some "down" /\
  keys !! [97%N] = Some "a" /\ keys !! [100%N] = Some "d" /\
  keys !! [119%N] = Some "w" /\ keys !! [115%N] = Some "s".
Proof. vm_compute. by repeat split. Qed.

Lemma read_key_prefixed w b rest :
  stdin w = 0xe0%N :: b :: rest ->
  read_key w =
    ({| heap := heap w; stdout := stdout w; stdin := rest |},
     match keys !! [0xe0%N; b] with Some t => Ok t | None => Raise KeyError end).
Proof.
  intros Hin. unfold read_key, bind, getch. rewrite Hin. cbn [stdin].
  destruct (decide ([0xe0%N] = [0%N])) as [E | _]; [discriminate E |].
  destruct (decide ([0xe0%N] = [0xe0%N])) as [_ | E]; [| done].
  unfold keys_getitem. cbn [stdin heap stdout].
  change ([0xe0%N] ++ [b]) with [0xe0%N; b].
  by destruct (keys !! [0xe0%N; b]).
Qed.

(** [next] of a resumed generator on a key other than "enter". *)
Lemma next_by_after_key g l w w1 key :
  pc g = AtYield ->
  read_key w = (w1, Ok key) ->
  String.eqb key "enter" = false ->
  let a := after_key g (key_in key "left" "a") (key_in key "right" "d")
             (key_in key "up" "w") (key_in key "down" "s")
             (String.eqb key "esc") false key (l, w1) in
  next g (l, w)
  = (match snd a with
     | Ok _ => with_pc AtYield g
     | Raise _ => with_pc Finished g
     | Blocked => g
     end, fst a, snd a).
Proof.
  intros Hpc Hread Hent a.
  destruct (after_key_token g (key_in key "left" "a") (key_in key "right" "d")
              (key_in key "up" "w") (key_in key "down" "s") (String.eqb key "esc")
              key key (l, w1)) as (_ & _ & Hn).
  fold a in Hn.
  unfold next, resume. rewrite Hpc. unfold bind at 1.
  rewrite (loop_body_after_key g l w w1 key Hread), Hent. fold a.
  destruct a as [s1 [[k |] | e |]]; cbn [fst snd ret] in *; [reflexivity | done | reflexivity..].
Qed.

(** [next] on two keyboards whose first keys pass the same tests. *)
Lemma next_same_tests g l w w1 k1 k2 bytes1 bytes2 :
  pc g = AtYield ->
  read_key {| heap := heap w; stdout := stdout w; stdin := bytes1 |} = (w1, Ok k1) ->
  read_key {| heap := heap w; stdout := stdout w; stdin := bytes2 |} = (w1, Ok k2) ->
  key_in k2 "left" "a" = key_in k1 "left" "a" ->
  key_in k2 "right" "d" = key_in k1 "right" "d" ->
  key_in k2 "up" "w" = key_in k1 "up" "w" ->
  key_in k2 "down" "s" = key_in k1 "down" "s" ->
  String.eqb k2 "esc" = String.eqb k1 "esc" ->
  String.eqb k1 "enter" = false -> String.eqb k2 "enter" = false ->
  let n1 := next g (l, {| heap := heap w; stdout := stdout w; stdin := bytes1 |}) in
  let n2 := next g (l, {| heap := heap w; stdout := stdout w; stdin := bytes2 |}) in
  fst n2 = fst n1 /\ snd n2 = yielding k2 (snd n1) /\ snd n1 = yielding k1 (snd n1).
Proof.
  intros Hpc H1 H2 El Er Eu Ed Ee En1 En2 n1 n2. subst n1 n2.
  rewrite (next_by_after_key g l _ w1 k1 Hpc H1 En1), (next_by_after_key g l _ w1 k2 Hpc H2 En2).
  rewrite El, Er, Eu, Ed, Ee.
  destruct (after_key_token g (key_in k1 "left" "a") (key_in k1 "right" "d")
              (key_in k1 "up" "w") (key_in k1 "down" "s") (String.eqb k1 "esc")
              k1 k2 (l, w1)) as (Hs & Hr & Hn).
  destruct (after_key_token g (key_in k1 "left" "a") (key_in k1 "right" "d")
              (key_in k1 "up" "w") (key_in k1 "down" "s") (String.eqb k1 "esc")
              k1 k1 (l, w1)) as (_ & Hself & _).
  destruct (after_key g _ _ _ _ _ false k1 (l, w1)) as [s1 r1].
  destruct (after_key g _ _ _ _ _ false k2 (l, w1)) as [s2 r2].
  cbn [fst snd] in *. subst s2 r2. split; [| split; [reflexivity | exact Hself]].
  by destruct r1 as [[k |] | e |].
Qed.

(** X22 — The letters a, d, w, s act as the arrows left, right, up, down:
    from the same state, [next] on the letter and [next] on the arrow end
    in the same state with the same generator, and differ only in the token
    yielded (the letter for the letter, the name of the arrow for the
    arrow). *)
Theorem letters_act_as_arrows :
  forall (g : generator) (l : ElementList) (w : world) (rest : list N),
    pc g = AtYield ->
    let on bytes :=
      next g (l, {| heap := heap w; stdout := stdout w; stdin := bytes ++ rest |}) in
    let same (letter : N) (code : N) (t_letter t_arrow : string) :=
      fst (on [0xe0%N; code]) = fst (on [letter])
      /\ snd (on [0xe0%N; code]) = yielding t_arrow (snd (on [letter]))
      /\ snd (on [letter]) = yielding t_letter (snd (on [letter])) in
    same 97%N 75%N "a" "left" /\ same 100%N 77%N "d" "right"
    /\ same 119%N 72%N "w" "up" /\ same 115%N 80%N "s" "down".
Proof.
  intros g l w rest Hpc on same. subst on same. cbn beta.
  destruct keys_arrows as (Kl & Kr & Kd & Ka & Kdd & Kw & Ks).
  assert (Hletter : forall b t, b <> 0%N -> b <> 0xe0%N -> keys !! [b] = Some t ->
             read_key {| heap := heap w; stdout := stdout w; stdin := [b] ++ rest |}
             = ({| heap := heap w; stdout := stdout w; stdin := rest |}, Ok t)).
  { intros b t H0 He Hk.
    rewrite (read_key_single {| heap := heap w; stdout := stdout w; stdin := [b] ++ rest |}
               b rest H0 He eq_refl). cbn [heap stdout]. by rewrite Hk. }
  assert (Harrow : forall b t, keys !! [0xe0%N; b] = Some t ->
             read_key {| heap := heap w; stdout := stdout w; stdin := [0xe0%N; b] ++ rest |}
             = ({| heap := heap w; stdout := stdout w; stdin := rest |}, Ok t)).
  { intros b t Hk.
    rewrite (read_key_prefixed
               {| heap := heap w; stdout := stdout w; stdin := [0xe0%N; b] ++ rest |}
               b rest eq_refl). cbn [heap stdout]. by rewrite Hk. }
  repeat split.
  1-3: apply (next_same_tests g l w _ "a" "left" _ _ Hpc
                (Hletter 97%N "a" ltac:(discriminate) ltac:(discriminate) Ka)
                (Harrow 75%N "left" Kl)); reflexivity.
  1-3: apply (next_same_tests g l w _ "d" "right" _ _ Hpc
                (Hletter 100%N "d" ltac:(discriminate) ltac:(discriminate) Kdd)
                (Harrow 77%N "right" Kr)); reflexivity.
  1-3: apply (next_same_tests g l w _ "w" "up" _ _ Hpc
                (Hletter 119%N "w" ltac:(discriminate) ltac:(discriminate) Kw)
                (Harrow 72%N "up" keys_up)); reflexivity.
  1-3: apply (next_same_tests g l w _ "s" "down" _ _ Hpc
                (Hletter 115%N "s" ltac:(discriminate) ltac:(discriminate) Ks)
                (Harrow 80%N "down" Kd)); reflexivity.
Qed.

Lemma letters_act_as_arrows_witness :
  let g := with_pc AtYield (key_presses true true false true false) in
  let on bytes := next g (fst (two_counters []), world_of (heap (snd (two_counters []))) bytes) in
  fst (on [0xe0%N; 72%N]) = fst (on [119%N])
  /\ snd (on [119%N]) = Ok (Some "w")
  /\ snd (on [0xe0%N; 72%N]) = Ok (Some "up")
  /\ count_at (snd (snd (fst (on [119%N])))) 0%nat = Some (Fin 1).
Proof.
  intros g on.
  destruct (letters_act_as_arrows g (fst (two_counters [])) (snd (two_counters [])) [] eq_refl)
    as (_ & _ & (Hstate & Harrow & _) & _).
  assert (Hw : snd (on [119%N]) = Ok (Some "w")) by (vm_compute; reflexivity).
  split; [exact Hstate | split; [exact Hw | split]].
  - change (snd (on [224%N; 72%N]) = yielding "up" (snd (on [119%N]))) in Harrow.
    rewrite Harrow, Hw. reflexivity.
  - vm_compute. reflexivity.
Defined.

(** X23 — With [auto_left_right], on a list built with [exclusive=True]
    whose widgets can be drawn, the key "left" moves the selection before
    it is yielded: [next] yields 'left', the index is [(i - 1) mod n], the
    widget at that index is selected and every other element is
    deselected. *)
Theorem left_key_moves_the_selection :
  forall (g : generator) (l : ElementList) (w : world) (rest : list N),
    pc g = AtYield ->
    auto_left_right g = true ->
    elems l <> [] ->
    (forall m, m ∈ elems l ->
       exists o, heap w !! m = Some o /\
                 exclusive_to (element_of o) = elems l /\ drawable o) ->
    stdin w = 0xe0%N :: 75%N :: rest ->
    let i := (_current_index l - 1) mod Z.of_nat (length (elems l)) in
    exists r w',
      next g (l, w) = (with_pc AtYield g, (with_current_index i l, w'), Ok (Some "left")) /\
      elems l !! Z.to_nat i = Some r /\
      selected_at w' r = Some true /\
      (forall m, m ∈ elems l -> m <> r -> selected_at w' m = Some false) /\
      stdin w' = rest.
Proof.
  intros g l w rest Hpc Hlr Hne Hgroup Hin i.
  destruct keys_arrows as (Kl & _).
  set (w1 := {| heap := heap w; stdout := stdout w; stdin := rest |}).
  assert (Hread : read_key w = (w1, Ok "left")).
  { rewrite (read_key_prefixed w 75 rest Hin). by rewrite Kl. }
  destruct (lookup_mod (elems l) (_current_index l - 1) Hne) as [r Hr]. fold i in Hr.
  destruct (select_group_run w1 (elems l) r (list_elem_of_lookup_2 _ _ _ Hr) Hgroup)
    as (w' & Hsel & Hsr & Hothers & [Hi _]).
  exists r, w'. split; [| by repeat split].
  rewrite (next_by_after_key g l w w1 "left" Hpc Hread eq_refl).
  change (key_in "left" "left" "a") with true.
  change (key_in "left" "right" "d") with false.
  change (key_in "left" "up" "w") with false.
  change (key_in "left" "down" "s") with false.
  change (String.eqb "left" "esc") with false.
  assert (Hafter : after_key g true false false false false false "left" (l, w1)
                   = ((with_current_index i l, w'), Ok (Some "left"))).
  { unfold after_key. rewrite Hlr, !andb_false_r. cbn [when].
    rewrite (bind_run _ _ _ _ _ (move_left_run l w1 r w' (Ok tt) Hne Hr Hsel)).
    by destruct (auto_up_down g). }
  by rewrite Hafter.
Qed.

Lemma left_key_moves_the_selection_witness :
  let g := with_pc AtYield (key_presses true false false false false) in
  let l := {| elems := [0%nat; 1%nat; 2%nat]; el_wrap := true; _current_index := 1 |} in
  let w := {| heap := heap three_widgets; stdout := []; stdin := [0xe0%N; 75%N] |} in
  exists w',
    next g (l, w) = (g, (with_current_index 0 l, w'), Ok (Some "left")) /\
    selected_at w' 0%nat = Some true /\
    selected_at w' 1%nat = Some false /\
    selected_at w' 2%nat = Some false.
Proof.
  intros g l w.
  destruct (left_key_moves_the_selection g l w []) as (r & w' & Hrun & Hr & Hsel & Hrest & _).
  - reflexivity.
  - reflexivity.
  - discriminate.
  - intros m Hm.
    apply elem_of_cons in Hm as [-> | Hm]; [| apply elem_of_cons in Hm as [-> | Hm]];
      [| | apply elem_of_cons in Hm as [-> | Hm]; [| by apply elem_of_nil in Hm]];
      (eexists; split; [reflexivity | split; [reflexivity | exact I]]).
  - reflexivity.
  - injection Hr as <-. exists w'.
    split; [exact Hrun | split; [exact Hsel | split]].
    + apply Hrest; [| discriminate]. apply elem_of_cons. right. apply elem_of_cons. by left.
    + apply Hrest; [| discriminate].
      apply elem_of_cons. right. apply elem_of_cons. right. apply elem_of_cons. by left.
Defined.

(** ** The first frame *)

Lemma bind_blocks {S A B : Type} (m : M S A) (k : A -> M S B) s s1 :
  m s = (s1, Blocked) -> bind m k s = (s1, Blocked).
Proof. intros H. unfold bind. by rewrite H. Qed.

Lemma writes_only_refl w : writes_only w w.
Proof. exists []. by rewrite app_nil_r. Qed.

Lemma writes_only_trans a b c : writes_only a b -> writes_only b c -> writes_only a c.
Proof.
  intros (e1 & H1 & Hh1) (e2 & H2 & Hh2). exists (e1 ++ e2).
  split; [by rewrite H2, H1, app_assoc | by rewrite hook_calls_app, Hh1, Hh2].
Qed.

#[local] Hint Resolve writes_only_refl writes_only_trans : footprint.

Lemma writes_only_deref r : respects writes_only (deref r).
Proof. intros w. unfold deref. destruct (heap w !! r); apply writes_only_refl. Qed.

Lemma writes_only_store r o : respects writes_only (store r o).
Proof. intros w. exists []. cbn. by rewrite app_nil_r. Qed.

Lemma writes_only_print_pos t px py fore back :
  respects writes_only (print_pos t px py fore back).
Proof. intros w. by eexists [_]. Qed.

Ltac writing :=
  footprint_by ltac:(first [ apply writes_only_deref | apply writes_only_store
                           | apply writes_only_print_pos ]).

Lemma writes_only_update r : respects writes_only (update r).
Proof.
  unfold update, GUICounter_update, GUIHiddenList_update, GUIElement_update, counter_at.
  writing.
Qed.

Lemma writes_only_select r : respects writes_only (select r).
Proof.
  unfold select, deselect, modify. writing; apply writes_only_update.
Qed.

(** Drawing a widget that can be drawn is one write, and what is written
    depends on the object only. *)
Lemma update_writes_once r o :
  drawable o ->
  exists text, forall w, heap w !! r = Some o -> draws_as w r (Write text).
Proof.
  intros Hd. destruct o as [e | c | h].
  - eexists. intros w Ho. unfold draws_as, update.
    rewrite (bind_run _ _ _ _ _ (deref_Some _ _ _ Ho)).
    unfold GUIElement_update. rewrite (bind_run _ _ _ _ _ (deref_Some _ _ _ Ho)).
    reflexivity.
  - destruct Hd as [Hal | Hal]; eexists; intros w Ho; unfold draws_as, update;
      rewrite (bind_run _ _ _ _ _ (deref_Some _ _ _ Ho));
      unfold GUICounter_update;
      rewrite (bind_run _ _ _ _ _ (counter_at_Some _ _ _ c Ho eq_refl));
      rewrite Hal; cbn [String.eqb Ascii.eqb Bool.eqb andb];
      unfold GUIElement_update; rewrite (bind_run _ _ _ _ _ (deref_Some _ _ _ Ho));
      reflexivity.
  - destruct Hd as (Hne & z & Hz).
    destruct (GUIHiddenList_current_defined h z Hne Hz) as (s & Hs & _).
    eexists. intros w Ho. apply (update_hidden_list_run w r h s Ho Hs).
Qed.

(** The loop of the prologue: one write for each element, in the order of
    the list, and each is what [update()] of that element writes. *)
Lemma for_each_update_writes l : forall w,
  (forall m, m ∈ l -> drawable_at w m) ->
  exists evs,
    for_each l update w
    = ({| heap := heap w; stdout := stdout w ++ evs; stdin := stdin w |}, Ok tt) /\
    hook_calls evs = [] /\ length evs = length l /\
    Forall2 (fun m ev => forall w0, heap w0 = heap w -> draws_as w0 m ev) l evs.
Proof.
  induction l as [| r l IH]; intros w Hall.
  - exists []. split; [| split; [| split]]; [| reflexivity | reflexivity | constructor].
    cbn. destruct w. cbn. by rewrite app_nil_r.
  - destruct (Hall r ltac:(left)) as (o & Ho & Hd).
    destruct (update_writes_once r o Hd) as (text & Htext).
    pose proof (Htext w Ho) as Hrun1. unfold draws_as in Hrun1.
    destruct (IH {| heap := heap w; stdout := stdout w ++ [Write text]; stdin := stdin w |})
      as (evs & Hrun2 & Hhooks & Hlen & Heach).
    { intros m Hm. apply (drawable_at_same_heap w); [reflexivity | apply Hall; by right]. }
    exists (Write text :: evs). cbn [for_each].
    rewrite (bind_run _ _ _ _ _ Hrun1), Hrun2. cbn [heap stdout stdin].
    split; [by rewrite <- app_assoc |].
    split; [exact Hhooks |]. split; [cbn [length]; lia |].
    constructor; [| exact Heach].
    intros w0 Hh. apply Htext. by rewrite Hh.
Qed.

Lemma writes_only_deselections self l :
  respects writes_only
    (for_each l (fun element =>
       let* oe := deref element in
       when (selected (element_of oe) && negb (element =? self)%nat) (deselect element))).
Proof.
  apply respects_for_each; [apply writes_only_refl | apply writes_only_trans |].
  intros element. unfold deselect, modify. writing; apply writes_only_update.
Qed.

(** [select()] returns with the widget selected, and the last thing it
    writes is the drawing of that widget. *)
Lemma select_returns_selected w a oa :
  heap w !! a = Some oa -> drawable oa ->
  (forall m, m ∈ exclusive_to (element_of oa) -> drawable_at w m) ->
  exists w' before ev,
    select a w = (w', Ok tt) /\ selected_at w' a = Some true /\
    stdout w' = stdout w ++ before ++ [ev] /\
    hook_calls (before ++ [ev]) = [] /\
    (forall w0, heap w0 = heap w' -> draws_as w0 a ev).
Proof.
  intros Hoa Hda Hex.
  unfold select. rewrite (bind_run _ _ _ _ _ (deref_Some _ _ _ Hoa)).
  destruct (select_loop a _ w Hex) as (w1 & Hrun1 & Hd1 & _).
  pose proof (writes_only_deselections a (exclusive_to (element_of oa)) w) as Hw1.
  rewrite Hrun1 in Hw1. cbn [fst] in Hw1. destruct Hw1 as (before & Hbefore & Hhooks).
  rewrite (bind_run _ _ _ _ _ Hrun1).
  destruct (Hd1 a ltac:(by exists oa)) as (oa1 & Hoa1 & Hda1).
  rewrite (bind_run _ _ _ _ _ (modify_Some _ _ _ _ Hoa1)).
  set (o' := map_element (with_selected true) oa1).
  set (w2 := {| heap := <[a := o']> (heap w1); stdout := stdout w1; stdin := stdin w1 |}).
  assert (Ho2 : heap w2 !! a = Some o') by (cbn; by rewrite (lookup_insert_same _ _ _ _ Hoa1)).
  destruct (update_writes_once a o') as (text & Htext);
    [by apply drawable_map_element |].
  pose proof (Htext w2 Ho2) as Hrun2. unfold draws_as in Hrun2.
  eexists _, before, (Write text). split; [exact Hrun2 |].
  split; [| split; [| split]].
  - unfold selected_at. cbn [heap]. fold (heap w2). rewrite Ho2. subst o'. by destruct oa1.
  - cbn [stdout w2]. by rewrite Hbefore, app_assoc.
  - rewrite hook_calls_app, Hhooks. reflexivity.
  - intros w0 Hh. apply Htext. rewrite Hh. exact Ho2.
Qed.

(** X24 — The first [next] paints before it reads: with no key waiting, it
    calls the [init] hook, selects the current widget (the drawing of that
    widget, selected, ends what [select()] writes), then draws every element
    once and in the order of the list: the last events are, element by
    element, what [update()] of that element writes.  Then it waits for a
    key, with nothing but selection flags changed in the heap. *)
Theorem first_next_paints_then_waits :
  forall (g : generator) (l : ElementList) (w : world) (r : ref) (o : widget),
    pc g = NotStarted ->
    stdin w = [] ->
    py_index (elems l) (_current_index l) = Some r ->
    heap w !! r = Some o ->
    drawable o ->
    (forall m, m ∈ exclusive_to (element_of o) -> drawable_at w m) ->
    (forall m, m ∈ elems l -> drawable_at w m) ->
    exists w' deselections selection frame,
      next g (l, w) = (g, (l, w'), Blocked) /\
      stdout w' = stdout w ++ [CallListInit] ++ (deselections ++ [selection]) ++ frame /\
      hook_calls (deselections ++ [selection]) = [] /\
      draws_as w' r selection /\
      selected_at w' r = Some true /\
      Forall2 (draws_as w') (elems l) frame /\
      hook_calls frame = [] /\
      length frame = length (elems l) /\
      reselected w w'.
Proof.
  intros g l w r o Hpc Hin Hidx Ho Hd Hex Hall.
  set (wa := {| heap := heap w; stdout := stdout w ++ [CallListInit]; stdin := stdin w |}).
  assert (Hinit : init (l, w) = ((l, wa), Ok tt)) by reflexivity.
  destruct (select_returns_selected wa r o Ho Hd Hex)
    as (wb & deselections & selection & Hsel & Hselected & Hout_b & Hhooks_b & Hdrawn).
  assert (Hab : reselected wa wb).
  { pose proof (reselected_select r wa) as H. by rewrite Hsel in H. }
  destruct (for_each_update_writes (elems l) wb) as (frame & Hdraw & Hhooks_c & Hlen & Heach).
  { intros m Hm. apply (reselected_drawable_at wa); [exact Hab |].
    apply (drawable_at_same_heap w); [reflexivity | by apply Hall]. }
  set (wc := {| heap := heap wb; stdout := stdout wb ++ frame; stdin := stdin wb |}) in Hdraw.
  assert (Hselect : (let* current := ElementList_current in lift (select current)) (l, wa)
                    = ((l, wb), Ok tt)).
  { rewrite (bind_run _ _ _ _ _ (current_run l wa r Hidx)). by apply lift_run. }
  assert (Hpro : prologue (l, w) = ((l, wc), Ok tt)).
  { unfold prologue.
    rewrite (bind_run _ _ _ _ _ Hinit), (bind_run _ _ _ _ _ Hselect).
    unfold bind at 1, get_self. by apply lift_run. }
  assert (Hin_c : stdin wc = []).
  { cbn [stdin wc]. destruct Hab as [-> _]. exact Hin. }
  assert (Hread : read_key wc = (wc, Blocked)).
  { unfold read_key, bind, getch. by rewrite Hin_c. }
  exists wc, deselections, selection, frame.
  split; [| split; [| split; [| split; [| split; [| split; [| split; [| split]]]]]]].
  - unfold next, resume. rewrite Hpc, (bind_run _ _ _ _ _ Hpro).
    assert (Hbody : loop_body g (l, wc) = ((l, wc), Blocked)).
    { unfold loop_body. apply bind_blocks. by apply lift_run. }
    by rewrite (bind_blocks _ _ _ _ Hbody).
  - cbn [stdout wc]. rewrite Hout_b. cbn [stdout wa]. by rewrite <- !app_assoc.
  - exact Hhooks_b.
  - by apply Hdrawn.
  - unfold selected_at in *. exact Hselected.
  - apply (Forall2_impl _ _ _ _ Heach). intros m ev Hm. by apply Hm.
  - exact Hhooks_c.
  - exact Hlen.
  - apply (reselected_trans _ wa); [by apply draws_reselected; repeat split; exists [CallListInit] |].
    apply (reselected_trans _ wb); [exact Hab |].
    apply draws_reselected. repeat split. by exists frame.
Qed.

Lemma first_next_paints_then_waits_witness :
  let g := key_presses false true false true true in
  let drawn value back :=
    Write (print_pos_text (PStr value) (PNum (Fin 1)) (PNum (Fin 1)) Fore_RESET back) in
  exists w',
    next g (two_counters []) = (g, (fst (two_counters []), w'), Blocked) /\
    stdout w' = [CallListInit; drawn "0" Back_GREEN; drawn "0" Back_GREEN; drawn "5" Back_RESET] /\
    Forall2 (draws_as w') [0%nat; 1%nat] [drawn "0" Back_GREEN; drawn "5" Back_RESET] /\
    selected_at w' 0%nat = Some true.
Proof.
  intros g drawn.
  destruct (first_next_paints_then_waits g (fst (two_counters [])) (snd (two_counters []))
              0%nat (WCounter (counter_example 0 (NegInf, PosInf) true)))
    as (w' & deselections & selection & frame
        & Hrun & Hout & _ & _ & Hsel & Heach & _ & Hlen & _).
  - reflexivity.
  - reflexivity.
  - reflexivity.
  - reflexivity.
  - left. reflexivity.
  - intros m Hm. by apply elem_of_nil in Hm.
  - intros m Hm.
    apply elem_of_cons in Hm as [-> | Hm];
      [| apply elem_of_cons in Hm as [-> | Hm]; [| by apply elem_of_nil in Hm]];
      (eexists; split; [reflexivity | left; reflexivity]).
  - assert (Hw' : w' = snd (snd (fst (next g (two_counters []))))).
    { change (next g (fst (two_counters []), snd (two_counters [])))
        with (next g (two_counters [])) in Hrun. by rewrite Hrun. }
    assert (Hterm : stdout w'
                    = [CallListInit; drawn "0" Back_GREEN; drawn "0" Back_GREEN;
                       drawn "5" Back_RESET]).
    { rewrite Hw'. vm_compute. reflexivity. }
    exists w'. split; [exact Hrun |]. split; [exact Hterm |]. split; [| exact Hsel].
    rewrite Hterm in Hout. cbn [two_counters world_of snd stdout app] in Hout.
    destruct frame as [| f0 [| f1 [| f2 frame]]]; try discriminate Hlen.
    destruct deselections as [| d0 [| d1 deselections]]; cbn in Hout.
    + injection Hout as _ <- <-. exact Heach.
    + discriminate Hout.
    + exfalso. apply (f_equal length) in Hout. cbn [length] in Hout.
      rewrite !length_app in Hout. cbn [length] in Hout. lia.
Defined.

(** * Cleaning at the end of the loop *)

(** ** No clearing before the end *)

Lemma nothing_cleaned_nil : nothing_cleaned [].
Proof. split; [| intros r]; intros H; by apply elem_of_nil in H. Qed.

Lemma nothing_cleaned_app a b :
  nothing_cleaned a -> nothing_cleaned b -> nothing_cleaned (a ++ b).
Proof.
  intros [Ha1 Ha2] [Hb1 Hb2].
  split; [| intros r]; intros H; apply elem_of_app in H as [H | H].
  - by apply Ha1.
  - by apply Hb1.
  - by apply (Ha2 r).
  - by apply (Hb2 r).
Qed.

Lemma nothing_cleaned_write t : nothing_cleaned [Write t].
Proof.
  split; [| intros r]; intros H;
    (apply elem_of_cons in H as [H | H]; [discriminate H | by apply elem_of_nil in H]).
Qed.

Lemma nothing_cleaned_init : nothing_cleaned [CallListInit].
Proof.
  split; [| intros r]; intros H;
    (apply elem_of_cons in H as [H | H]; [discriminate H | by apply elem_of_nil in H]).
Qed.

Lemma uncleaned_refl w : uncleaned w w.
Proof.
  split; [reflexivity |]. exists []. split; [by rewrite app_nil_r | apply nothing_cleaned_nil].
Qed.

Lemma uncleaned_trans a b c : uncleaned a b -> uncleaned b c -> uncleaned a c.
Proof.
  intros (H1 & e1 & He1 & Hn1) (H2 & e2 & He2 & Hn2). split; [congruence |].
  exists (e1 ++ e2). split; [by rewrite He2, He1, app_assoc | by apply nothing_cleaned_app].
Qed.

Lemma uncleaned_of_refl s : uncleaned_of s s.
Proof. split; [reflexivity | apply uncleaned_refl]. Qed.

Lemma uncleaned_of_trans a b c : uncleaned_of a b -> uncleaned_of b c -> uncleaned_of a c.
Proof.
  intros [H1 H2] [H3 H4]. split; [congruence | by eapply uncleaned_trans].
Qed.

#[local] Hint Resolve uncleaned_refl uncleaned_trans uncleaned_of_refl uncleaned_of_trans
  : footprint.

Lemma uncleaned_deref r : respects uncleaned (deref r).
Proof. intros w. unfold deref. destruct (heap w !! r); apply uncleaned_refl. Qed.

Lemma uncleaned_store r o : respects uncleaned (store r o).
Proof.
  intros w. split; [cbn; apply length_insert |].
  exists []. cbn. split; [by rewrite app_nil_r | apply nothing_cleaned_nil].
Qed.

Lemma uncleaned_print_pos t px py fore back :
  respects uncleaned (print_pos t px py fore back).
Proof.
  intros w. split; [reflexivity |].
  eexists [_]. split; [reflexivity | apply nothing_cleaned_write].
Qed.

Lemma uncleaned_init_hook : respects uncleaned (emit CallListInit).
Proof.
  intros w. split; [reflexivity |].
  exists [CallListInit]. split; [reflexivity | apply nothing_cleaned_init].
Qed.

Lemma uncleaned_getch : respects uncleaned getch.
Proof.
  intros w. unfold getch. destruct (stdin w); cbn [fst];
    (split; [reflexivity |]; exists []; cbn [stdout];
     split; [by rewrite app_nil_r | apply nothing_cleaned_nil]).
Qed.

Ltac uncleaning :=
  footprint_by ltac:(first [ apply uncleaned_deref | apply uncleaned_store
                           | apply uncleaned_print_pos | apply uncleaned_getch ]).

Lemma uncleaned_update r : respects uncleaned (update r).
Proof.
  unfold update, GUICounter_update, GUIHiddenList_update, GUIElement_update, counter_at.
  uncleaning.
Qed.

Lemma uncleaned_modify r f : respects uncleaned (modify r f).
Proof. unfold modify. uncleaning. Qed.

Ltac uncleaning_calls :=
  footprint_by ltac:(first [ apply uncleaned_deref | apply uncleaned_modify
                           | apply uncleaned_update ]).

Lemma uncleaned_select r : respects uncleaned (select r).
Proof. unfold select, deselect. uncleaning_calls. Qed.

Lemma uncleaned_increase r : respects uncleaned (increase r).
Proof.
  unfold increase, GUICounter_increase, GUIHiddenList_increase, counter_at, set_count.
  uncleaning_calls.
Qed.

Lemma uncleaned_decrease r : respects uncleaned (decrease r).
Proof.
  unfold decrease, GUICounter_decrease, GUIHiddenList_decrease, counter_at, set_count.
  uncleaning_calls.
Qed.

Lemma uncleaned_read_key : respects uncleaned read_key.
Proof. unfold read_key, keys_getitem. uncleaning. Qed.

Lemma uncleaned_lift {A : Type} (m : M world A) :
  respects uncleaned m -> respects uncleaned_of (lift m).
Proof.
  intros Hm [l w]. unfold lift. cbn [snd fst]. specialize (Hm w).
  destruct (m w) as [w' r]. by split.
Qed.

Lemma uncleaned_get_self : respects uncleaned_of get_self.
Proof. intros s. apply uncleaned_of_refl. Qed.

Lemma uncleaned_set_current_index i : respects uncleaned_of (set_current_index i).
Proof. intros s. split; [reflexivity | apply uncleaned_refl]. Qed.

Ltac uncleaning_of_list :=
  footprint_by ltac:(first [ apply uncleaned_get_self | apply uncleaned_set_current_index
                           | apply uncleaned_lift;
                             first [ apply uncleaned_select | apply uncleaned_increase
                                   | apply uncleaned_decrease | apply uncleaned_read_key
                                   | apply uncleaned_init_hook
                                   | apply respects_for_each;
                                     [ apply uncleaned_refl | apply uncleaned_trans
                                     | intros; apply uncleaned_update ] ] ]).

Lemma uncleaned_move_left : respects uncleaned_of move_left.
Proof. unfold move_left, mod_len, ElementList_current. uncleaning_of_list. Qed.

Lemma uncleaned_move_right : respects uncleaned_of move_right.
Proof. unfold move_right, mod_len, ElementList_current. uncleaning_of_list. Qed.

Lemma uncleaned_prologue : respects uncleaned_of prologue.
Proof. unfold prologue, init, ElementList_current. uncleaning_of_list. Qed.

Lemma uncleaned_loop_body g : respects uncleaned_of (loop_body g).
Proof.
  unfold loop_body, ElementList_current.
  uncleaning_of_list; first [apply uncleaned_move_left | apply uncleaned_move_right].
Qed.

(** The elements of the list stay objects of the heap. *)
Lemma uncleaned_keeps_elements s s' :
  uncleaned_of s s' ->
  (forall m, m ∈ elems (fst s) -> is_Some (heap (snd s) !! m)) ->
  forall m, m ∈ elems (fst s') -> is_Some (heap (snd s') !! m).
Proof.
  intros (He & (Hl & _)) Hall m Hm. rewrite He in Hm.
  apply lookup_lt_is_Some. rewrite Hl. apply lookup_lt_is_Some. by apply Hall.
Qed.

(** ** The ways out of the loop *)

(** [break] is reached only under [auto_enter] and on the key "enter",
    which is the byte 13 and no other. *)
Lemma loop_body_break_on_enter g sa sb :
  loop_body g sa = (sb, Ok None) ->
  auto_enter g = true /\ stdin (snd sa) = 13%N :: stdin (snd sb).
Proof.
  unfold loop_body. intros H.
  apply bind_Ok_inv in H as (s1 & key & Hread & Hrest).
  apply lift_inv in Hread as [_ Hread].
  assert (Hkeep : stdin (snd sb) = stdin (snd s1)).
  { match type of Hrest with
    | ?m s1 = _ =>
        assert (Hk : respects keeps_keyboard_of m);
        [| specialize (Hk s1); by rewrite Hrest in Hk]
    end.
    unfold ElementList_current.
    keyboard_of_list; first [apply keeps_keyboard_move_left | apply keeps_keyboard_move_right]. }
  apply bind_Ok_inv in Hrest as (s2 & [] & _ & Hrest).
  apply bind_Ok_inv in Hrest as (s3 & [] & _ & Hrest).
  apply bind_Ok_inv in Hrest as (s4 & [] & _ & Hrest).
  destruct (auto_enter g); [| discriminate Hrest]. split; [reflexivity |].
  destruct (String.eqb_spec key "enter") as [-> | _]; [| discriminate Hrest].
  destruct (read_key_inv _ _ _ Hread ltac:(discriminate)) as (k & Hin & _ & _ & _ & Hr).
  destruct (keys !! k) as [t |] eqn:Hk; [| discriminate Hr].
  injection Hr as <-.
  rewrite (keys_injective k [13%N] "enter" Hk keys_enter) in Hin.
  rewrite Hin, Hkeep. reflexivity.
Qed.

(** The statement after the loop returns when the elements are objects of
    the heap. *)
Lemma epilogue_returns g s :
  (forall m, m ∈ elems (fst s) -> is_Some (heap (snd s) !! m)) ->
  exists s', epilogue g s = (s', Ok tt).
Proof.
  intros Hall. unfold epilogue. destruct (clean g); cbn [when]; [| by exists s].
  destruct s as [l w]. destruct (clear_all_returns l w Hall) as (w' & Hrun & _).
  by eexists.
Qed.

(** A pass of the loop that yields a key, or that raises, has not come to
    the statement after the loop. *)
Lemma iteration_without_end g sa s' r :
  (let* r := loop_body g in
   match r with
   | Some key => ret (Some key)
   | None => epilogue g ;; ret None
   end) sa = (s', r) ->
  (exists key, r = Ok (Some key)) \/
  ((exists e, r = Raise e) /\
   forall m, m ∈ elems (fst sa) -> is_Some (heap (snd sa) !! m)) ->
  loop_body g sa = (s', r).
Proof.
  intros Hrun Hr. unfold bind at 1 in Hrun.
  destruct (loop_body g sa) as [sb [[key |] | e |]] eqn:Hbody.
  - exact Hrun.
  - exfalso. destruct Hr as [(key & ->) | ((e & ->) & Hall)].
    + apply bind_Ok_inv in Hrun as (sc & [] & _ & Hret). discriminate Hret.
    + destruct (epilogue_returns g sb) as (sc & Hepi).
      { apply (uncleaned_keeps_elements sa); [| exact Hall].
        pose proof (uncleaned_loop_body g sa) as H. by rewrite Hbody in H. }
      rewrite (bind_run _ _ _ _ _ Hepi) in Hrun. discriminate Hrun.
  - exact Hrun.
  - exact Hrun.
Qed.

(** A call of [next] that yields a key, or that raises, has cleared
    nothing. *)
Lemma next_without_end_uncleaned g s g' s' r :
  next g s = (g', s', r) ->
  (exists key, r = Ok (Some key)) \/
  ((exists e, r = Raise e) /\
   forall m, m ∈ elems (fst s) -> is_Some (heap (snd s) !! m)) ->
  uncleaned_of s s'.
Proof.
  intros Hnext Hr.
  assert (Hres : resume g s = (s', r)).
  { unfold next in Hnext.
    destruct (resume g s) as [s1 [[key |] | e |]]; by injection Hnext as <- <- <-. }
  assert (Hiter : forall sa,
             uncleaned_of s sa ->
             (let* r := loop_body g in
              match r with
              | Some key => ret (Some key)
              | None => epilogue g ;; ret None
              end) sa = (s', r) ->
             uncleaned_of s s').
  { intros sa Hsa Hrun. apply (uncleaned_of_trans _ sa); [exact Hsa |].
    assert (Hbody : loop_body g sa = (s', r)).
    { apply iteration_without_end; [exact Hrun |].
      destruct Hr as [Hkey | [He Hall]]; [by left | right].
      split; [exact He | by apply (uncleaned_keeps_elements s)]. }
    pose proof (uncleaned_loop_body g sa) as H. by rewrite Hbody in H. }
  unfold resume in Hres. destruct (pc g).
  - unfold bind at 1 in Hres.
    pose proof (uncleaned_prologue s) as Hpro.
    destruct (prologue s) as [sa [[] | e |]]; cbn [fst] in Hpro.
    + by apply (Hiter sa).
    + by injection Hres as <- <-.
    + injection Hres as <- <-. destruct Hr as [(key & Hr) | ((e & Hr) & _)]; discriminate Hr.
  - apply (Hiter s); [apply uncleaned_of_refl | exact Hres].
  - injection Hres as <- <-. destruct Hr as [(key & Hr) | ((e & Hr) & _)]; discriminate Hr.
Qed.

(** The consumer that takes [n] keys and drops the generator. *)
Lemma take_then_drop_uncleaned n : forall g s g' s' ks,
  take_then_drop n g s = (g', s', Ok ks) -> length ks = n ->
  pc g' = Finished /\ uncleaned_of s s'.
Proof.
  induction n as [| n IH]; intros g s g' s' ks Hrun Hlen.
  - cbn in Hrun. injection Hrun as <- <- <-.
    split; [reflexivity | apply uncleaned_of_refl].
  - cbn [take_then_drop] in Hrun.
    destruct (next g s) as [[g1 s1] [[key |] | e |]] eqn:Hnext.
    + destruct (take_then_drop n g1 s1) as [[g2 s2] [l | e |]] eqn:Hrest;
        try discriminate Hrun.
      injection Hrun as <- <- <-. cbn [length] in Hlen.
      destruct (IH g1 s1 g2 s2 l Hrest ltac:(lia)) as [Hpc Hun].
      split; [exact Hpc |]. apply (uncleaned_of_trans _ s1); [| exact Hun].
      apply (next_without_end_uncleaned g s g1 s1 _ Hnext). left. by exists key.
    + injection Hrun as <- <- <-. discriminate Hlen.
    + discriminate Hrun.
    + discriminate Hrun.
Qed.

(** ** The claim *)



